(** * Knowledge graph core of the Obsidian ontology server

    A shallow embedding of [graph/builder.py], [graph/indexer.py] and
    [graph/query.py], together with the part of [networkx.DiGraph] those
    modules call.  Python dictionaries are insertion ordered, and both the
    relation index and the text search iterate over them, so nodes and
    adjacency are association lists in insertion order. *)

From Stdlib Require Import String Ascii Bool Arith ZArith Lia.
From Stdlib Require Import List Permutation Sorted.
Import ListNotations.
Local Open Scope string_scope.
Local Open Scope list_scope.

(** ** Strings and small list utilities *)

(** [x in l] for a Python list or set of strings. *)
Definition mem (x : string) (l : list string) : bool :=
  existsb (String.eqb x) l.

(** Lookup in an insertion ordered dictionary with string keys. *)
Fixpoint assoc {A : Type} (k : string) (d : list (string * A)) : option A :=
  match d with
  | [] => None
  | (k', v) :: d' => if String.eqb k k' then Some v else assoc k d'
  end.

(** [d[k] = v]: an existing key keeps its position, a new key goes last. *)
Fixpoint assoc_set {A : Type} (k : string) (v : A) (d : list (string * A))
  : list (string * A) :=
  match d with
  | [] => [(k, v)]
  | (k', v') :: d' =>
      if String.eqb k k' then (k', v) :: d' else (k', v') :: assoc_set k v d'
  end.

(** [del d[k]], ignoring a missing key. *)
Definition assoc_del {A : Type} (k : string) (d : list (string * A))
  : list (string * A) :=
  filter (fun kv => negb (String.eqb k (fst kv))) d.

(** [str.lower()] on the ASCII range; other bytes are left as they are. *)
Definition lower_ascii (c : ascii) : ascii :=
  let n := nat_of_ascii c in
  if (65 <=? n)%nat && (n <=? 90)%nat then ascii_of_nat (n + 32) else c.

Fixpoint lower (s : string) : string :=
  match s with
  | EmptyString => EmptyString
  | String c s' => String (lower_ascii c) (lower s')
  end.

(** [q in s] for strings: [q] occurs in [s] as a contiguous substring. *)
Fixpoint contains (q s : string) : bool :=
  String.prefix q s ||
  match s with
  | EmptyString => false
  | String _ s' => contains q s'
  end.

(** ** Concept records ([extraction/skos_extractor.py]) *)

Record SKOSConcept := {
  concept_id : string;
  uri : string;
  pref_label : string;
  alt_labels : list string;
  definition : option string;
  notation : option string;
  in_scheme : option string;
  broader : list string;
  narrower : list string;
  related : list string;
  schema_type : option string;
  about : list string;
  teaches : list string;
  educational_level : option string;
  learning_resource_type : option string;
  course : list string;
  lecture_week : option Z;
  prerequisite : list string;
  file_path : string;
  content : string
}.

(** The dictionary [to_dict] returns; the field names are its keys. *)
Record SchemaData := {
  sd_type : option string;
  sd_about : list string;
  sd_teaches : list string;
  sd_educationalLevel : option string;
  sd_learningResourceType : option string
}.

Record AcademicData := {
  ad_course : list string;
  ad_lectureWeek : option Z;
  ad_prerequisite : list string
}.

Record NodeData := {
  nd_concept_id : string;
  nd_uri : string;
  nd_prefLabel : string;
  nd_altLabel : list string;
  nd_definition : option string;
  nd_notation : option string;
  nd_inScheme : option string;
  nd_broader : list string;
  nd_narrower : list string;
  nd_related : list string;
  nd_schema : SchemaData;
  nd_academic : AcademicData;
  nd_file_path : string;
  nd_content : string
}.

Definition to_dict (c : SKOSConcept) : NodeData :=
  {| nd_concept_id := concept_id c;
     nd_uri := uri c;
     nd_prefLabel := pref_label c;
     nd_altLabel := alt_labels c;
     nd_definition := definition c;
     nd_notation := notation c;
     nd_inScheme := in_scheme c;
     nd_broader := broader c;
     nd_narrower := narrower c;
     nd_related := related c;
     nd_schema :=
       {| sd_type := schema_type c;
          sd_about := about c;
          sd_teaches := teaches c;
          sd_educationalLevel := educational_level c;
          sd_learningResourceType := learning_resource_type c |};
     nd_academic :=
       {| ad_course := course c;
          ad_lectureWeek := lecture_week c;
          ad_prerequisite := prerequisite c |};
     nd_file_path := file_path c;
     nd_content := content c |}.

(** ** The directed graph ([networkx.DiGraph])

    One entry per node, in insertion order: its id, its attribute dictionary
    and its successor dictionary ([_succ[id]]: target id to the edge's
    [relation_type]).  A [DiGraph] keeps a single edge, hence a single
    [relation_type], per ordered pair.  The attribute dictionary of a node
    that [add_edge] created on its own is empty, written [None]. *)
Module NX.

Record Node := {
  node_id : string;
  node_attrs : option NodeData;
  node_succ : list (string * string)
}.

Definition DiGraph := list Node.

Definition empty : DiGraph := [].

Definition nodes (g : DiGraph) : list string := map node_id g.

Fixpoint find_node (g : DiGraph) (n : string) : option Node :=
  match g with
  | [] => None
  | x :: g' => if String.eqb n (node_id x) then Some x else find_node g' n
  end.

Definition has_node (g : DiGraph) (n : string) : bool :=
  match find_node g n with Some _ => true | None => false end.

(** The [relation_type] of the edge [u -> v], when there is one. *)
Definition edge_rel (g : DiGraph) (u v : string) : option string :=
  match find_node g u with
  | Some x => assoc v (node_succ x)
  | None => None
  end.

Definition has_edge (g : DiGraph) (u v : string) : bool :=
  match edge_rel g u v with Some _ => true | None => false end.

(** Apply [f] to the entry of node [n]. *)
Definition alter_node (f : Node -> Node) (n : string) (g : DiGraph) : DiGraph :=
  map (fun x => if String.eqb n (node_id x) then f x else x) g.

(** [G.add_node(n, **data)]: an existing node keeps its place and its edges
    and has its attributes updated; [data] always carries every key of
    [to_dict], so the update replaces the whole dictionary. *)
Definition add_node (g : DiGraph) (n : string) (data : NodeData) : DiGraph :=
  if has_node g n
  then alter_node (fun x => {| node_id := node_id x;
                               node_attrs := Some data;
                               node_succ := node_succ x |}) n g
  else g ++ [{| node_id := n; node_attrs := Some data; node_succ := [] |}].

(** What [add_edge] does for an endpoint that is not a node yet. *)
Definition ensure_node (g : DiGraph) (n : string) : DiGraph :=
  if has_node g n then g
  else g ++ [{| node_id := n; node_attrs := None; node_succ := [] |}].

(** [G.add_edge(u, v, relation_type=r)]: missing endpoints become nodes; an
    existing edge [u -> v] keeps its place and has its attribute replaced. *)
Definition add_edge (g : DiGraph) (u v r : string) : DiGraph :=
  alter_node (fun x => {| node_id := node_id x;
                          node_attrs := node_attrs x;
                          node_succ := assoc_set v r (node_succ x) |})
             u (ensure_node (ensure_node g u) v).

(** [G.remove_edges_from([(u, v)])] for one pair; a missing edge is ignored. *)
Definition remove_edge (g : DiGraph) (e : string * string) : DiGraph :=
  alter_node (fun x => {| node_id := node_id x;
                          node_attrs := node_attrs x;
                          node_succ := assoc_del (snd e) (node_succ x) |})
             (fst e) g.

Definition remove_edges_from (g : DiGraph) (es : list (string * string))
  : DiGraph :=
  fold_left remove_edge es g.

(** [G.remove_node(n)]: the node goes, and every edge into or out of it. *)
Definition remove_node (g : DiGraph) (n : string) : DiGraph :=
  map (fun x => {| node_id := node_id x;
                   node_attrs := node_attrs x;
                   node_succ := assoc_del n (node_succ x) |})
      (filter (fun x => negb (String.eqb n (node_id x))) g).

(** [G.in_edges(n)] and [G.out_edges(n)], as pairs. *)
Definition in_edges (g : DiGraph) (n : string) : list (string * string) :=
  flat_map (fun x => match assoc n (node_succ x) with
                     | Some _ => [(node_id x, n)]
                     | None => []
                     end) g.

Definition out_edges (g : DiGraph) (n : string) : list (string * string) :=
  match find_node g n with
  | Some x => map (fun vr => (n, fst vr)) (node_succ x)
  | None => []
  end.

(** [G.edges(data=True)]: node by node, each node's successors in the order
    the edges were first inserted. *)
Definition edges (g : DiGraph) : list (string * string * string) :=
  flat_map (fun x => map (fun vr => (node_id x, fst vr, snd vr)) (node_succ x))
           g.

Definition number_of_nodes (g : DiGraph) : nat := length g.

Definition number_of_edges (g : DiGraph) : nat := length (edges g).

(** Adjacency in [G.to_undirected()]: direction and type are forgotten. *)
Definition adjacent (g : DiGraph) (u v : string) : bool :=
  has_edge g u v || has_edge g v u.

(** A call either returns a value or raises the named exception. *)
Inductive outcome (A : Type) : Type :=
| Returns (a : A)
| Raises (exc : string).
Arguments Returns {A} a.
Arguments Raises {A} exc.

(** Breadth-first search over the undirected projection.  [queue] holds the
    paths found so far, each one reversed (its head is the node to expand);
    [unseen] holds the nodes no path has reached yet.  Every round takes one
    path off the queue, so [length unseen + length queue] rounds are enough. *)
Fixpoint bfs (g : DiGraph) (target : string) (fuel : nat)
    (unseen : list string) (queue : list (list string))
  : option (list string) :=
  match fuel with
  | O => None
  | S fuel' =>
      match queue with
      | [] => None
      | [] :: rest => bfs g target fuel' unseen rest
      | (u :: p) :: rest =>
          if String.eqb u target then Some (rev (u :: p))
          else
            bfs g target fuel'
                (filter (fun n => negb (adjacent g u n)) unseen)
                (rest ++ map (fun n => n :: u :: p)
                             (filter (adjacent g u) unseen))
      end
  end.

(** [nx.shortest_path(G.to_undirected(), source, target)] without weights,
    for endpoints that are nodes (the one caller checks both first): a
    shortest path as the list of its nodes; [None] stands for the
    [NetworkXNoPath] exception. *)
Definition shortest_path (g : DiGraph) (source target : string)
  : option (list string) :=
  bfs g target (S (length g))
      (filter (fun n => negb (String.eqb n source)) (nodes g))
      [[source]].

(** [nx.density(G)] of a directed graph, as an exact fraction: zero when
    there is no edge or at most one node, else [m / (n * (n - 1))]. *)
Definition density (g : DiGraph) : Z * Z :=
  let n := number_of_nodes g in
  let m := number_of_edges g in
  if (m =? 0)%nat || (n <=? 1)%nat then (0%Z, 1%Z)
  else (Z.of_nat m, Z.of_nat (n * (n - 1))).

(** [nx.is_weakly_connected(G)]: the null graph raises
    [NetworkXPointlessConcept]; otherwise the component of the first node
    is compared with the whole node set. *)
Definition is_weakly_connected (g : DiGraph) : outcome bool :=
  match g with
  | [] => Raises "NetworkXPointlessConcept"
  | x :: _ =>
      Returns (forallb (fun n => match shortest_path g (node_id x) n with
                                 | Some _ => true
                                 | None => false
                                 end) (nodes g))
  end.

End NX.

(** ** The graph builder ([graph/builder.py]) *)
Module Builder.

Definition _add_concept_node (g : NX.DiGraph) (concept : SKOSConcept)
  : NX.DiGraph :=
  NX.add_node g (concept_id concept) (to_dict concept).

Definition add_broader (cid : string) (g : NX.DiGraph) (broader_id : string)
  : NX.DiGraph :=
  if NX.has_node g broader_id
  then NX.add_edge (NX.add_edge g cid broader_id "broader")
                   broader_id cid "narrower"
  else g.

Definition add_narrower (cid : string) (g : NX.DiGraph) (narrower_id : string)
  : NX.DiGraph :=
  if NX.has_node g narrower_id
  then
    let g1 := if negb (NX.has_edge g cid narrower_id)
              then NX.add_edge g cid narrower_id "narrower" else g in
    if negb (NX.has_edge g1 narrower_id cid)
    then NX.add_edge g1 narrower_id cid "broader" else g1
  else g.

Definition add_related (cid : string) (g : NX.DiGraph) (related_id : string)
  : NX.DiGraph :=
  if NX.has_node g related_id
  then NX.add_edge (NX.add_edge g cid related_id "related")
                   related_id cid "related"
  else g.

Definition add_prerequisite (cid : string) (g : NX.DiGraph) (prereq_id : string)
  : NX.DiGraph :=
  if NX.has_node g prereq_id
  then NX.add_edge g cid prereq_id "prerequisite"
  else g.

(** The four loops of [_add_concept_relations], in the source's order. *)
Definition _add_concept_relations (g : NX.DiGraph) (concept : SKOSConcept)
  : NX.DiGraph :=
  let cid := concept_id concept in
  let g1 := fold_left (add_broader cid) (broader concept) g in
  let g2 := fold_left (add_narrower cid) (narrower concept) g1 in
  let g3 := fold_left (add_related cid) (related concept) g2 in
  fold_left (add_prerequisite cid) (prerequisite concept) g3.

(** [build_graph] works on the builder's own graph [g]; a new builder
    starts from [NX.empty]. *)
Definition build_graph (g : NX.DiGraph) (concepts : list SKOSConcept)
  : NX.DiGraph :=
  fold_left _add_concept_relations concepts
            (fold_left _add_concept_node concepts g).

Definition update_concept (g : NX.DiGraph) (concept : SKOSConcept)
  : NX.DiGraph :=
  let cid := concept_id concept in
  let g1 := if NX.has_node g cid
            then NX.remove_edges_from g (NX.in_edges g cid ++ NX.out_edges g cid)
            else g in
  _add_concept_relations (_add_concept_node g1 concept) concept.

Definition remove_concept (g : NX.DiGraph) (cid : string) : NX.DiGraph :=
  if NX.has_node g cid then NX.remove_node g cid else g.

(** [None] is Python's [None]; [Some None] is an empty dictionary. *)
Definition get_concept (g : NX.DiGraph) (cid : string)
  : option (option NodeData) :=
  match NX.find_node g cid with
  | Some x => Some (NX.node_attrs x)
  | None => None
  end.

Record Statistics := {
  total_concepts : nat;
  total_relations : nat;
  density : Z * Z;
  is_connected : bool
}.

(** The dictionary literal evaluates its entries in order; an exception in
    one of them leaves [get_statistics] without a result. *)
Definition get_statistics (g : NX.DiGraph) : NX.outcome Statistics :=
  match NX.is_weakly_connected g with
  | NX.Returns b =>
      NX.Returns {| total_concepts := NX.number_of_nodes g;
                    total_relations := NX.number_of_edges g;
                    density := NX.density g;
                    is_connected := b |}
  | NX.Raises e => NX.Raises e
  end.


End Builder.

(** ** The index engine ([graph/indexer.py])

    The indexer keeps a reference to the builder's graph object, so the
    scans below read the graph as it is when they run, while the index
    tables hold what the graph was at the last rebuild.  Both are explicit
    arguments here. *)
Module Indexer.

(** [relation_type -> {concept_id -> [related_ids]}] *)
Definition RelationIndex := list (string * list (string * list string)).

Record Indexes := {
  label_index : list (string * string);
  alt_label_index : list (string * string);
  notation_index : list (string * string);
  relation_index : RelationIndex
}.

Definition empty_relation_index : RelationIndex :=
  [("broader", []); ("narrower", []); ("related", []); ("prerequisite", [])].

(** The body of the loop of [_build_relation_index]. *)
Definition index_edge (idx : RelationIndex) (e : string * string * string)
  : RelationIndex :=
  let '(source, target, relation_type) := e in
  match assoc relation_type idx with
  | Some by_source =>
      let targets := match assoc source by_source with
                     | Some l => l
                     | None => []
                     end in
      assoc_set relation_type
                (assoc_set source (targets ++ [target]) by_source) idx
  | None => idx
  end.

Definition _build_relation_index (g : NX.DiGraph) : RelationIndex :=
  fold_left index_edge (NX.edges g) empty_relation_index.

Definition attr_prefLabel (d : option NodeData) : string :=
  match d with Some n => nd_prefLabel n | None => "" end.

Definition attr_altLabel (d : option NodeData) : list string :=
  match d with Some n => nd_altLabel n | None => [] end.

Definition attr_definition (d : option NodeData) : option string :=
  match d with Some n => nd_definition n | None => None end.

Definition attr_notation (d : option NodeData) : option string :=
  match d with Some n => nd_notation n | None => None end.

Definition nonempty (s : string) : bool :=
  match s with EmptyString => false | _ => true end.

(** [_build_indexes], run on empty tables (the constructor and
    [rebuild_indexes] both start from them). *)
Definition _build_indexes (g : NX.DiGraph) : Indexes :=
  {| label_index :=
       fold_left (fun ix x =>
                    let pref_label := attr_prefLabel (NX.node_attrs x) in
                    if nonempty pref_label
                    then assoc_set (lower pref_label) (NX.node_id x) ix
                    else ix) g [];
     alt_label_index :=
       fold_left (fun ix x =>
                    fold_left (fun ix' alt_label =>
                                 if nonempty alt_label
                                 then assoc_set (lower alt_label)
                                                (NX.node_id x) ix'
                                 else ix')
                              (attr_altLabel (NX.node_attrs x)) ix) g [];
     notation_index :=
       fold_left (fun ix x =>
                    match attr_notation (NX.node_attrs x) with
                    | Some n => if nonempty n
                                then assoc_set n (NX.node_id x) ix else ix
                    | None => ix
                    end) g [];
     relation_index := _build_relation_index g |}.

Definition rebuild_indexes (g : NX.DiGraph) (old : Indexes) : Indexes :=
  _build_indexes g.

Definition get_related_concepts (ix : Indexes) (concept_id relation_type : string)
  : list string :=
  match assoc relation_type (relation_index ix) with
  | None => []
  | Some by_source =>
      match assoc concept_id by_source with
      | Some l => l
      | None => []
      end
  end.

(** The score [search_by_text] gives one node. *)
Definition score_node (query_lower : string) (d : option NodeData) : Z :=
  let pref_label := lower (attr_prefLabel d) in
  let score := 0%Z in
  let score :=
    if contains query_lower pref_label
    then let score := (score + 10)%Z in
         if String.eqb pref_label query_lower then (score + 20)%Z else score
    else score in
  let score :=
    fold_left (fun sc alt_label =>
                 if contains query_lower (lower alt_label)
                 then (sc + 5)%Z else sc)
              (attr_altLabel d) score in
  match attr_definition d with
  | Some definition =>
      if nonempty definition && contains query_lower (lower definition)
      then (score + 3)%Z else score
  | None => score
  end.

(** [list.sort(key=lambda x: x[1], reverse=True)]: Python's sort is stable,
    and stays so under [reverse=True]; a stable insertion sort gives the same
    list. *)
Fixpoint insert_desc (x : string * Z) (l : list (string * Z))
  : list (string * Z) :=
  match l with
  | [] => [x]
  | y :: l' =>
      if (snd x <? snd y)%Z then y :: insert_desc x l' else x :: y :: l'
  end.

Definition sort_desc (l : list (string * Z)) : list (string * Z) :=
  fold_right insert_desc [] l.

(** [l[:limit]]; a negative [limit] counts from the end. *)
Definition slice_to {A : Type} (limit : Z) (l : list A) : list A :=
  if (0 <=? limit)%Z then firstn (Z.to_nat limit) l
  else firstn (length l - Z.to_nat (- limit)) l.

Definition matches (g : NX.DiGraph) (query : string) : list (string * Z) :=
  let query_lower := lower query in
  flat_map (fun x =>
              let score := score_node query_lower (NX.node_attrs x) in
              if (0 <? score)%Z then [(NX.node_id x, score)] else [])
           g.

Definition search_by_text (g : NX.DiGraph) (query : string) (limit : Z)
  : list string :=
  map fst (slice_to limit (sort_desc (matches g query))).

Definition find_by_label (ix : Indexes) (label : string) : option string :=
  assoc (lower label) (label_index ix).

Definition find_by_alt_label (ix : Indexes) (alt_label : string)
  : option string :=
  assoc (lower alt_label) (alt_label_index ix).

Definition find_by_notation (ix : Indexes) (notation : string)
  : option string :=
  assoc notation (notation_index ix).

End Indexer.

(** ** The query engine ([graph/query.py]) *)
Module Query.

Definition get_concept (g : NX.DiGraph) (concept_id : string)
  : option (option NodeData) :=
  match NX.find_node g concept_id with
  | Some x => Some (NX.node_attrs x)
  | None => None
  end.

Record Summary := {
  sum_id : string;
  sum_prefLabel : string;
  sum_definition : option string
}.

Record ContextNote := {
  note_id : string;
  note_label : string;
  note_content : string;
  note_file_path : string
}.

Record Focus := {
  focus_id : string;
  focus_uri : string;
  focus_prefLabel : string;
  focus_definition : option string;
  focus_file_path : string;
  focus_content : option string
}.

(** The two shapes of the dictionary [expand_context] returns. *)
Inductive ExpandResult :=
| ExpandError (error : string)
| ExpandOk (focus_concept : Focus)
           (direct_relations transitive_relations : list (string * list Summary))
           (context_notes : option (list ContextNote)).

(** The local variables of the traversal loop. *)
Record Traversal := {
  visited : list string;
  direct : list (string * list Summary);
  transitive : list (string * list Summary);
  notes : list ContextNote;
  queue : list (string * Z * option string)
}.

(** [{rt: [] for rt in relation_types}] *)
Definition empty_lists (relation_types : list string)
  : list (string * list Summary) :=
  fold_left (fun d rt => assoc_set rt [] d) relation_types [].

(** [d[k].append(x)]; the loop only uses keys of [d]. *)
Definition dict_append {A : Type} (k : string) (x : A)
    (d : list (string * list A)) : list (string * list A) :=
  match assoc k d with
  | Some l => assoc_set k (l ++ [x]) d
  | None => d
  end.

(** The body of [for related_id in related_ids]. *)
Definition visit (g : NX.DiGraph) (include_content : bool) (depth : Z)
    (relation_type : string) (st : Traversal) (related_id : string)
  : Traversal :=
  if mem related_id (visited st) then st
  else
    let visited' := related_id :: visited st in
    match get_concept g related_id with
    | Some (Some related_concept) =>
        let concept_summary :=
          {| sum_id := related_id;
             sum_prefLabel := nd_prefLabel related_concept;
             sum_definition := nd_definition related_concept |} in
        let direct' :=
          if (depth =? 0)%Z
          then dict_append relation_type concept_summary (direct st)
          else direct st in
        let transitive' :=
          if (depth =? 0)%Z
          then transitive st
          else dict_append relation_type concept_summary (transitive st) in
        let notes' :=
          if include_content
          then notes st ++ [{| note_id := related_id;
                               note_label := nd_prefLabel related_concept;
                               note_content := nd_content related_concept;
                               note_file_path := nd_file_path related_concept |}]
          else notes st in
        {| visited := visited';
           direct := direct';
           transitive := transitive';
           notes := notes';
           queue := queue st ++ [(related_id, (depth + 1)%Z, Some relation_type)] |}
    | _ =>
        {| visited := visited';
           direct := direct st;
           transitive := transitive st;
           notes := notes st;
           queue := queue st |}
    end.

(** The body of [for relation_type in relation_types]. *)
Definition explore_type (g : NX.DiGraph) (ix : Indexer.Indexes)
    (include_content : bool) (current_id : string) (depth : Z)
    (st : Traversal) (relation_type : string) : Traversal :=
  fold_left (visit g include_content depth relation_type)
            (Indexer.get_related_concepts ix current_id relation_type) st.

Definition explore (g : NX.DiGraph) (ix : Indexer.Indexes)
    (include_content : bool) (relation_types : list string)
    (current_id : string) (depth : Z) (st : Traversal) : Traversal :=
  fold_left (explore_type g ix include_content current_id depth)
            relation_types st.

Definition pop (st : Traversal) (rest : list (string * Z * option string))
  : Traversal :=
  {| visited := visited st;
     direct := direct st;
     transitive := transitive st;
     notes := notes st;
     queue := rest |}.

(** [while queue:]; [None] when [fuel] rounds did not empty the queue. *)
Fixpoint traverse (g : NX.DiGraph) (ix : Indexer.Indexes)
    (include_content : bool) (relation_types : list string) (max_depth : Z)
    (fuel : nat) (st : Traversal) : option Traversal :=
  match queue st with
  | [] => Some st
  | (current_id, depth, from_relation) :: rest =>
      match fuel with
      | O => None
      | S fuel' =>
          if (depth >=? max_depth)%Z
          then traverse g ix include_content relation_types max_depth fuel'
                        (pop st rest)
          else traverse g ix include_content relation_types max_depth fuel'
                        (explore g ix include_content relation_types
                                 current_id depth (pop st rest))
      end
  end.

(** Every id the relation index can hand to the loop. *)
Definition index_targets (ix : Indexer.Indexes) : list string :=
  flat_map (fun by_type => flat_map snd (snd by_type))
           (Indexer.relation_index ix).

(** Each round dequeues one entry, and an entry is enqueued only for an id
    that was not visited before, so the loop runs at most once per distinct
    target of the index, plus once for the focus. *)
Definition rounds (ix : Indexer.Indexes) : nat :=
  S (length (index_targets ix)).

Definition default_relation_types : list string :=
  ["broader"; "narrower"; "related"].

Definition not_found (concept_id : string) : string :=
  "Concept '" ++ concept_id ++ "' not found".

Definition expand_context (g : NX.DiGraph) (ix : Indexer.Indexes)
    (concept_id : string) (relation_types : option (list string))
    (max_depth : Z) (include_content : bool) : option ExpandResult :=
  let relation_types :=
    match relation_types with
    | None => default_relation_types
    | Some l => l
    end in
  match get_concept g concept_id with
  | Some (Some focus_concept) =>
      let st0 := {| visited := [concept_id];
                    direct := empty_lists relation_types;
                    transitive := empty_lists relation_types;
                    notes := [];
                    queue := [(concept_id, 0%Z, None)] |} in
      match traverse g ix include_content relation_types max_depth
                     (rounds ix) st0 with
      | Some st =>
          Some (ExpandOk
                  {| focus_id := concept_id;
                     focus_uri := nd_uri focus_concept;
                     focus_prefLabel := nd_prefLabel focus_concept;
                     focus_definition := nd_definition focus_concept;
                     focus_file_path := nd_file_path focus_concept;
                     focus_content :=
                       if include_content
                       then Some (nd_content focus_concept) else None |}
                  (direct st) (transitive st)
                  (if include_content then Some (notes st) else None))
      | None => None
      end
  | _ => Some (ExpandError (not_found concept_id))
  end.

Record SearchHit := {
  hit_id : string;
  hit_uri : string;
  hit_prefLabel : string;
  hit_definition : option string;
  hit_file_path : string
}.

Record SearchResult := {
  sr_query : string;
  sr_count : nat;
  sr_results : list SearchHit
}.

Definition search_concepts (g : NX.DiGraph) (query : string) (limit : Z)
  : SearchResult :=
  let matching_ids := Indexer.search_by_text g query limit in
  let results :=
    flat_map (fun concept_id =>
                match get_concept g concept_id with
                | Some (Some concept) =>
                    [{| hit_id := concept_id;
                        hit_uri := nd_uri concept;
                        hit_prefLabel := nd_prefLabel concept;
                        hit_definition := nd_definition concept;
                        hit_file_path := nd_file_path concept |}]
                | _ => []
                end) matching_ids in
  {| sr_query := query; sr_count := length results; sr_results := results |}.

Record PathStep := {
  step_id : string;
  step_prefLabel : string
}.

(** The three shapes of the dictionary [get_concept_path] returns: an
    [error] entry, a [path] that is [None] with a message, or the path. *)
Inductive PathResult :=
| PathError (error : string)
| NoPath (from_concept to_concept : string) (message : string)
| PathFound (from_concept to_concept : string) (length : Z)
            (path : list PathStep).

Definition path_concepts (g : NX.DiGraph) (path : list string)
  : list PathStep :=
  flat_map (fun concept_id =>
              match get_concept g concept_id with
              | Some (Some concept) =>
                  [{| step_id := concept_id;
                      step_prefLabel := nd_prefLabel concept |}]
              | _ => []
              end) path.

Definition get_concept_path (g : NX.DiGraph) (from_concept to_concept : string)
  : PathResult :=
  if negb (NX.has_node g from_concept)
  then PathError (not_found from_concept)
  else if negb (NX.has_node g to_concept)
  then PathError (not_found to_concept)
  else
    match NX.shortest_path g from_concept to_concept with
    | Some path =>
        PathFound from_concept to_concept
                  (Z.of_nat (length path) - 1)%Z
                  (path_concepts g path)
    | None =>
        NoPath from_concept to_concept "No path found between concepts"
    end.

Record Statistics := {
  total_concepts : nat;
  total_relations : nat
}.

Definition get_statistics (g : NX.DiGraph) : Statistics :=
  {| total_concepts := NX.number_of_nodes g;
     total_relations := NX.number_of_edges g |}.

End Query.

(** ** Input validation ([security/validation.py])

    The limits are read from [settings.security]; they are an argument
    here.  A [ValueError] is [NX.Raises] with its message. *)
Module Validation.

Record SecuritySettings := {
  max_query_length : Z;
  max_context_depth : Z;
  max_results_per_query : Z;
  max_concept_content_length : Z
}.

(** The defaults of [config.py]. *)
Definition default_settings : SecuritySettings :=
  {| max_query_length := 1000;
     max_context_depth := 3;
     max_results_per_query := 100;
     max_concept_content_length := 50000 |}.

Definition validate_depth (settings : SecuritySettings) (depth : Z)
  : NX.outcome Z :=
  if (depth <? 0)%Z then NX.Raises "Depth must be non-negative"
  else if (depth >? max_context_depth settings)%Z
       then NX.Returns (max_context_depth settings)
       else NX.Returns depth.

Definition validate_limit (settings : SecuritySettings) (limit : Z)
  : NX.outcome Z :=
  if (limit <? 1)%Z then NX.Raises "Limit must be positive"
  else if (limit >? max_results_per_query settings)%Z
       then NX.Returns (max_results_per_query settings)
       else NX.Returns limit.

(** [s[:limit]] for a string; a negative [limit] counts from the end. *)
Definition string_slice_to (limit : Z) (s : string) : string :=
  if (0 <=? limit)%Z then String.substring 0 (Z.to_nat limit) s
  else String.substring 0 (String.length s - Z.to_nat (- limit)) s.

Definition newline : ascii := ascii_of_nat 10.

Definition truncation_mark : string :=
  String newline "[... content truncated ...]".

Definition truncate_content (settings : SecuritySettings) (content : string)
  : string :=
  let max_length := max_concept_content_length settings in
  if (Z.of_nat (String.length content) >? max_length)%Z
  then string_slice_to max_length content ++ truncation_mark
  else content.

(** The path traversal patterns are literal texts, searched without regard
    to letter case. *)
Definition path_traversal_texts : list string :=
  ["../"; ".."; "~/"; "/etc/"; "/proc/"].

(** A character of the class [[a-zA-Z0-9_-]]. *)
Definition id_char (c : ascii) : bool :=
  let n := nat_of_ascii c in
  ((97 <=? n) && (n <=? 122) || (65 <=? n) && (n <=? 90) ||
   (48 <=? n) && (n <=? 57) || (n =? 95) || (n =? 45))%nat.

(** [re.match(r"^[a-zA-Z0-9_-]+$", s)]: one or more characters of the
    class up to the end of the text, where [$] also matches just before a
    newline that ends the text. *)
Fixpoint matches_id (s : string) : bool :=
  match s with
  | EmptyString => false
  | String c rest =>
      id_char c &&
      match rest with
      | EmptyString => true
      | String c' EmptyString =>
          Ascii.eqb c' newline || matches_id rest
      | _ => matches_id rest
      end
  end.

Definition sanitize_concept_id (concept_id : string) : NX.outcome string :=
  if existsb (fun text => contains text (lower concept_id))
             path_traversal_texts
  then NX.Raises "Invalid concept ID"
  else if negb (matches_id concept_id)
       then NX.Raises "Concept ID contains invalid characters"
       else NX.Returns (lower concept_id).

End Validation.

(** ** Concept ids ([extraction/skos_extractor.py]) *)
Module Extractor.

(** [s.replace(old, new)] for one-character texts. *)
Fixpoint replace_char (old new : ascii) (s : string) : string :=
  match s with
  | EmptyString => EmptyString
  | String c s' =>
      String (if Ascii.eqb c old then new else c) (replace_char old new s')
  end.

Definition _wikilink_to_concept_id (wikilink : string) : string :=
  replace_char "-" "_" (replace_char " " "_" (lower wikilink)).

(** [_generate_concept_id], from the stem of the file path. *)
Definition _generate_concept_id (stem : string) : string :=
  replace_char "-" "_" (replace_char " " "_" (lower stem)).

End Extractor.

(** ** Frontmatter keys ([extraction/parser.py]) *)
Module Parser.

Definition skos_prefix : string := "skos:".

(** [key[5:]] *)
Definition drop5 (key : string) : string :=
  String.substring 5 (String.length key - 5) key.

Definition normalized_key (key : string) : string :=
  if String.prefix skos_prefix key then drop5 key else key.

(** [_normalize_skos_keys] on a dictionary in insertion order. *)
Definition _normalize_skos_keys {A : Type} (metadata : list (string * A))
  : list (string * A) :=
  fold_left (fun normalized kv =>
               assoc_set (normalized_key (fst kv)) (snd kv) normalized)
            metadata [].

End Parser.

(** * Vocabulary of the statements *)

(** ** What the relation loops leave on an ordered pair

    [prev] is the relation type the pair [u -> v] had before the loop (if
    any) and [hn] tells which ids are nodes; the result is what the pair has
    after the loop has run for concept [cid]. *)
Section AfterLoops.

Variables (cid : string) (hn : string -> bool) (u v : string).

Definition after_broader (ids : list string) (prev : option string)
  : option string :=
  if String.eqb v cid && mem u ids && hn u then Some "narrower"
  else if String.eqb u cid && mem v ids && hn v then Some "broader"
  else prev.

Definition after_narrower (ids : list string) (prev : option string)
  : option string :=
  match prev with
  | Some r => Some r
  | None =>
      if String.eqb u cid && mem v ids && hn v then Some "narrower"
      else if String.eqb v cid && mem u ids && hn u then Some "broader"
      else None
  end.

Definition after_related (ids : list string) (prev : option string)
  : option string :=
  if String.eqb v cid && mem u ids && hn u then Some "related"
  else if String.eqb u cid && mem v ids && hn v then Some "related"
  else prev.

Definition after_prerequisite (ids : list string) (prev : option string)
  : option string :=
  if String.eqb u cid && mem v ids && hn v then Some "prerequisite"
  else prev.

End AfterLoops.

Definition after_relations (c : SKOSConcept) (hn : string -> bool)
    (u v : string) (prev : option string) : option string :=
  let cid := concept_id c in
  after_prerequisite cid hn u v (prerequisite c)
    (after_related cid hn u v (related c)
       (after_narrower cid hn u v (narrower c)
          (after_broader cid hn u v (broader c) prev))).

(** ** Graphs as [networkx] keeps them *)

Fixpoint nodupb (l : list string) : bool :=
  match l with
  | [] => true
  | x :: l' => negb (mem x l') && nodupb l'
  end.

(** Node ids are dictionary keys, so are the targets of one node, and an
    edge only joins nodes. *)
Definition well_formed (g : NX.DiGraph) : bool :=
  nodupb (NX.nodes g) &&
  forallb (fun x =>
             nodupb (map fst (NX.node_succ x)) &&
             forallb (fun vr => NX.has_node g (fst vr)) (NX.node_succ x)) g.

(** A well formed graph all of whose nodes carry a concept's attributes, as
    every node the builder inserts does. *)
Definition concept_graph (g : NX.DiGraph) : bool :=
  well_formed g &&
  forallb (fun x => match NX.node_attrs x with
                    | Some _ => true
                    | None => false
                    end) g.

(** Every edge ends in a node. *)
Definition edges_join_nodes (g : NX.DiGraph) : Prop :=
  forall u v r, NX.edge_rel g u v = Some r -> NX.has_node g v = true.

(** The graph on which [update_concept] runs its relation loops. *)
Definition cleared (g : NX.DiGraph) (c : SKOSConcept) : NX.DiGraph :=
  Builder._add_concept_node
    (if NX.has_node g (concept_id c)
     then NX.remove_edges_from g (NX.in_edges g (concept_id c) ++
                                  NX.out_edges g (concept_id c))
     else g) c.

(** [concept_graph], spelled out. *)
Definition concept_graph_inv (g : NX.DiGraph) : Prop :=
  NoDup (NX.nodes g) /\
  forall x, In x g ->
            NoDup (map fst (NX.node_succ x)) /\
            (forall k, In k (map fst (NX.node_succ x)) ->
                       NX.has_node g k = true) /\
            NX.node_attrs x <> None.

(** ** Relation declarations and the edges they stand for *)

(** The pair of inverse edges a [broader] declaration of [b] by [a] asks for. *)
Definition broader_pair (g : NX.DiGraph) (a b : string) : Prop :=
  NX.edge_rel g a b = Some "broader" /\ NX.edge_rel g b a = Some "narrower".

(** Every [broader] declaration with an existing target is in the graph
    built from [concepts]. *)
Definition broader_declarations_hold (concepts : list SKOSConcept) : Prop :=
  forall A B,
    In A concepts -> In B (broader A) ->
    NX.has_node (Builder.build_graph NX.empty concepts) B = true ->
    broader_pair (Builder.build_graph NX.empty concepts) (concept_id A) B.

(** Record [R] declares nothing that rewrites the edges [a -> b] or
    [b -> a] of a [broader] declaration of [b] by [a]: as [a] it does not
    list [b] under [related] or [prerequisite], and as [b] it does not list
    [a] under [broader], [related] or [prerequisite]. *)
Definition pair_untouched (R : SKOSConcept) (a b : string) : Prop :=
  (concept_id R = a -> ~ In b (related R) /\ ~ In b (prerequisite R)) /\
  (concept_id R = b ->
   ~ In a (broader R) /\ ~ In a (related R) /\ ~ In a (prerequisite R)).

(** All the ids a record refers to. *)
Definition references (c : SKOSConcept) : list string :=
  broader c ++ narrower c ++ related c ++ prerequisite c.

(** The edge set the data model's invariants derive from the relation lists
    of [c], read one declaration at a time. *)
Definition declared_edge (c : SKOSConcept) (hn : string -> bool)
    (u v r : string) : Prop :=
  let x := concept_id c in
  (u = x /\ In v (broader c) /\ hn v = true /\ r = "broader") \/
  (v = x /\ In u (broader c) /\ hn u = true /\ r = "narrower") \/
  (u = x /\ In v (narrower c) /\ hn v = true /\ r = "narrower") \/
  (v = x /\ In u (narrower c) /\ hn u = true /\ r = "broader") \/
  (u = x /\ In v (related c) /\ hn v = true /\ r = "related") \/
  (v = x /\ In u (related c) /\ hn u = true /\ r = "related") \/
  (u = x /\ In v (prerequisite c) /\ hn v = true /\ r = "prerequisite").

(** The upsert contract as the specification words it. *)
Definition upsert_as_declared (g : NX.DiGraph) (c : SKOSConcept) : Prop :=
  let g' := Builder.update_concept g c in
  let x := concept_id c in
  Builder.get_concept g' x = Some (Some (to_dict c)) /\
  (forall u v r, u = x \/ v = x ->
                 (NX.edge_rel g' u v = Some r <->
                  declared_edge c (NX.has_node g') u v r)) /\
  (forall u v, u <> x -> v <> x -> NX.edge_rel g' u v = NX.edge_rel g u v).

(** What an upsert of [c] leaves on the pairs around [x = concept_id c]:
    there is one edge per ordered pair, so among several declarations of
    the same target the last loop that writes the pair decides, and the
    [narrower] loop writes only where there is no edge yet. *)
Definition upsert_out (c : SKOSConcept) (hn : string -> bool) (y : string)
  : option string :=
  if negb (hn y) then None
  else if mem y (prerequisite c) then Some "prerequisite"
  else if mem y (related c) then Some "related"
  else if mem y (broader c) then Some "broader"
  else if mem y (narrower c) then Some "narrower"
  else None.

Definition upsert_in (c : SKOSConcept) (hn : string -> bool) (y : string)
  : option string :=
  if negb (hn y) then None
  else if mem y (related c) then Some "related"
  else if mem y (broader c) then Some "narrower"
  else if mem y (narrower c) then Some "broader"
  else None.

Definition upsert_loop (c : SKOSConcept) : option string :=
  let x := concept_id c in
  if mem x (prerequisite c) then Some "prerequisite"
  else if mem x (related c) then Some "related"
  else if mem x (broader c) || mem x (narrower c) then Some "narrower"
  else None.

(** A concept that only has an id, a label and relation lists. *)
Definition concept (id label : string) (b n r p : list string) : SKOSConcept :=
  {| concept_id := id; uri := ""; pref_label := label; alt_labels := [];
     definition := None; notation := None; in_scheme := None;
     broader := b; narrower := n; related := r;
     schema_type := None; about := []; teaches := [];
     educational_level := None; learning_resource_type := None;
     course := []; lecture_week := None; prerequisite := p;
     file_path := ""; content := "" |}.

(** ** Reading the relation index *)

Definition relation_type_names : list string :=
  ["broader"; "narrower"; "related"; "prerequisite"].

(** A relation type name the index knows. *)
Definition well_named (relation_type : string) : bool :=
  mem relation_type relation_type_names.

Definition has_key {A : Type} (k : string) (d : list (string * A)) : bool :=
  match assoc k d with Some _ => true | None => false end.

Definition index_lookup (idx : Indexer.RelationIndex) (rt src : string)
  : list string :=
  match assoc rt idx with
  | None => []
  | Some by_source =>
      match assoc src by_source with
      | Some l => l
      | None => []
      end
  end.

(** Edge [e] lands in the list [idx[rt][src]]. *)
Definition indexed_under (idx : Indexer.RelationIndex) (rt src : string)
    (e : string * string * string) : bool :=
  has_key (snd e) idx && String.eqb rt (snd e) && String.eqb src (fst (fst e)).

(** ** Reading the result of a context expansion *)

(** The concept ids in all the lists of a relations dictionary, and in the
    list under one relation type. *)
Definition listed (d : list (string * list Query.Summary)) : list string :=
  flat_map (fun kv => map Query.sum_id (snd kv)) d.

Definition listed_under (rt : string) (d : list (string * list Query.Summary))
  : list string :=
  match assoc rt d with
  | Some l => map Query.sum_id l
  | None => []
  end.

(** Everything the traversal has recorded so far. *)
Definition recorded (st : Query.Traversal) : list string :=
  listed (Query.direct st) ++ listed (Query.transitive st).

(** The ids of [universe] the traversal has not visited. *)
Definition unvisited (seen universe : list string) : list string :=
  filter (fun y => negb (mem y seen)) universe.

(** The rounds the loop may still need: one per queued entry and at most
    one per id of the index that is not visited yet. *)
Definition rounds_left (ix : Indexer.Indexes) (st : Query.Traversal) : nat :=
  length (Query.queue st) +
  length (unvisited (Query.visited st) (Query.index_targets ix)).

(** The focus is visited and never recorded; nothing is recorded twice. *)
Definition recorded_once (x : string) (st : Query.Traversal) : Prop :=
  NoDup (recorded st) /\
  incl (recorded st) (Query.visited st) /\
  In x (Query.visited st) /\
  ~ In x (recorded st).

(** The state in which the loop of [expand_context] starts. *)
Definition start (rts : list string) (x : string) : Query.Traversal :=
  {| Query.visited := [x];
     Query.direct := Query.empty_lists rts;
     Query.transitive := Query.empty_lists rts;
     Query.notes := [];
     Query.queue := [(x, 0%Z, None)] |}.

(** What holds while the successors of the focus [x] are being visited, on
    the index built from [g]; [T0] is the transitive dictionary. *)
Definition first_round (g : NX.DiGraph) (rts : list string) (x : string)
    (T0 : list (string * list Query.Summary)) (st : Query.Traversal) : Prop :=
  In x (Query.visited st) /\
  (forall rt, In rt rts -> has_key rt (Query.direct st) = true) /\
  (forall rt y, In y (listed_under rt (Query.direct st)) ->
                In rt rts /\
                In y (Indexer.get_related_concepts (Indexer._build_indexes g)
                                                   x rt) /\
                y <> x) /\
  (forall y, In y (Query.visited st) ->
             y = x \/ exists rt, In y (listed_under rt (Query.direct st))) /\
  Query.transitive st = T0 /\
  Forall (fun q => (1 <= snd (fst q))%Z) (Query.queue st).

(** The depth-one contract as the specification words it: the direct
    relations under each configured type are the successors the index
    gives, and nothing is transitive. *)
Definition direct_is_successor_set (g : NX.DiGraph) (x : string)
    (rts : list string) : Prop :=
  forall focus dr tr notes,
    Query.expand_context g (Indexer._build_indexes g) x (Some rts) 1 false =
    Some (Query.ExpandOk focus dr tr notes) ->
    (forall rt y,
        In rt rts ->
        (In y (listed_under rt dr) <->
         In y (Indexer.get_related_concepts (Indexer._build_indexes g) x rt)))
    /\ listed tr = [].

(** A malformed relation type name or a negative depth is answered with
    an error result. *)
Definition invalid_argument_reported (g : NX.DiGraph) (ix : Indexer.Indexes)
    (x : string) (rts : list string) (max_depth : Z) (include_content : bool)
  : Prop :=
  (max_depth < 0)%Z \/ (exists rt, In rt rts /\ well_named rt = false) ->
  exists error,
    Query.expand_context g ix x (Some rts) max_depth include_content =
    Some (Query.ExpandError error).

(** ** Paths in the undirected projection *)

(** Consecutive nodes of [p] are adjacent. *)
Fixpoint linked (g : NX.DiGraph) (p : list string) : Prop :=
  match p with
  | u :: (v :: _) as p' => NX.adjacent g u v = true /\ linked g p'
  | _ => True
  end.

(** [p] is the node list of a path from [a] to [b]. *)
Definition walk (g : NX.DiGraph) (a b : string) (p : list string) : Prop :=
  hd_error p = Some a /\ last p a = b /\ linked g p.

(** [a] and [b] are in one component of the undirected projection. *)
Inductive connected (g : NX.DiGraph) : string -> string -> Prop :=
| connected_here (u : string) : connected g u u
| connected_step (u v w : string) :
    NX.adjacent g u v = true -> connected g v w -> connected g u w.

(** Every queued (reversed) path starts at [s] and follows edges. *)
Definition paths_from (g : NX.DiGraph) (s : string)
    (queue : list (list string)) : Prop :=
  forall q, In q queue -> hd_error (rev q) = Some s /\ linked g (rev q).

(** Every node already reached either waits in the queue or has been
    expanded: it was not the target and all its neighbours are reached. *)
Definition frontier_closed (g : NX.DiGraph) (t : string)
    (unseen : list string) (queue : list (list string)) : Prop :=
  forall w, In w (NX.nodes g) -> ~ In w unseen ->
            (exists q, In q queue /\ hd_error q = Some w) \/
            (w <> t /\ forall n, NX.adjacent g w n = true -> ~ In n unseen).

(** ** Text search *)

(** The number of alternative labels that contain the query. *)
Definition alt_hits (query_lower : string) (alts : list string) : nat :=
  length (filter (fun alt_label => contains query_lower (lower alt_label)) alts).

(** The score as a sum of its four parts; its last part counts a definition
    only when it is not empty. *)
Definition text_score (query_lower : string) (d : option NodeData) : Z :=
  let pref_label := lower (Indexer.attr_prefLabel d) in
  ((if contains query_lower pref_label then 10 else 0) +
   (if String.eqb pref_label query_lower then 20 else 0) +
   5 * Z.of_nat (alt_hits query_lower (Indexer.attr_altLabel d)) +
   match Indexer.attr_definition d with
   | Some definition =>
       if Indexer.nonempty definition &&
          contains query_lower (lower definition) then 3 else 0
   | None => 0
   end)%Z.

(** The score as the specification words it: three points whenever the
    definition contains the query. *)
Definition claimed_score (query_lower : string) (d : option NodeData) : Z :=
  let pref_label := lower (Indexer.attr_prefLabel d) in
  ((if contains query_lower pref_label then 10 else 0) +
   (if String.eqb pref_label query_lower then 20 else 0) +
   5 * Z.of_nat (alt_hits query_lower (Indexer.attr_altLabel d)) +
   match Indexer.attr_definition d with
   | Some definition =>
       if contains query_lower (lower definition) then 3 else 0
   | None => 0
   end)%Z.

(** The nodes with a positive score, in node order, for a given scoring. *)
Definition scored (score : string -> option NodeData -> Z) (g : NX.DiGraph)
    (query : string) : list (string * Z) :=
  flat_map (fun x =>
              let sc := score (lower query) (NX.node_attrs x) in
              if (0 <? sc)%Z then [(NX.node_id x, sc)] else [])
           g.

(** The search the specification describes, with its scoring. *)
Definition claimed_search (g : NX.DiGraph) (query : string) (limit : nat)
  : list string :=
  map fst (firstn limit (Indexer.sort_desc (scored claimed_score g query))).

(** [a] may stand before [b] in a ranking. *)
Definition ranks_before (a b : string * Z) : Prop := (snd b <= snd a)%Z.

(** The entries of a ranking that have score [k], in their order. *)
Definition with_score (k : Z) (l : list (string * Z)) : list (string * Z) :=
  filter (fun e => (snd e =? k)%Z) l.

(** The search contract as the specification words it, for a limit that
    is a count. *)
Definition search_as_claimed (g : NX.DiGraph) (query : string) (limit : nat)
  : Prop :=
  Indexer.search_by_text g query (Z.of_nat limit) = claimed_search g query limit.

(** A concept with a definition. *)
Definition defined_concept (id label definition : string) : SKOSConcept :=
  {| concept_id := id; uri := ""; pref_label := label; alt_labels := [];
     definition := Some definition; notation := None; in_scheme := None;
     broader := []; narrower := []; related := [];
     schema_type := None; about := []; teaches := [];
     educational_level := None; learning_resource_type := None;
     course := []; lecture_week := None; prerequisite := [];
     file_path := ""; content := "" |}.

(** ** What a context expansion may list *)

(** [s] summarises a concept of the graph. *)
Definition summary_of (g : NX.DiGraph) (s : Query.Summary) : Prop :=
  exists d, Query.get_concept g (Query.sum_id s) = Some (Some d) /\
            Query.sum_prefLabel s = nd_prefLabel d /\
            Query.sum_definition s = nd_definition d.

Definition summaries_of (g : NX.DiGraph)
    (d : list (string * list Query.Summary)) : Prop :=
  forall k l s, In (k, l) d -> In s l -> summary_of g s.

(** [n] is the context note of a concept of the graph. *)
Definition note_of (g : NX.DiGraph) (n : Query.ContextNote) : Prop :=
  exists d, Query.get_concept g (Query.note_id n) = Some (Some d) /\
            Query.note_label n = nd_prefLabel d /\
            Query.note_content n = nd_content d /\
            Query.note_file_path n = nd_file_path d.

(** Summaries and notes of a traversal are made from nodes of the graph. *)
Definition from_the_graph (g : NX.DiGraph) (st : Query.Traversal) : Prop :=
  summaries_of g (Query.direct st) /\ summaries_of g (Query.transitive st) /\
  Forall (note_of g) (Query.notes st).

(** The dictionaries of a traversal have a list for each of the relation
    types [rts], and there is one context note per recorded concept. *)
Definition noted (rts : list string) (st : Query.Traversal) : Prop :=
  (forall rt, In rt rts -> has_key rt (Query.direct st) = true /\
                           has_key rt (Query.transitive st) = true) /\
  Permutation (map Query.note_id (Query.notes st)) (recorded st).

(** [y] is reached from [x] in [k] steps along lists of the relation index
    under the relation types [rts]. *)
Inductive hops (ix : Indexer.Indexes) (rts : list string) (x : string)
  : nat -> string -> Prop :=
| hops_here : hops ix rts x 0 x
| hops_step (k : nat) (y z rt : string) :
    hops ix rts x k y -> In rt rts ->
    In z (Indexer.get_related_concepts ix y rt) ->
    hops ix rts x (S k) z.

(** What is queued or recorded while the neighbourhood of [x] is expanded to
    depth [max_depth]: a queued entry carries its distance from [x] in index
    steps, a direct entry is one step away, a transitive entry between two
    and [max_depth] steps. *)
Definition within_depth (ix : Indexer.Indexes) (rts : list string)
    (x : string) (max_depth : Z) (st : Query.Traversal) : Prop :=
  (forall cur depth from, In (cur, depth, from) (Query.queue st) ->
      exists k, Z.of_nat k = depth /\ hops ix rts x k cur) /\
  (forall y, In y (listed (Query.direct st)) ->
      (1 <= max_depth)%Z /\ hops ix rts x 1 y) /\
  (forall y, In y (listed (Query.transitive st)) ->
      exists k, 2 <= k /\ (Z.of_nat k <= max_depth)%Z /\ hops ix rts x k y).

(** The two dictionaries of a traversal have a list under exactly the
    relation types [rts]. *)
Definition keyed_by (rts : list string) (st : Query.Traversal) : Prop :=
  forall k, has_key k (Query.direct st) = mem k rts /\
            has_key k (Query.transitive st) = mem k rts.

(** The relation types [expand_context] works with. *)
Definition relation_types_of (relation_types : option (list string))
  : list string :=
  match relation_types with
  | Some l => l
  | None => Query.default_relation_types
  end.

(** ** Texts and their characters *)

(** Every character of [s] satisfies [p]. *)
Fixpoint string_forall (p : ascii -> bool) (s : string) : bool :=
  match s with
  | EmptyString => true
  | String c s' => p c && string_forall p s'
  end.

(** A text of one or more characters of the class [[a-zA-Z0-9_-]]. *)
Definition id_text (body : string) : Prop :=
  body <> EmptyString /\ string_forall Validation.id_char body = true.

(** The text that is one newline. *)
Definition final_newline : string := String Validation.newline EmptyString.

(** A character of a note title that the concept id keeps or replaces by an
    underscore: of the class [[a-zA-Z0-9_-]], or a space. *)
Definition title_char (c : ascii) : bool :=
  Validation.id_char c || Ascii.eqb c " ".

(** Neither a space, nor a hyphen, nor an ASCII capital. *)
Definition id_shaped (c : ascii) : bool :=
  negb (Ascii.eqb c " ") && negb (Ascii.eqb c "-") &&
  negb ((65 <=? nat_of_ascii c) && (nat_of_ascii c <=? 90))%nat.

(** What the concept id has in the place of the character [c] of a title. *)
Definition id_of_char (c : ascii) : ascii :=
  let l := lower_ascii c in
  let u := if Ascii.eqb l " " then "_"%char else l in
  if Ascii.eqb u "-" then "_"%char else u.

(** A character of the ASCII range, on which [lower] is [str.lower]. *)
Definition ascii_range (c : ascii) : bool := (nat_of_ascii c <? 128)%nat.

(** The entry of a frontmatter dictionary that decides the value under the
    normalized key [k]: the last one whose key normalizes to [k]. *)
Definition deciding_entry {A : Type} (k : string)
    (metadata : list (string * A)) : option (string * A) :=
  find (fun kv => String.eqb (Parser.normalized_key (fst kv)) k)
       (rev metadata).

(** * Properties *)

(** ** Dictionaries *)

Ltac eqb_cases :=
  repeat match goal with
         | |- context [String.eqb ?a ?b] =>
             destruct (String.eqb_spec a b); subst
         | H : context [String.eqb ?a ?b] |- _ =>
             destruct (String.eqb_spec a b); subst
         end.

Lemma mem_In (x : string) (l : list string) : mem x l = true <-> In x l.
Proof.
  unfold mem. rewrite existsb_exists. split.
  - intros [y [Hy He]]. apply String.eqb_eq in He. now subst.
  - intros H. exists x. split; [assumption | apply String.eqb_refl].
Qed.

Lemma mem_cons (x y : string) (l : list string) :
  mem x (y :: l) = String.eqb x y || mem x l.
Proof. reflexivity. Qed.

Lemma mem_false_In (x : string) (l : list string) :
  mem x l = false <-> ~ In x l.
Proof.
  rewrite <- mem_In. destruct (mem x l); split; congruence.
Qed.

Lemma assoc_assoc_set {A : Type} (k k' : string) (v : A) (d : list (string * A)) :
  assoc k' (assoc_set k v d) = if String.eqb k' k then Some v else assoc k' d.
Proof.
  induction d as [| [k0 v0] d IH]; simpl.
  - destruct (String.eqb k' k); reflexivity.
  - destruct (String.eqb_spec k k0) as [-> | Hk]; simpl.
    + destruct (String.eqb k' k0); reflexivity.
    + rewrite IH. destruct (String.eqb_spec k' k0) as [-> | Hk'].
      * destruct (String.eqb_spec k0 k); [congruence | reflexivity].
      * reflexivity.
Qed.

Lemma assoc_assoc_del {A : Type} (k k' : string) (d : list (string * A)) :
  assoc k' (assoc_del k d) = if String.eqb k' k then None else assoc k' d.
Proof.
  unfold assoc_del. induction d as [| [k0 v0] d IH]; simpl.
  - destruct (String.eqb k' k); reflexivity.
  - destruct (String.eqb_spec k k0) as [-> | Hk]; simpl.
    + rewrite IH. destruct (String.eqb_spec k' k0); reflexivity.
    + rewrite IH. destruct (String.eqb_spec k' k0) as [-> | Hk'].
      * destruct (String.eqb_spec k0 k); [congruence | reflexivity].
      * reflexivity.
Qed.

Lemma assoc_In {A : Type} (k : string) (v : A) (d : list (string * A)) :
  assoc k d = Some v -> In (k, v) d.
Proof.
  induction d as [| [k0 v0] d IH]; simpl; [discriminate |].
  destruct (String.eqb_spec k k0) as [-> | Hk].
  - intros [= ->]. now left.
  - intros H. right. auto.
Qed.

Lemma assoc_None_keys {A : Type} (k : string) (d : list (string * A)) :
  assoc k d = None <-> ~ In k (map fst d).
Proof.
  induction d as [| [k0 v0] d IH]; simpl.
  - tauto.
  - destruct (String.eqb_spec k k0) as [-> | Hk].
    + split; [discriminate | intros H; exfalso; apply H; now left].
    + rewrite IH. split.
      * intros H [E | E]; [congruence | tauto].
      * tauto.
Qed.

Lemma keys_assoc_set {A : Type} (k : string) (v : A) (d : list (string * A)) :
  map fst (assoc_set k v d) =
  if mem k (map fst d) then map fst d else map fst d ++ [k].
Proof.
  induction d as [| [k0 v0] d IH]; simpl; [reflexivity |].
  destruct (String.eqb_spec k k0) as [-> | Hk]; simpl; [reflexivity |].
  rewrite IH. unfold mem. destruct (existsb (String.eqb k) (map fst d)); reflexivity.
Qed.

(** ** The graph operations, seen through node and edge lookups *)

Section GraphLookups.

Import NX.

Lemma find_node_id (g : DiGraph) (n : string) (x : Node) :
  find_node g n = Some x -> node_id x = n /\ In x g.
Proof.
  induction g as [| y g IH]; simpl; [discriminate |].
  destruct (String.eqb_spec n (node_id y)) as [-> | Hn].
  - intros [= ->]. split; [reflexivity | now left].
  - intros H. destruct (IH H). split; [assumption | now right].
Qed.

Lemma has_node_In (g : DiGraph) (n : string) :
  has_node g n = true <-> In n (nodes g).
Proof.
  unfold has_node, nodes. induction g as [| y g IH]; simpl.
  - split; [discriminate | tauto].
  - destruct (String.eqb_spec n (node_id y)) as [-> | Hn].
    + split; [now left | reflexivity].
    + rewrite IH. split; [now right | intros [E | E]; [congruence | assumption]].
Qed.

Lemma find_node_app (g : DiGraph) (x : Node) (n : string) :
  find_node (g ++ [x]) n =
  match find_node g n with
  | Some y => Some y
  | None => if String.eqb n (node_id x) then Some x else None
  end.
Proof.
  induction g as [| y g IH]; simpl; [reflexivity |].
  destruct (String.eqb n (node_id y)); [reflexivity | apply IH].
Qed.

Lemma find_node_alter (f : Node -> Node) (n m : string) (g : DiGraph) :
  (forall x, node_id (f x) = node_id x) ->
  find_node (alter_node f n g) m =
  match find_node g m with
  | Some x => Some (if String.eqb n m then f x else x)
  | None => None
  end.
Proof.
  intros Hf. unfold alter_node. induction g as [| y g IH]; simpl; [reflexivity |].
  destruct (String.eqb_spec n (node_id y)) as [-> | Hn].
  - rewrite Hf. destruct (String.eqb_spec m (node_id y)) as [-> | Hm].
    + now rewrite String.eqb_refl.
    + apply IH.
  - destruct (String.eqb_spec m (node_id y)) as [-> | Hm].
    + destruct (String.eqb_spec n (node_id y)); [congruence | reflexivity].
    + apply IH.
Qed.

Lemma has_node_ensure (g : DiGraph) (n m : string) :
  has_node (ensure_node g n) m = has_node g m || String.eqb m n.
Proof.
  unfold ensure_node. destruct (has_node g n) eqn:Hn.
  - destruct (String.eqb_spec m n) as [-> | Hm].
    + rewrite Hn. reflexivity.
    + now rewrite orb_false_r.
  - unfold has_node in *. rewrite find_node_app. simpl.
    destruct (find_node g m); [reflexivity |].
    destruct (String.eqb m n); reflexivity.
Qed.

Lemma find_node_ensure_old (g : DiGraph) (n m : string) :
  has_node g m = true -> find_node (ensure_node g n) m = find_node g m.
Proof.
  unfold ensure_node, has_node. intros Hm.
  destruct (find_node g n); [reflexivity |].
  rewrite find_node_app. destruct (find_node g m); [reflexivity | discriminate].
Qed.

Lemma edge_rel_ensure (g : DiGraph) (n u v : string) :
  edge_rel (ensure_node g n) u v = edge_rel g u v.
Proof.
  unfold ensure_node, edge_rel. destruct (has_node g n); [reflexivity |].
  rewrite find_node_app. destruct (find_node g u); [reflexivity |].
  simpl. destruct (String.eqb u n); reflexivity.
Qed.

Lemma edge_rel_add_edge (g : DiGraph) (u v r u' v' : string) :
  edge_rel (add_edge g u v r) u' v' =
  if String.eqb u' u && String.eqb v' v then Some r else edge_rel g u' v'.
Proof.
  unfold add_edge.
  assert (Hu : has_node (ensure_node (ensure_node g u) v) u = true).
  { rewrite !has_node_ensure, String.eqb_refl. now rewrite orb_true_r. }
  unfold edge_rel at 1. rewrite find_node_alter by reflexivity.
  destruct (String.eqb_spec u' u) as [-> | Hu']; simpl.
  - unfold has_node in Hu.
    destruct (find_node (ensure_node (ensure_node g u) v) u) as [x |] eqn:Hx;
      [| discriminate].
    rewrite String.eqb_refl. simpl. rewrite assoc_assoc_set.
    destruct (String.eqb v' v); [reflexivity |].
    rewrite <- (edge_rel_ensure g u u v'), <- (edge_rel_ensure _ v u v').
    unfold edge_rel. now rewrite Hx.
  - rewrite <- (edge_rel_ensure g u u' v'), <- (edge_rel_ensure _ v u' v').
    unfold edge_rel.
    destruct (find_node (ensure_node (ensure_node g u) v) u') as [x |];
      [| reflexivity].
    destruct (String.eqb_spec u u'); [congruence | reflexivity].
Qed.

Lemma has_node_alter (f : Node -> Node) (n m : string) (g : DiGraph) :
  (forall x, node_id (f x) = node_id x) ->
  has_node (alter_node f n g) m = has_node g m.
Proof.
  intros Hf. unfold has_node. rewrite find_node_alter by assumption.
  destruct (find_node g m); reflexivity.
Qed.

Lemma has_node_add_edge (g : DiGraph) (u v r m : string) :
  has_node (add_edge g u v r) m =
  has_node g m || String.eqb m u || String.eqb m v.
Proof.
  unfold add_edge. rewrite has_node_alter by reflexivity.
  now rewrite !has_node_ensure.
Qed.

Lemma has_node_add_edge_old (g : DiGraph) (u v r m : string) :
  has_node g u = true -> has_node g v = true ->
  has_node (add_edge g u v r) m = has_node g m.
Proof.
  intros Hu Hv. rewrite has_node_add_edge.
  destruct (String.eqb_spec m u) as [Eu | Eu];
    destruct (String.eqb_spec m v) as [Ev | Ev];
    subst; rewrite ?Hu, ?Hv; simpl; rewrite ?orb_false_r; reflexivity.
Qed.

Lemma attrs_add_edge (g : DiGraph) (u v r m : string) :
  has_node g u = true -> has_node g v = true ->
  Builder.get_concept (add_edge g u v r) m = Builder.get_concept g m.
Proof.
  intros Hu Hv. unfold Builder.get_concept, add_edge.
  rewrite find_node_alter by reflexivity.
  unfold ensure_node. rewrite Hu. rewrite Hv.
  destruct (find_node g m) as [x |]; [| reflexivity].
  destruct (String.eqb u m); reflexivity.
Qed.

Lemma has_node_add_node (g : DiGraph) (n m : string) (d : NodeData) :
  has_node (add_node g n d) m = has_node g m || String.eqb m n.
Proof.
  unfold add_node. destruct (has_node g n) eqn:Hn.
  - rewrite has_node_alter by reflexivity.
    destruct (String.eqb_spec m n) as [-> | ?];
      [rewrite Hn; reflexivity | now rewrite orb_false_r].
  - unfold has_node in *. rewrite find_node_app. simpl.
    destruct (find_node g m); [reflexivity |].
    destruct (String.eqb m n); reflexivity.
Qed.

Lemma edge_rel_add_node (g : DiGraph) (n u v : string) (d : NodeData) :
  edge_rel (add_node g n d) u v = edge_rel g u v.
Proof.
  unfold add_node, edge_rel. destruct (has_node g n).
  - rewrite find_node_alter by reflexivity.
    destruct (find_node g u) as [x |]; [| reflexivity].
    destruct (String.eqb n u); reflexivity.
  - rewrite find_node_app. destruct (find_node g u); [reflexivity |].
    simpl. destruct (String.eqb u n); reflexivity.
Qed.

Lemma attrs_add_node (g : DiGraph) (n m : string) (d : NodeData) :
  Builder.get_concept (add_node g n d) m =
  if String.eqb m n then Some (Some d) else Builder.get_concept g m.
Proof.
  unfold Builder.get_concept, add_node. destruct (has_node g n) eqn:Hn.
  - rewrite find_node_alter by reflexivity. unfold has_node in Hn.
    destruct (String.eqb_spec m n) as [-> | Hm].
    + destruct (find_node g n); [| discriminate].
      now rewrite String.eqb_refl.
    + destruct (find_node g m); [| reflexivity].
      destruct (String.eqb_spec n m); [congruence | reflexivity].
  - rewrite find_node_app. unfold has_node in Hn.
    destruct (String.eqb_spec m n) as [-> | Hm].
    + destruct (find_node g n); [discriminate |].
      simpl. now rewrite String.eqb_refl.
    + simpl. destruct (find_node g m); [reflexivity |].
      destruct (String.eqb_spec m n); [congruence | reflexivity].
Qed.

Lemma edge_rel_remove_edge (g : DiGraph) (e : string * string) (u v : string) :
  edge_rel (remove_edge g e) u v =
  if String.eqb u (fst e) && String.eqb v (snd e) then None else edge_rel g u v.
Proof.
  unfold remove_edge, edge_rel. rewrite find_node_alter by reflexivity.
  destruct (find_node g u) as [x |].
  - destruct (String.eqb_spec (fst e) u) as [<- | Hu].
    + rewrite String.eqb_refl. simpl. apply assoc_assoc_del.
    + destruct (String.eqb_spec u (fst e)); [congruence | reflexivity].
  - destruct (String.eqb u (fst e) && String.eqb v (snd e)); reflexivity.
Qed.

Lemma has_node_remove_edges (es : list (string * string)) (g : DiGraph) (m : string) :
  has_node (remove_edges_from g es) m = has_node g m.
Proof.
  unfold remove_edges_from. revert g.
  induction es as [| e es IH]; intros g; simpl; [reflexivity |].
  rewrite IH. unfold remove_edge. now rewrite has_node_alter.
Qed.

Lemma attrs_remove_edges (es : list (string * string)) (g : DiGraph) (m : string) :
  Builder.get_concept (remove_edges_from g es) m = Builder.get_concept g m.
Proof.
  unfold remove_edges_from. revert g.
  induction es as [| e es IH]; intros g; simpl; [reflexivity |].
  rewrite IH. unfold Builder.get_concept, remove_edge.
  rewrite find_node_alter by reflexivity.
  destruct (find_node g m); [| reflexivity].
  destruct (String.eqb (fst e) m); reflexivity.
Qed.

Lemma edge_rel_remove_edges (es : list (string * string)) (g : DiGraph) (u v : string) :
  edge_rel (remove_edges_from g es) u v =
  if existsb (fun e => String.eqb u (fst e) && String.eqb v (snd e)) es
  then None else edge_rel g u v.
Proof.
  unfold remove_edges_from. revert g.
  induction es as [| e es IH]; intros g; simpl; [reflexivity |].
  rewrite IH, edge_rel_remove_edge.
  destruct (String.eqb u (fst e) && String.eqb v (snd e)); simpl;
    [destruct (existsb _ es) |]; reflexivity.
Qed.

Lemma in_edges_complete (g : DiGraph) (u n r : string) :
  edge_rel g u n = Some r -> In (u, n) (in_edges g n).
Proof.
  unfold edge_rel, in_edges. intros H.
  destruct (find_node g u) as [x |] eqn:Hx; [| discriminate].
  apply find_node_id in Hx. destruct Hx as [<- Hin].
  apply in_flat_map. exists x. split; [assumption |].
  rewrite H. now left.
Qed.

Lemma out_edges_complete (g : DiGraph) (n v r : string) :
  edge_rel g n v = Some r -> In (n, v) (out_edges g n).
Proof.
  unfold edge_rel, out_edges. intros H.
  destruct (find_node g n) as [x |]; [| discriminate].
  apply assoc_In in H. apply in_map_iff. now exists (v, r).
Qed.

End GraphLookups.

(** ** The relation loops of the builder *)

Section RelationLoops.

Import NX.

Variable cid : string.

Ltac bool_cases :=
  repeat match goal with
         | |- context [mem ?a ?l] => destruct (mem a l)
         | |- context [has_node ?g ?a] => destruct (has_node g a)
         end.

Ltac prev_cases :=
  repeat match goal with
         | |- context [match edge_rel ?g ?a ?b with _ => _ end] =>
             destruct (edge_rel g a b)
         end.

Lemma has_node_add_broader (g : DiGraph) (b m : string) :
  has_node g cid = true ->
  has_node (Builder.add_broader cid g b) m = has_node g m.
Proof.
  intros Hc. unfold Builder.add_broader.
  destruct (has_node g b) eqn:Hb; [| reflexivity].
  rewrite has_node_add_edge_old; [apply has_node_add_edge_old; assumption | |];
    rewrite has_node_add_edge_old; assumption.
Qed.

Lemma has_node_add_narrower (g : DiGraph) (b m : string) :
  has_node g cid = true ->
  has_node (Builder.add_narrower cid g b) m = has_node g m.
Proof.
  intros Hc. unfold Builder.add_narrower.
  destruct (has_node g b) eqn:Hb; [| reflexivity].
  assert (H1 : forall k, has_node (if negb (has_edge g cid b)
                                   then add_edge g cid b "narrower" else g) k
                         = has_node g k).
  { intros k. destruct (negb (has_edge g cid b)); [| reflexivity].
    apply has_node_add_edge_old; assumption. }
  destruct (negb (has_edge _ b cid)); [| apply H1].
  rewrite has_node_add_edge_old; rewrite ?H1; auto.
Qed.

Lemma has_node_add_related (g : DiGraph) (b m : string) :
  has_node g cid = true ->
  has_node (Builder.add_related cid g b) m = has_node g m.
Proof.
  intros Hc. unfold Builder.add_related.
  destruct (has_node g b) eqn:Hb; [| reflexivity].
  rewrite has_node_add_edge_old; [apply has_node_add_edge_old; assumption | |];
    rewrite has_node_add_edge_old; assumption.
Qed.

Lemma has_node_add_prerequisite (g : DiGraph) (b m : string) :
  has_node g cid = true ->
  has_node (Builder.add_prerequisite cid g b) m = has_node g m.
Proof.
  intros Hc. unfold Builder.add_prerequisite.
  destruct (has_node g b) eqn:Hb; [| reflexivity].
  apply has_node_add_edge_old; assumption.
Qed.

(** A loop whose body keeps the node set keeps it as a whole. *)
Lemma has_node_loop (body : DiGraph -> string -> DiGraph) :
  (forall g b m, has_node g cid = true -> has_node (body g b) m = has_node g m) ->
  forall ids g m, has_node g cid = true ->
                  has_node (fold_left body ids g) m = has_node g m.
Proof.
  intros Hbody ids. induction ids as [| b ids IH]; intros g m Hc; simpl;
    [reflexivity |].
  rewrite IH; [apply Hbody; assumption |].
  rewrite Hbody; assumption.
Qed.

Lemma edge_rel_add_broader (g : DiGraph) (b u v : string) :
  has_node g cid = true ->
  edge_rel (Builder.add_broader cid g b) u v =
  after_broader cid (has_node g) u v [b] (edge_rel g u v).
Proof.
  intros Hc. unfold Builder.add_broader, after_broader. rewrite !mem_cons. simpl.
  rewrite !orb_false_r.
  destruct (has_node g b) eqn:Hb.
  - rewrite !edge_rel_add_edge.
    eqb_cases; simpl; rewrite ?Hc, ?Hb; try reflexivity; try congruence;
      bool_cases; reflexivity.
  - eqb_cases; simpl; rewrite ?Hc, ?Hb; try reflexivity; try congruence;
      bool_cases; reflexivity.
Qed.

Lemma edge_rel_broader_loop (ids : list string) (g : DiGraph) (u v : string) :
  has_node g cid = true ->
  edge_rel (fold_left (Builder.add_broader cid) ids g) u v =
  after_broader cid (has_node g) u v ids (edge_rel g u v).
Proof.
  revert g. induction ids as [| b ids IH]; intros g Hc; simpl.
  - unfold after_broader. simpl. now rewrite !andb_false_r.
  - rewrite IH by (rewrite has_node_add_broader; assumption).
    rewrite edge_rel_add_broader by assumption.
    unfold after_broader. rewrite !has_node_add_broader by assumption.
    rewrite !mem_cons. simpl. rewrite !orb_false_r.
    eqb_cases; simpl; rewrite ?Hc; try reflexivity; try congruence;
      bool_cases; simpl; try reflexivity; try congruence.
Qed.

Lemma edge_rel_add_narrower (g : DiGraph) (b u v : string) :
  has_node g cid = true ->
  edge_rel (Builder.add_narrower cid g b) u v =
  after_narrower cid (has_node g) u v [b] (edge_rel g u v).
Proof.
  intros Hc. unfold Builder.add_narrower, after_narrower. rewrite !mem_cons.
  simpl. rewrite !orb_false_r.
  destruct (has_node g b) eqn:Hb.
  - unfold has_edge.
    destruct (edge_rel g cid b) as [r1 |] eqn:E1; simpl.
    + destruct (edge_rel g b cid) as [r2 |] eqn:E2; simpl.
      * destruct (edge_rel g u v) eqn:E; [reflexivity |].
        eqb_cases; simpl; rewrite ?Hc, ?Hb; try reflexivity; try congruence.
      * rewrite edge_rel_add_edge.
        eqb_cases; simpl; rewrite ?Hc, ?Hb, ?E1, ?E2; try reflexivity;
          try congruence; prev_cases; reflexivity.
    + rewrite edge_rel_add_edge.
      destruct (String.eqb_spec b cid) as [Ebc | Hbc]; simpl.
      * subst b. rewrite String.eqb_refl. simpl. rewrite edge_rel_add_edge.
        eqb_cases; simpl; rewrite ?Hc, ?E1; try reflexivity; try congruence;
          prev_cases; reflexivity.
      * destruct (edge_rel g b cid) as [r2 |] eqn:E2; simpl;
          rewrite ?edge_rel_add_edge;
          eqb_cases; simpl; rewrite ?Hc, ?Hb, ?E1, ?E2; try reflexivity;
          try congruence; prev_cases; reflexivity.
  - destruct (edge_rel g u v); [reflexivity |].
    eqb_cases; simpl; rewrite ?Hc, ?Hb; try reflexivity; congruence.
Qed.

Lemma edge_rel_narrower_loop (ids : list string) (g : DiGraph) (u v : string) :
  has_node g cid = true ->
  edge_rel (fold_left (Builder.add_narrower cid) ids g) u v =
  after_narrower cid (has_node g) u v ids (edge_rel g u v).
Proof.
  revert g. induction ids as [| b ids IH]; intros g Hc; simpl.
  - unfold after_narrower. simpl. rewrite !andb_false_r.
    destruct (edge_rel g u v); reflexivity.
  - rewrite IH by (rewrite has_node_add_narrower; assumption).
    rewrite edge_rel_add_narrower by assumption.
    unfold after_narrower. rewrite !has_node_add_narrower by assumption.
    rewrite !mem_cons. simpl. rewrite !orb_false_r.
    destruct (edge_rel g u v); [reflexivity |].
    eqb_cases; simpl; rewrite ?Hc; try reflexivity; try congruence;
      bool_cases; simpl; try reflexivity; try congruence.
Qed.

Lemma edge_rel_add_related (g : DiGraph) (b u v : string) :
  has_node g cid = true ->
  edge_rel (Builder.add_related cid g b) u v =
  after_related cid (has_node g) u v [b] (edge_rel g u v).
Proof.
  intros Hc. unfold Builder.add_related, after_related. rewrite !mem_cons. simpl.
  rewrite !orb_false_r.
  destruct (has_node g b) eqn:Hb.
  - rewrite !edge_rel_add_edge.
    eqb_cases; simpl; rewrite ?Hc, ?Hb; try reflexivity; try congruence;
      bool_cases; reflexivity.
  - eqb_cases; simpl; rewrite ?Hc, ?Hb; try reflexivity; try congruence;
      bool_cases; reflexivity.
Qed.

Lemma edge_rel_related_loop (ids : list string) (g : DiGraph) (u v : string) :
  has_node g cid = true ->
  edge_rel (fold_left (Builder.add_related cid) ids g) u v =
  after_related cid (has_node g) u v ids (edge_rel g u v).
Proof.
  revert g. induction ids as [| b ids IH]; intros g Hc; simpl.
  - unfold after_related. simpl. now rewrite !andb_false_r.
  - rewrite IH by (rewrite has_node_add_related; assumption).
    rewrite edge_rel_add_related by assumption.
    unfold after_related. rewrite !has_node_add_related by assumption.
    rewrite !mem_cons. simpl. rewrite !orb_false_r.
    eqb_cases; simpl; rewrite ?Hc; try reflexivity; try congruence;
      bool_cases; simpl; try reflexivity; try congruence.
Qed.

Lemma edge_rel_add_prerequisite (g : DiGraph) (b u v : string) :
  has_node g cid = true ->
  edge_rel (Builder.add_prerequisite cid g b) u v =
  after_prerequisite cid (has_node g) u v [b] (edge_rel g u v).
Proof.
  intros Hc. unfold Builder.add_prerequisite, after_prerequisite.
  rewrite !mem_cons. simpl. rewrite !orb_false_r.
  destruct (has_node g b) eqn:Hb.
  - rewrite !edge_rel_add_edge.
    eqb_cases; simpl; rewrite ?Hc, ?Hb; try reflexivity; try congruence.
  - eqb_cases; simpl; rewrite ?Hc, ?Hb; try reflexivity; try congruence.
Qed.

Lemma edge_rel_prerequisite_loop (ids : list string) (g : DiGraph) (u v : string) :
  has_node g cid = true ->
  edge_rel (fold_left (Builder.add_prerequisite cid) ids g) u v =
  after_prerequisite cid (has_node g) u v ids (edge_rel g u v).
Proof.
  revert g. induction ids as [| b ids IH]; intros g Hc; simpl.
  - unfold after_prerequisite. simpl. now rewrite !andb_false_r.
  - rewrite IH by (rewrite has_node_add_prerequisite; assumption).
    rewrite edge_rel_add_prerequisite by assumption.
    unfold after_prerequisite. rewrite !has_node_add_prerequisite by assumption.
    rewrite !mem_cons. simpl. rewrite !orb_false_r.
    eqb_cases; simpl; rewrite ?Hc; try reflexivity; try congruence;
      bool_cases; simpl; try reflexivity; try congruence.
Qed.

End RelationLoops.

Section RelationsOfOneConcept.

Import NX.

Variables (g : DiGraph) (c : SKOSConcept).
Hypothesis Hc : has_node g (concept_id c) = true.

(** While the relations of a concept that is a node are added, the node
    set stays as it is: [add_edge] never has to create an endpoint. *)
Lemma has_node_relations (m : string) :
  has_node (Builder._add_concept_relations g c) m = has_node g m.
Proof.
  unfold Builder._add_concept_relations.
  rewrite (has_node_loop _ _ (has_node_add_prerequisite (concept_id c))).
  rewrite (has_node_loop _ _ (has_node_add_related (concept_id c))).
  rewrite (has_node_loop _ _ (has_node_add_narrower (concept_id c))).
  rewrite (has_node_loop _ _ (has_node_add_broader (concept_id c))).
  reflexivity.
  all: repeat first
         [ assumption
         | rewrite (has_node_loop _ _ (has_node_add_related (concept_id c)))
         | rewrite (has_node_loop _ _ (has_node_add_narrower (concept_id c)))
         | rewrite (has_node_loop _ _ (has_node_add_broader (concept_id c))) ].
Qed.

Lemma edge_rel_relations (u v : string) :
  edge_rel (Builder._add_concept_relations g c) u v =
  after_relations c (has_node g) u v (edge_rel g u v).
Proof.
  unfold Builder._add_concept_relations, after_relations.
  assert (H1 : forall m, has_node (fold_left (Builder.add_broader (concept_id c))
                                             (broader c) g) m = has_node g m).
  { intros m. apply (has_node_loop _ _ (has_node_add_broader (concept_id c)));
      assumption. }
  assert (H2 : forall m,
             has_node (fold_left (Builder.add_narrower (concept_id c)) (narrower c)
                         (fold_left (Builder.add_broader (concept_id c))
                                    (broader c) g)) m = has_node g m).
  { intros m.
    rewrite (has_node_loop _ _ (has_node_add_narrower (concept_id c)));
      [apply H1 | now rewrite H1]. }
  assert (H3 : forall m,
             has_node (fold_left (Builder.add_related (concept_id c)) (related c)
                         (fold_left (Builder.add_narrower (concept_id c)) (narrower c)
                            (fold_left (Builder.add_broader (concept_id c))
                                       (broader c) g))) m = has_node g m).
  { intros m.
    rewrite (has_node_loop _ _ (has_node_add_related (concept_id c)));
      [apply H2 | now rewrite H2]. }
  rewrite edge_rel_prerequisite_loop by (now rewrite H3).
  rewrite edge_rel_related_loop by (now rewrite H2).
  rewrite edge_rel_narrower_loop by (now rewrite H1).
  rewrite edge_rel_broader_loop by assumption.
  unfold after_prerequisite, after_related, after_narrower, after_broader.
  now rewrite !H3, !H2, !H1.
Qed.

End RelationsOfOneConcept.

(** ** Building the graph *)

Section Build.

Import NX.

Lemma has_node_add_nodes (rs : list SKOSConcept) (g : DiGraph) (m : string) :
  has_node (fold_left Builder._add_concept_node rs g) m =
  has_node g m || mem m (map concept_id rs).
Proof.
  revert g. induction rs as [| c rs IH]; intros g; simpl.
  - now rewrite orb_false_r.
  - rewrite IH. unfold Builder._add_concept_node. rewrite has_node_add_node.
    now rewrite orb_assoc.
Qed.

Lemma edge_rel_add_nodes (rs : list SKOSConcept) (g : DiGraph) (u v : string) :
  edge_rel (fold_left Builder._add_concept_node rs g) u v = edge_rel g u v.
Proof.
  revert g. induction rs as [| c rs IH]; intros g; simpl; [reflexivity |].
  rewrite IH. apply edge_rel_add_node.
Qed.

Lemma has_node_add_relations (rs : list SKOSConcept) (g : DiGraph) :
  (forall R, In R rs -> has_node g (concept_id R) = true) ->
  forall m, has_node (fold_left Builder._add_concept_relations rs g) m =
            has_node g m.
Proof.
  revert g. induction rs as [| c rs IH]; intros g Hrs m; simpl; [reflexivity |].
  assert (Hc : has_node g (concept_id c) = true) by (apply Hrs; now left).
  rewrite IH.
  - now apply has_node_relations.
  - intros R HR. rewrite has_node_relations by assumption.
    apply Hrs. now right.
Qed.

Lemma has_node_build (rs : list SKOSConcept) (g : DiGraph) (m : string) :
  has_node (Builder.build_graph g rs) m =
  has_node g m || mem m (map concept_id rs).
Proof.
  unfold Builder.build_graph. rewrite has_node_add_relations.
  - apply has_node_add_nodes.
  - intros R HR. rewrite has_node_add_nodes.
    replace (mem (concept_id R) (map concept_id rs)) with true;
      [apply orb_true_r |].
    symmetry. apply mem_In. now apply in_map.
Qed.

Section OnePair.

Variables a b : string.
Hypothesis Hab : b <> a.

Lemma pair_established (g : DiGraph) (A : SKOSConcept) :
  concept_id A = a -> has_node g a = true -> has_node g b = true ->
  In b (broader A) -> pair_untouched A a b ->
  broader_pair (Builder._add_concept_relations g A) a b.
Proof.
  intros Ha Hna Hnb Hin [Hu _]. destruct (Hu Ha) as [Hr Hp].
  apply mem_In in Hin. apply mem_false_In in Hr, Hp.
  unfold broader_pair. rewrite !edge_rel_relations by (now rewrite Ha).
  unfold after_relations, after_prerequisite, after_related, after_narrower,
    after_broader.
  rewrite Ha, Hin, Hr, Hp, Hna, Hnb, !String.eqb_refl.
  destruct (String.eqb_spec b a) as [E | _]; [congruence |].
  destruct (String.eqb_spec a b) as [E | _]; [congruence |].
  simpl. rewrite ?andb_false_r. simpl. split; reflexivity.
Qed.

Lemma pair_kept (g : DiGraph) (R : SKOSConcept) :
  has_node g (concept_id R) = true -> pair_untouched R a b ->
  broader_pair g a b -> broader_pair (Builder._add_concept_relations g R) a b.
Proof.
  intros Hn [Hu1 Hu2] [H1 H2]. unfold broader_pair.
  rewrite !edge_rel_relations by assumption.
  unfold after_relations, after_prerequisite, after_related, after_narrower,
    after_broader.
  rewrite H1, H2.
  destruct (String.eqb_spec a (concept_id R)) as [Ea | Ea];
    destruct (String.eqb_spec b (concept_id R)) as [Eb | Eb];
    try (exfalso; congruence); simpl.
  - symmetry in Ea. destruct (Hu1 Ea) as [Hr Hp].
    apply mem_false_In in Hr, Hp. rewrite Hr, Hp. simpl.
    repeat match goal with
           | |- context [mem ?x ?l] => destruct (mem x l)
           | |- context [has_node ?h ?x] => destruct (has_node h x)
           end; simpl; split; reflexivity.
  - symmetry in Eb. destruct (Hu2 Eb) as [Hb [Hr Hp]].
    apply mem_false_In in Hb, Hr, Hp. rewrite Hb, Hr, Hp. simpl.
    split; reflexivity.
  - split; reflexivity.
Qed.

Lemma pair_kept_all (rs : list SKOSConcept) (g : DiGraph) :
  (forall R, In R rs -> has_node g (concept_id R) = true) ->
  (forall R, In R rs -> pair_untouched R a b) ->
  broader_pair g a b ->
  broader_pair (fold_left Builder._add_concept_relations rs g) a b.
Proof.
  revert g. induction rs as [| R rs IH]; intros g Hn Hu HP; simpl;
    [assumption |].
  apply IH.
  - intros R' HR'. rewrite has_node_relations by (apply Hn; now left).
    apply Hn. now right.
  - intros R' HR'. apply Hu. now right.
  - apply pair_kept; [apply Hn; now left | apply Hu; now left | assumption].
Qed.

End OnePair.

End Build.

(** ** Claims about the builder *)

(** Claim C1, as amended.  After [build_graph], a [broader] declaration of
    [B] by record [A] whose target is a node is in the graph as the edge
    [A -> B] of type broader and the edge [B -> A] of type narrower, also
    when the two concepts declare [narrower] between them, provided [B] is
    not [A] itself and no record rewrites the pair: [A] does not list [B]
    under related or prerequisite, and [B] does not list [A] under broader,
    related or prerequisite (the graph keeps one edge per ordered pair, and
    those loops replace its type). *)
Theorem C1_broader_pair_after_build
    (g : NX.DiGraph) (concepts : list SKOSConcept) (A : SKOSConcept) (B : string) :
  In A concepts -> In B (broader A) ->
  NX.has_node (Builder.build_graph g concepts) B = true ->
  B <> concept_id A ->
  (forall R, In R concepts -> pair_untouched R (concept_id A) B) ->
  broader_pair (Builder.build_graph g concepts) (concept_id A) B.
Proof.
  intros HA HB Hnode Hneq Hquiet.
  rewrite has_node_build in Hnode.
  destruct (in_split _ _ HA) as [l1 [l2 Hsplit]].
  unfold Builder.build_graph.
  set (g1 := fold_left Builder._add_concept_node concepts g).
  assert (Hids : forall R, In R concepts -> NX.has_node g1 (concept_id R) = true).
  { intros R HR. unfold g1. rewrite has_node_add_nodes.
    replace (mem (concept_id R) (map concept_id concepts)) with true;
      [apply orb_true_r |].
    symmetry. apply mem_In. now apply in_map. }
  assert (Hb1 : NX.has_node g1 B = true).
  { unfold g1. now rewrite has_node_add_nodes. }
  rewrite Hsplit at 1. rewrite fold_left_app. simpl.
  set (g2 := fold_left Builder._add_concept_relations l1 g1).
  assert (H2 : forall m, NX.has_node g2 m = NX.has_node g1 m).
  { apply has_node_add_relations. intros R HR. apply Hids.
    rewrite Hsplit. apply in_or_app. now left. }
  apply pair_kept_all.
  - intros R HR. rewrite has_node_relations by (rewrite H2; now apply Hids).
    rewrite H2. apply Hids. rewrite Hsplit. apply in_or_app. right. now right.
  - intros R HR. apply Hquiet. rewrite Hsplit. apply in_or_app. right. now right.
  - apply pair_established; try assumption; try reflexivity.
    + rewrite H2. now apply Hids.
    + now rewrite H2.
    + now apply Hquiet.
Qed.

Lemma C1_broader_pair_after_build_witness :
  broader_pair
    (Builder.build_graph NX.empty
       [concept "ml" "Machine Learning" [] ["regression"] [] [];
        concept "regression" "Regression" ["ml"; "missing"] ["ml"] [] ["stats"];
        concept "stats" "Statistics" [] [] ["ml"] []])
    "regression" "ml".
Proof.
  apply (C1_broader_pair_after_build NX.empty _
           (concept "regression" "Regression" ["ml"; "missing"] ["ml"] []
                    ["stats"]) "ml").
  - simpl. right. left. reflexivity.
  - simpl. left. reflexivity.
  - reflexivity.
  - simpl. discriminate.
  - intros R HR. simpl in HR.
    destruct HR as [<- | [<- | [<- | []]]]; unfold pair_untouched; simpl;
      split; intros E; try discriminate E;
      repeat split; intros F; simpl in F;
      repeat match goal with
             | H : _ \/ _ |- _ => destruct H
             | H : False |- _ => destruct H
             end; discriminate.
Defined.

(** The claim as stated fails when the same pair is also declared under
    [related]: the later loop replaces the type of both edges. *)
Lemma C1_counterexample :
  ~ broader_declarations_hold
      [concept "a" "A" ["b"] [] ["b"] []; concept "b" "B" [] [] [] []].
Proof.
  intros H.
  specialize (H (concept "a" "A" ["b"] [] ["b"] []) "b").
  destruct H as [H _].
  - left. reflexivity.
  - left. reflexivity.
  - reflexivity.
  - vm_compute in H. discriminate H.
Qed.

(** ** Well formed graphs and dangling references *)

Section Closed.

Import NX.

Lemma nodupb_NoDup (l : list string) : nodupb l = true <-> NoDup l.
Proof.
  induction l as [| x l IH]; simpl.
  - split; [constructor | reflexivity].
  - rewrite andb_true_iff, negb_true_iff, mem_false_In, IH. split.
    + intros [H1 H2]. now constructor.
    + intros H. inversion H. tauto.
Qed.

Lemma edge_rel_source (g : DiGraph) (u v r : string) :
  edge_rel g u v = Some r -> has_node g u = true.
Proof.
  unfold edge_rel, has_node. destruct (find_node g u); [reflexivity | discriminate].
Qed.

Lemma well_formed_joins (g : DiGraph) :
  well_formed g = true -> edges_join_nodes g.
Proof.
  unfold well_formed. rewrite andb_true_iff. intros [_ H] u v r He.
  unfold edge_rel in He.
  destruct (find_node g u) as [x |] eqn:Hx; [| discriminate].
  apply find_node_id in Hx. destruct Hx as [_ Hin].
  rewrite forallb_forall in H. specialize (H x Hin).
  apply andb_true_iff in H. destruct H as [_ H].
  rewrite forallb_forall in H. apply assoc_In in He. exact (H _ He).
Qed.

Lemma after_relations_new (c : SKOSConcept) (hn : string -> bool)
    (u v r : string) (prev : option string) :
  hn (concept_id c) = true ->
  after_relations c hn u v prev = Some r ->
  prev <> None \/ hn v = true.
Proof.
  intros Hc. unfold after_relations, after_prerequisite, after_related,
    after_narrower, after_broader.
  destruct prev as [p |]; [left; discriminate |].
  destruct (hn v) eqn:Hv; [now right |].
  destruct (String.eqb_spec v (concept_id c)) as [-> | Hvc]; [congruence |].
  simpl. rewrite !andb_false_r. simpl. discriminate.
Qed.

Lemma joins_relations (g : DiGraph) (c : SKOSConcept) :
  has_node g (concept_id c) = true -> edges_join_nodes g ->
  edges_join_nodes (Builder._add_concept_relations g c).
Proof.
  intros Hc Hg u v r He. rewrite has_node_relations by assumption.
  rewrite edge_rel_relations in He by assumption.
  destruct (after_relations_new _ _ _ _ _ _ Hc He) as [Hp | Hv]; [| assumption].
  destruct (edge_rel g u v) as [p |] eqn:E; [| congruence].
  exact (Hg _ _ _ E).
Qed.

Lemma joins_add_node (g : DiGraph) (n : string) (d : NodeData) :
  edges_join_nodes g -> edges_join_nodes (add_node g n d).
Proof.
  intros Hg u v r He. rewrite edge_rel_add_node in He.
  rewrite has_node_add_node, (Hg _ _ _ He). reflexivity.
Qed.

Lemma joins_remove_edges (g : DiGraph) (es : list (string * string)) :
  edges_join_nodes g -> edges_join_nodes (remove_edges_from g es).
Proof.
  intros Hg u v r He. rewrite edge_rel_remove_edges in He.
  rewrite has_node_remove_edges.
  destruct (existsb _ es); [discriminate |]. exact (Hg _ _ _ He).
Qed.

Lemma joins_add_nodes (rs : list SKOSConcept) (g : DiGraph) :
  edges_join_nodes g ->
  edges_join_nodes (fold_left Builder._add_concept_node rs g).
Proof.
  revert g. induction rs as [| c rs IH]; intros g Hg; simpl; [assumption |].
  apply IH. now apply joins_add_node.
Qed.

Lemma joins_add_relations (rs : list SKOSConcept) (g : DiGraph) :
  (forall R, In R rs -> has_node g (concept_id R) = true) ->
  edges_join_nodes g ->
  edges_join_nodes (fold_left Builder._add_concept_relations rs g).
Proof.
  revert g. induction rs as [| c rs IH]; intros g Hids Hg; simpl;
    [assumption |].
  apply IH.
  - intros R HR. rewrite has_node_relations by (apply Hids; now left).
    apply Hids. now right.
  - apply joins_relations; [apply Hids; now left | assumption].
Qed.

Lemma joins_build (g : DiGraph) (rs : list SKOSConcept) :
  edges_join_nodes g -> edges_join_nodes (Builder.build_graph g rs).
Proof.
  intros Hg. unfold Builder.build_graph. apply joins_add_relations.
  - intros R HR. rewrite has_node_add_nodes.
    replace (mem (concept_id R) (map concept_id rs)) with true;
      [apply orb_true_r |].
    symmetry. apply mem_In. now apply in_map.
  - now apply joins_add_nodes.
Qed.

Lemma update_concept_cleared (g : DiGraph) (c : SKOSConcept) :
  Builder.update_concept g c = Builder._add_concept_relations (cleared g c) c.
Proof. reflexivity. Qed.

Lemma has_node_cleared (g : DiGraph) (c : SKOSConcept) (m : string) :
  has_node (cleared g c) m = has_node g m || String.eqb m (concept_id c).
Proof.
  unfold cleared, Builder._add_concept_node. rewrite has_node_add_node.
  destruct (has_node g (concept_id c)); [| reflexivity].
  now rewrite has_node_remove_edges.
Qed.

Lemma has_node_update (g : DiGraph) (c : SKOSConcept) (m : string) :
  has_node (Builder.update_concept g c) m =
  has_node g m || String.eqb m (concept_id c).
Proof.
  rewrite update_concept_cleared, has_node_relations; [apply has_node_cleared |].
  rewrite has_node_cleared, String.eqb_refl. apply orb_true_r.
Qed.

Lemma joins_update (g : DiGraph) (c : SKOSConcept) :
  edges_join_nodes g -> edges_join_nodes (Builder.update_concept g c).
Proof.
  intros Hg. rewrite update_concept_cleared. apply joins_relations.
  - rewrite has_node_cleared, String.eqb_refl. apply orb_true_r.
  - unfold cleared, Builder._add_concept_node. apply joins_add_node.
    destruct (has_node g (concept_id c)); [| assumption].
    now apply joins_remove_edges.
Qed.

Lemma no_edge_without_node (g : DiGraph) (y : string) :
  edges_join_nodes g -> has_node g y = false ->
  forall u, edge_rel g u y = None /\ edge_rel g y u = None.
Proof.
  intros Hg Hy u. split.
  - destruct (edge_rel g u y) as [r |] eqn:E; [| reflexivity].
    rewrite (Hg _ _ _ E) in Hy. discriminate.
  - destruct (edge_rel g y u) as [r |] eqn:E; [| reflexivity].
    rewrite (edge_rel_source _ _ _ _ E) in Hy. discriminate.
Qed.

End Closed.

(** Claim C8.  A relation list entry [y] that names no node (no node of the
    graph so far and no record of the batch) is dropped by [build_graph] and
    by [update_concept] alike: afterwards [y] is still not a node, so no
    placeholder was made, and no edge starts or ends at [y].  Both
    operations are total functions of the graph and the records: there is
    no error outcome. *)
Theorem C8_dangling_reference_dropped
    (g : NX.DiGraph) (concepts : list SKOSConcept) (R c : SKOSConcept)
    (y : string) :
  well_formed g = true ->
  NX.has_node g y = false ->
  (In R concepts -> In y (references R) -> ~ In y (map concept_id concepts) ->
   NX.has_node (Builder.build_graph g concepts) y = false /\
   forall u, NX.edge_rel (Builder.build_graph g concepts) u y = None /\
             NX.edge_rel (Builder.build_graph g concepts) y u = None) /\
  (In y (references c) -> y <> concept_id c ->
   NX.has_node (Builder.update_concept g c) y = false /\
   forall u, NX.edge_rel (Builder.update_concept g c) u y = None /\
             NX.edge_rel (Builder.update_concept g c) y u = None).
Proof.
  intros Hwf Hy. apply well_formed_joins in Hwf. split.
  - intros _ _ Hids.
    assert (Hn : NX.has_node (Builder.build_graph g concepts) y = false).
    { rewrite has_node_build, Hy. simpl. now apply mem_false_In. }
    split; [assumption |].
    apply no_edge_without_node; [now apply joins_build | assumption].
  - intros _ Hne.
    assert (Hn : NX.has_node (Builder.update_concept g c) y = false).
    { rewrite has_node_update, Hy. simpl.
      destruct (String.eqb_spec y (concept_id c)); [contradiction | reflexivity]. }
    split; [assumption |].
    apply no_edge_without_node; [now apply joins_update | assumption].
Qed.

Lemma C8_dangling_reference_dropped_witness :
  let g := Builder.build_graph NX.empty [concept "a" "A" [] [] [] []] in
  let R := concept "b" "B" ["ghost"] [] [] ["a"] in
  let c := concept "a" "A" [] ["ghost"] ["ghost"] [] in
  (NX.has_node (Builder.build_graph g [R]) "ghost" = false /\
   forall u, NX.edge_rel (Builder.build_graph g [R]) u "ghost" = None /\
             NX.edge_rel (Builder.build_graph g [R]) "ghost" u = None) /\
  (NX.has_node (Builder.update_concept g c) "ghost" = false /\
   forall u, NX.edge_rel (Builder.update_concept g c) u "ghost" = None /\
             NX.edge_rel (Builder.update_concept g c) "ghost" u = None).
Proof.
  intros g R c.
  destruct (C8_dangling_reference_dropped g [R] R c "ghost") as [H1 H2].
  - reflexivity.
  - reflexivity.
  - split.
    + apply H1.
      * left. reflexivity.
      * simpl. left. reflexivity.
      * simpl. intros [E | []]. discriminate E.
    + apply H2.
      * simpl. left. reflexivity.
      * simpl. discriminate.
Defined.

(** ** Upsert *)

Section Upsert.

Import NX.

Variable cid : string.

Lemma attrs_loop (body : DiGraph -> string -> DiGraph) :
  (forall g b m, has_node g cid = true ->
                 has_node (body g b) m = has_node g m) ->
  (forall g b m, has_node g cid = true ->
                 Builder.get_concept (body g b) m = Builder.get_concept g m) ->
  forall ids g m, has_node g cid = true ->
                  Builder.get_concept (fold_left body ids g) m =
                  Builder.get_concept g m.
Proof.
  intros Hn Ha ids. induction ids as [| b ids IH]; intros g m Hc; simpl;
    [reflexivity |].
  rewrite IH; [now apply Ha | now rewrite Hn].
Qed.

Lemma attrs_add_broader (g : DiGraph) (b m : string) :
  has_node g cid = true ->
  Builder.get_concept (Builder.add_broader cid g b) m = Builder.get_concept g m.
Proof.
  intros Hc. unfold Builder.add_broader.
  destruct (has_node g b) eqn:Hb; [| reflexivity].
  rewrite attrs_add_edge; [now apply attrs_add_edge | |];
    rewrite has_node_add_edge_old; assumption.
Qed.

Lemma attrs_add_narrower (g : DiGraph) (b m : string) :
  has_node g cid = true ->
  Builder.get_concept (Builder.add_narrower cid g b) m = Builder.get_concept g m.
Proof.
  intros Hc. unfold Builder.add_narrower.
  destruct (has_node g b) eqn:Hb; [| reflexivity].
  destruct (negb (has_edge g cid b)).
  - destruct (negb (has_edge _ b cid)).
    + rewrite attrs_add_edge; [now apply attrs_add_edge | |];
        rewrite has_node_add_edge_old; assumption.
    + now apply attrs_add_edge.
  - destruct (negb (has_edge g b cid)); [| reflexivity].
    now apply attrs_add_edge.
Qed.

Lemma attrs_add_related (g : DiGraph) (b m : string) :
  has_node g cid = true ->
  Builder.get_concept (Builder.add_related cid g b) m = Builder.get_concept g m.
Proof.
  intros Hc. unfold Builder.add_related.
  destruct (has_node g b) eqn:Hb; [| reflexivity].
  rewrite attrs_add_edge; [now apply attrs_add_edge | |];
    rewrite has_node_add_edge_old; assumption.
Qed.

Lemma attrs_add_prerequisite (g : DiGraph) (b m : string) :
  has_node g cid = true ->
  Builder.get_concept (Builder.add_prerequisite cid g b) m =
  Builder.get_concept g m.
Proof.
  intros Hc. unfold Builder.add_prerequisite.
  destruct (has_node g b) eqn:Hb; [| reflexivity].
  now apply attrs_add_edge.
Qed.

End Upsert.

Section UpsertOfOneConcept.

Import NX.

Lemma attrs_relations (g : DiGraph) (c : SKOSConcept) (m : string) :
  has_node g (concept_id c) = true ->
  Builder.get_concept (Builder._add_concept_relations g c) m =
  Builder.get_concept g m.
Proof.
  intros Hc. unfold Builder._add_concept_relations.
  set (x := concept_id c) in *.
  assert (H1 : has_node (fold_left (Builder.add_broader x) (broader c) g) x = true).
  { now rewrite (has_node_loop x _ (has_node_add_broader x)). }
  assert (H2 : has_node (fold_left (Builder.add_narrower x) (narrower c)
                 (fold_left (Builder.add_broader x) (broader c) g)) x = true).
  { now rewrite (has_node_loop x _ (has_node_add_narrower x)). }
  assert (H3 : has_node (fold_left (Builder.add_related x) (related c)
                 (fold_left (Builder.add_narrower x) (narrower c)
                    (fold_left (Builder.add_broader x) (broader c) g))) x = true).
  { now rewrite (has_node_loop x _ (has_node_add_related x)). }
  rewrite (attrs_loop x _ (has_node_add_prerequisite x)
             (attrs_add_prerequisite x)) by assumption.
  rewrite (attrs_loop x _ (has_node_add_related x) (attrs_add_related x))
    by assumption.
  rewrite (attrs_loop x _ (has_node_add_narrower x) (attrs_add_narrower x))
    by assumption.
  now rewrite (attrs_loop x _ (has_node_add_broader x) (attrs_add_broader x)).
Qed.

Lemma in_edges_snd (g : DiGraph) (n : string) (e : string * string) :
  In e (in_edges g n) -> snd e = n.
Proof.
  unfold in_edges. rewrite in_flat_map. intros [x [_ H]].
  destruct (assoc n (node_succ x)); simpl in H; [| contradiction].
  destruct H as [<- | []]. reflexivity.
Qed.

Lemma out_edges_fst (g : DiGraph) (n : string) (e : string * string) :
  In e (out_edges g n) -> fst e = n.
Proof.
  unfold out_edges. destruct (find_node g n); [| contradiction].
  rewrite in_map_iff. intros [vr [<- _]]. reflexivity.
Qed.

Variables (g : DiGraph) (c : SKOSConcept).
Hypothesis Hg : edges_join_nodes g.

Lemma edge_rel_cleared_away (u v : string) :
  u <> concept_id c -> v <> concept_id c ->
  edge_rel (cleared g c) u v = edge_rel g u v.
Proof.
  intros Hu Hv. unfold cleared, Builder._add_concept_node.
  rewrite edge_rel_add_node.
  destruct (has_node g (concept_id c)); [| reflexivity].
  rewrite edge_rel_remove_edges.
  destruct (existsb _ _) eqn:E; [| reflexivity].
  apply existsb_exists in E. destruct E as [e [He Hm]].
  apply andb_true_iff in Hm. destruct Hm as [H1 H2].
  apply String.eqb_eq in H1, H2.
  apply in_app_or in He. destruct He as [He | He].
  - apply in_edges_snd in He. congruence.
  - apply out_edges_fst in He. congruence.
Qed.

Lemma edge_rel_cleared_at (u v : string) :
  u = concept_id c \/ v = concept_id c ->
  edge_rel (cleared g c) u v = None.
Proof.
  intros Huv. unfold cleared, Builder._add_concept_node.
  rewrite edge_rel_add_node.
  destruct (has_node g (concept_id c)) eqn:Hx.
  - rewrite edge_rel_remove_edges.
    destruct (existsb _ _) eqn:E; [reflexivity |].
    destruct (edge_rel g u v) as [r |] eqn:Er; [| reflexivity].
    exfalso. apply Bool.not_true_iff_false in E. apply E.
    apply existsb_exists. exists (u, v). simpl. rewrite !String.eqb_refl.
    split; [| reflexivity].
    apply in_or_app. destruct Huv as [-> | ->].
    + right. exact (out_edges_complete _ _ _ _ Er).
    + left. exact (in_edges_complete _ _ _ _ Er).
  - destruct (edge_rel g u v) as [r |] eqn:Er; [| reflexivity].
    destruct Huv as [-> | ->].
    + rewrite (edge_rel_source _ _ _ _ Er) in Hx. discriminate.
    + rewrite (Hg _ _ _ Er) in Hx. discriminate.
Qed.

Lemma has_node_cleared_self : has_node (cleared g c) (concept_id c) = true.
Proof. rewrite has_node_cleared, String.eqb_refl. apply orb_true_r. Qed.

Lemma edge_rel_update (u v : string) :
  edge_rel (Builder.update_concept g c) u v =
  after_relations c (has_node (Builder.update_concept g c)) u v
    (if String.eqb u (concept_id c) || String.eqb v (concept_id c)
     then None else edge_rel g u v).
Proof.
  rewrite update_concept_cleared at 1.
  rewrite edge_rel_relations by apply has_node_cleared_self.
  assert (Hn : forall m, has_node (cleared g c) m =
                         has_node (Builder.update_concept g c) m).
  { intros m. now rewrite has_node_update, has_node_cleared. }
  assert (Hp : edge_rel (cleared g c) u v =
               if String.eqb u (concept_id c) || String.eqb v (concept_id c)
               then None else edge_rel g u v).
  { destruct (String.eqb_spec u (concept_id c)) as [Eu | Eu]; simpl.
    - apply edge_rel_cleared_at. now left.
    - destruct (String.eqb_spec v (concept_id c)) as [Ev | Ev].
      + apply edge_rel_cleared_at. now right.
      + now apply edge_rel_cleared_away. }
  rewrite Hp. unfold after_relations, after_prerequisite, after_related,
    after_narrower, after_broader.
  now rewrite !Hn.
Qed.

End UpsertOfOneConcept.

(** Claim C2, as amended.  After [update_concept] on a well formed graph,
    [get_concept] returns the new attributes of [x]; every pair of two
    nodes other than [x] has the edge it had before; and the edges at [x]
    are derived from the current relation lists of [x] alone, with one edge
    per ordered pair: towards a node [y] the edge [x -> y] has the type of
    the last of prerequisite, related, broader, narrower that lists [y],
    back from [y] the edge [y -> x] is related, narrower (for a broader
    declaration) or broader (for a narrower one), in that order of
    precedence, and [x] has a loop exactly when it lists itself. *)
Theorem C2_upsert_frame_and_edges (g : NX.DiGraph) (c : SKOSConcept) :
  well_formed g = true ->
  let g' := Builder.update_concept g c in
  let x := concept_id c in
  Query.get_concept g' x = Some (Some (to_dict c)) /\
  (forall y, y <> x ->
             NX.edge_rel g' x y = upsert_out c (NX.has_node g') y /\
             NX.edge_rel g' y x = upsert_in c (NX.has_node g') y) /\
  NX.edge_rel g' x x = upsert_loop c /\
  (forall u v, u <> x -> v <> x -> NX.edge_rel g' u v = NX.edge_rel g u v).
Proof.
  intros Hwf g' x. apply well_formed_joins in Hwf.
  assert (Hx : NX.has_node g' x = true).
  { unfold g', x. rewrite has_node_update, String.eqb_refl. apply orb_true_r. }
  split; [| split; [| split]].
  - change (Builder.get_concept g' x = Some (Some (to_dict c))).
    unfold g'. rewrite update_concept_cleared.
    rewrite attrs_relations by apply has_node_cleared_self.
    unfold cleared, Builder._add_concept_node. rewrite attrs_add_node.
    unfold x. now rewrite String.eqb_refl.
  - intros y Hy. unfold g'. rewrite !edge_rel_update by assumption.
    fold g'. fold x. rewrite String.eqb_refl. rewrite orb_true_r. simpl.
    unfold upsert_out, upsert_in, after_relations, after_prerequisite,
      after_related, after_narrower, after_broader. fold x.
    rewrite String.eqb_refl, Hx.
    destruct (String.eqb_spec y x) as [E | _]; [contradiction |].
    simpl. rewrite ?andb_true_r.
    destruct (NX.has_node g' y); simpl; rewrite ?andb_false_r, ?andb_true_r;
      simpl.
    + destruct (mem y (prerequisite c)), (mem y (related c)),
        (mem y (broader c)), (mem y (narrower c)); simpl; split; reflexivity.
    + split; reflexivity.
  - unfold g'. rewrite edge_rel_update by assumption. fold g'. fold x.
    rewrite String.eqb_refl. simpl.
    unfold upsert_loop, after_relations, after_prerequisite,
      after_related, after_narrower, after_broader. fold x.
    rewrite String.eqb_refl, Hx. simpl. rewrite ?andb_true_r.
    destruct (mem x (prerequisite c)), (mem x (related c)),
      (mem x (broader c)), (mem x (narrower c)); reflexivity.
  - intros u v Hu Hv. unfold g'. rewrite edge_rel_update by assumption.
    fold x.
    unfold after_relations, after_prerequisite, after_related,
      after_narrower, after_broader. fold x.
    destruct (String.eqb_spec u x) as [E | _]; [contradiction |].
    destruct (String.eqb_spec v x) as [E | _]; [contradiction |].
    simpl. destruct (NX.edge_rel g u v); reflexivity.
Qed.

Lemma C2_upsert_frame_and_edges_witness :
  let g := Builder.build_graph NX.empty
             [concept "a" "A" ["b"] [] [] []; concept "b" "B" [] [] ["c"] [];
              concept "c" "C" [] [] [] []] in
  let c := concept "a" "A2" ["c"] ["b"] [] [] in
  NX.edge_rel (Builder.update_concept g c) "a" "a" = upsert_loop c /\
  forall u v, u <> "a" -> v <> "a" ->
              NX.edge_rel (Builder.update_concept g c) u v = NX.edge_rel g u v.
Proof.
  intros g c.
  destruct (C2_upsert_frame_and_edges g c) as [_ [_ [H3 H4]]].
  - reflexivity.
  - split; [exact H3 | exact H4].
Defined.

(** The claim as stated reads the edges at [x] off the declarations one by
    one; that fails as soon as [x] lists one target under two relation
    types, here [broader] and [related]. *)
Lemma C2_counterexample :
  ~ upsert_as_declared
      (Builder.build_graph NX.empty [concept "b" "B" [] [] [] []])
      (concept "x" "X" ["b"] [] ["b"] []).
Proof.
  intros [_ [H _]].
  specialize (H "x" "b" "broader" (or_introl eq_refl)).
  destruct H as [_ H].
  assert (E : NX.edge_rel
                (Builder.update_concept
                   (Builder.build_graph NX.empty [concept "b" "B" [] [] [] []])
                   (concept "x" "X" ["b"] [] ["b"] [])) "x" "b"
              = Some "broader").
  { apply H. left. repeat split; try reflexivity. simpl. now left. }
  vm_compute in E. discriminate E.
Qed.

(** ** The relation index *)

Section RelationIndex.

Import NX.

(** What [get_related_concepts] reads in a relation index. *)
Lemma get_related_concepts_lookup (g : DiGraph) (cid rt : string) :
  Indexer.get_related_concepts (Indexer._build_indexes g) cid rt =
  index_lookup (Indexer._build_relation_index g) rt cid.
Proof. reflexivity. Qed.

Lemma has_key_index_edge (idx : Indexer.RelationIndex)
    (e : string * string * string) (k : string) :
  has_key k (Indexer.index_edge idx e) = has_key k idx.
Proof.
  destruct e as [[s t] r]. unfold Indexer.index_edge, has_key.
  destruct (assoc r idx) as [m |] eqn:Er; [| reflexivity].
  rewrite assoc_assoc_set.
  destruct (String.eqb_spec k r) as [-> | _]; [now rewrite Er | reflexivity].
Qed.

Lemma index_lookup_index_edge (idx : Indexer.RelationIndex)
    (e : string * string * string) (rt src : string) :
  index_lookup (Indexer.index_edge idx e) rt src =
  index_lookup idx rt src ++
  (if indexed_under idx rt src e then [snd (fst e)] else []).
Proof.
  destruct e as [[s t] r]. unfold Indexer.index_edge, index_lookup,
    indexed_under, has_key. simpl.
  destruct (assoc r idx) as [m |] eqn:Er; simpl.
  - rewrite assoc_assoc_set.
    destruct (String.eqb_spec rt r) as [-> | Hr]; simpl.
    + rewrite Er, assoc_assoc_set.
      destruct (String.eqb_spec src s) as [-> | Hs]; simpl.
      * reflexivity.
      * now rewrite app_nil_r.
    + now rewrite app_nil_r.
  - now rewrite app_nil_r.
Qed.

Lemma index_lookup_fold (es : list (string * string * string))
    (idx : Indexer.RelationIndex) (rt src : string) :
  index_lookup (fold_left Indexer.index_edge es idx) rt src =
  index_lookup idx rt src ++
  map (fun e => snd (fst e)) (filter (indexed_under idx rt src) es).
Proof.
  revert idx. induction es as [| e es IH]; intros idx; simpl.
  - now rewrite app_nil_r.
  - rewrite IH, index_lookup_index_edge, <- app_assoc. f_equal.
    assert (Hk : forall e', indexed_under (Indexer.index_edge idx e) rt src e'
                            = indexed_under idx rt src e').
    { intros e'. unfold indexed_under. now rewrite has_key_index_edge. }
    rewrite (filter_ext _ _ Hk).
    destruct (indexed_under idx rt src e); reflexivity.
Qed.

Lemma index_lookup_built (g : DiGraph) (rt src : string) :
  index_lookup (Indexer._build_relation_index g) rt src =
  map (fun e => snd (fst e))
      (filter (indexed_under Indexer.empty_relation_index rt src) (edges g)).
Proof.
  unfold Indexer._build_relation_index. rewrite index_lookup_fold.
  unfold index_lookup at 1. simpl.
  destruct (String.eqb rt "broader"); [reflexivity |].
  destruct (String.eqb rt "narrower"); [reflexivity |].
  destruct (String.eqb rt "related"); [reflexivity |].
  destruct (String.eqb rt "prerequisite"); reflexivity.
Qed.

Lemma has_key_empty_index (k : string) :
  has_key k Indexer.empty_relation_index = well_named k.
Proof.
  unfold has_key, well_named, relation_type_names. simpl.
  destruct (String.eqb k "broader"); [reflexivity |].
  destruct (String.eqb k "narrower"); [reflexivity |].
  destruct (String.eqb k "related"); [reflexivity |].
  destruct (String.eqb k "prerequisite"); reflexivity.
Qed.

End RelationIndex.

Section FreshIndex.

Import NX.

Lemma well_formed_parts (g : DiGraph) :
  well_formed g = true ->
  NoDup (nodes g) /\
  (forall x, In x g -> NoDup (map fst (node_succ x))) /\
  edges_join_nodes g.
Proof.
  intros H. split; [| split].
  - unfold well_formed in H. apply andb_true_iff in H.
    now apply nodupb_NoDup.
  - intros x Hx. unfold well_formed in H. apply andb_true_iff in H.
    destruct H as [_ H]. rewrite forallb_forall in H. specialize (H x Hx).
    apply andb_true_iff in H. now apply nodupb_NoDup.
  - now apply well_formed_joins.
Qed.

Lemma find_node_unique (g : DiGraph) (x : Node) :
  NoDup (nodes g) -> In x g -> find_node g (node_id x) = Some x.
Proof.
  unfold nodes. induction g as [| y g IH]; simpl; [contradiction |].
  intros Hnd [-> | Hin].
  - now rewrite String.eqb_refl.
  - inversion Hnd as [| ? ? Hnot Hrest]; subst.
    destruct (String.eqb_spec (node_id x) (node_id y)) as [E | _].
    + exfalso. apply Hnot. rewrite <- E. now apply in_map.
    + now apply IH.
Qed.

Lemma assoc_unique {A : Type} (k : string) (v : A) (d : list (string * A)) :
  NoDup (map fst d) -> In (k, v) d -> assoc k d = Some v.
Proof.
  induction d as [| [k0 v0] d IH]; simpl; [contradiction |].
  intros Hnd [E | Hin].
  - inversion E; subst. now rewrite String.eqb_refl.
  - inversion Hnd as [| ? ? Hnot Hrest]; subst.
    destruct (String.eqb_spec k k0) as [-> | _].
    + exfalso. apply Hnot. change k0 with (fst (k0, v)). now apply in_map.
    + now apply IH.
Qed.

Lemma In_edges (g : DiGraph) (u v r : string) :
  In (u, v, r) (edges g) <->
  exists x, In x g /\ node_id x = u /\ In (v, r) (node_succ x).
Proof.
  unfold edges. rewrite in_flat_map. split.
  - intros [x [Hx H]]. apply in_map_iff in H. destruct H as [[v' r'] [E H]].
    simpl in E. inversion E; subst. now exists x.
  - intros [x [Hx [<- H]]]. exists x. split; [assumption |].
    apply in_map_iff. now exists (v, r).
Qed.

(** In a well formed graph the edge list and the lookups tell the same. *)
Lemma In_edges_edge_rel (g : DiGraph) (u v r : string) :
  well_formed g = true ->
  (In (u, v, r) (edges g) <-> edge_rel g u v = Some r).
Proof.
  intros Hwf. destruct (well_formed_parts g Hwf) as [Hn [Hs _]].
  rewrite In_edges. split.
  - intros [x [Hx [<- H]]]. unfold edge_rel.
    rewrite (find_node_unique g x Hn Hx).
    apply assoc_unique; [now apply Hs | assumption].
  - unfold edge_rel. intros H.
    destruct (find_node g u) as [x |] eqn:Hx; [| discriminate].
    apply find_node_id in Hx. destruct Hx as [<- Hin].
    exists x. repeat split; [assumption |]. now apply assoc_In.
Qed.

(** The fresh index lists, under a known relation type, exactly the
    successors joined by an edge of that type. *)
Lemma fresh_index_spec (g : DiGraph) (src rt y : string) :
  well_formed g = true ->
  (In y (Indexer.get_related_concepts (Indexer._build_indexes g) src rt) <->
   edge_rel g src y = Some rt /\ well_named rt = true).
Proof.
  intros Hwf. rewrite get_related_concepts_lookup, index_lookup_built.
  rewrite in_map_iff. split.
  - intros [[[s t] r] [E H]]. simpl in E. subst t.
    apply filter_In in H. destruct H as [Hin Hp].
    unfold indexed_under in Hp. simpl in Hp.
    rewrite has_key_empty_index in Hp.
    apply andb_true_iff in Hp. destruct Hp as [Hp Hs].
    apply andb_true_iff in Hp. destruct Hp as [Hk Hr].
    apply String.eqb_eq in Hs, Hr. subst s r.
    split; [now apply In_edges_edge_rel | assumption].
  - intros [He Hk]. exists (src, y, rt). split; [reflexivity |].
    apply filter_In. split; [now apply In_edges_edge_rel |].
    unfold indexed_under. simpl.
    now rewrite has_key_empty_index, Hk, !String.eqb_refl.
Qed.

Lemma keys_filter_NoDup {A : Type} (f : string * A -> bool)
    (d : list (string * A)) :
  NoDup (map fst d) -> NoDup (map fst (filter f d)).
Proof.
  induction d as [| [k v] d IH]; simpl; [constructor |].
  intros H. inversion H as [| ? ? Hnot Hrest]; subst.
  destruct (f (k, v)); simpl; [| now apply IH].
  constructor; [| now apply IH].
  intros Hin. apply Hnot. apply in_map_iff in Hin.
  destruct Hin as [kv [E Hkv]]. apply filter_In in Hkv.
  apply in_map_iff. exists kv. tauto.
Qed.

Lemma filter_none {A : Type} (f : A -> bool) (l : list A) :
  (forall x, In x l -> f x = false) -> filter f l = [].
Proof.
  induction l as [| x l IH]; simpl; [reflexivity |].
  intros H. rewrite (H x) by now left. apply IH. intros y Hy. apply H. now right.
Qed.

Lemma indexed_targets_NoDup (idx : Indexer.RelationIndex) (rt src : string)
    (g : DiGraph) :
  NoDup (nodes g) ->
  (forall x, In x g -> NoDup (map fst (node_succ x))) ->
  NoDup (map (fun e => snd (fst e))
             (filter (indexed_under idx rt src) (edges g))).
Proof.
  unfold nodes, edges. induction g as [| x g IH]; simpl; [constructor |].
  intros Hn Hs. inversion Hn as [| ? ? Hnot Hrest]; subst.
  rewrite filter_app, map_app.
  assert (Hx : NoDup (map fst (node_succ x))) by (apply Hs; now left).
  assert (Hg : forall y, In y g -> NoDup (map fst (node_succ y)))
    by (intros y Hy; apply Hs; now right).
  destruct (String.eqb_spec src (node_id x)) as [E | E].
  - (* the node itself: nothing further down has this source *)
    assert (Hnil : filter (indexed_under idx rt src)
                     (flat_map (fun x0 => map (fun vr => (node_id x0, fst vr, snd vr))
                                              (node_succ x0)) g) = []).
    { apply filter_none. intros [[s t] r] Hin.
      apply in_flat_map in Hin. destruct Hin as [y [Hy Hin]].
      apply in_map_iff in Hin. destruct Hin as [vr [Evr _]].
      inversion Evr; subst. unfold indexed_under. simpl.
      destruct (String.eqb_spec (node_id x) (node_id y)) as [E' | _].
      - exfalso. apply Hnot. rewrite E'. now apply in_map.
      - now rewrite andb_false_r. }
    rewrite Hnil, app_nil_r.
    clear - Hx. induction (node_succ x) as [| [v r] l IHl]; simpl;
      [constructor |].
    simpl in Hx. inversion Hx as [| ? ? Hnot Hrest]; subst.
    destruct (indexed_under idx rt src (node_id x, v, r)); simpl;
      [| now apply IHl].
    constructor; [| now apply IHl].
    intros Hin. apply Hnot. apply in_map_iff in Hin.
    destruct Hin as [[[s t] r'] [Et Hin]]. simpl in Et. subst t.
    apply filter_In in Hin. destruct Hin as [Hin _].
    apply in_map_iff in Hin. destruct Hin as [vr [Evr Hvr]].
    inversion Evr; subst. now apply in_map.
  - assert (Hnil : filter (indexed_under idx rt src)
                     (map (fun vr => (node_id x, fst vr, snd vr)) (node_succ x))
                   = []).
    { apply filter_none. intros [[s t] r] Hin.
      apply in_map_iff in Hin. destruct Hin as [vr [Evr _]].
      inversion Evr; subst. unfold indexed_under. simpl.
      destruct (String.eqb_spec src (node_id x)); [contradiction |].
      now rewrite andb_false_r. }
    rewrite Hnil. simpl. now apply IH.
Qed.

End FreshIndex.

(** Claim C10.  After the index has been built from a well formed graph
    (unique node ids, one edge and so one relation type per ordered pair),
    every list of the relation index names each target at most once. *)
Theorem C10_relation_index_lists_have_no_duplicates
    (g : NX.DiGraph) (old : Indexer.Indexes) (relation_type source : string) :
  well_formed g = true ->
  NoDup (Indexer.get_related_concepts (Indexer.rebuild_indexes g old)
                                      source relation_type).
Proof.
  intros Hwf. destruct (well_formed_parts g Hwf) as [Hn [Hs _]].
  unfold Indexer.rebuild_indexes.
  rewrite get_related_concepts_lookup, index_lookup_built.
  now apply indexed_targets_NoDup.
Qed.

(** ** The traversal of [expand_context] *)

Section Traversal.

Import Query.

Lemma fold_left_invariant {A B : Type} (P : A -> Prop) (f : A -> B -> A)
    (l : list B) :
  (forall a x, In x l -> P a -> P (f a x)) ->
  forall a, P a -> P (fold_left f l a).
Proof.
  induction l as [| y l IH]; intros Hf a Ha; simpl; [assumption |].
  apply IH.
  - intros a' x Hx. apply Hf. now right.
  - apply Hf; [now left | assumption].
Qed.

Lemma listed_assoc_set (k : string) (l : list Summary) (s : Summary)
    (d : list (string * list Summary)) :
  assoc k d = Some l ->
  Permutation (listed (assoc_set k (l ++ [s]) d)) (sum_id s :: listed d).
Proof.
  unfold listed. induction d as [| [k0 v0] d IH]; simpl; [discriminate |].
  destruct (String.eqb_spec k k0) as [-> | Hk].
  - intros [= ->]. simpl. rewrite map_app. simpl. rewrite <- app_assoc. simpl.
    symmetry. apply Permutation_middle.
  - intros H. simpl. specialize (IH H).
    eapply Permutation_trans; [apply Permutation_app_head; exact IH |].
    symmetry. apply Permutation_middle.
Qed.

Lemma listed_dict_append (k : string) (s : Summary)
    (d : list (string * list Summary)) :
  Permutation (listed (dict_append k s d))
              (if has_key k d then sum_id s :: listed d else listed d).
Proof.
  unfold dict_append, has_key. destruct (assoc k d) as [l |] eqn:E.
  - now apply listed_assoc_set.
  - apply Permutation_refl.
Qed.

Lemma listed_dict_append_In (k : string) (s : Summary)
    (d : list (string * list Summary)) (z : string) :
  In z (listed (dict_append k s d)) -> z = sum_id s \/ In z (listed d).
Proof.
  intros H. apply (Permutation_in _ (listed_dict_append k s d)) in H.
  destruct (has_key k d); [| now right].
  destruct H as [<- | H]; [now left | now right].
Qed.

Lemma listed_dict_append_NoDup (k : string) (s : Summary)
    (d : list (string * list Summary)) (rest : list string) :
  NoDup (listed d ++ rest) -> ~ In (sum_id s) (listed d ++ rest) ->
  NoDup (listed (dict_append k s d) ++ rest).
Proof.
  intros Hnd Hnot.
  apply (Permutation_NoDup
           (l := (if has_key k d then sum_id s :: listed d else listed d) ++ rest)).
  - apply Permutation_app_tail. symmetry. apply listed_dict_append.
  - destruct (has_key k d); [| assumption]. simpl. now constructor.
Qed.

Variables (g : NX.DiGraph) (ix : Indexer.Indexes) (include_content : bool).
Variable x : string.

Lemma visit_recorded_once (depth : Z) (rt : string) (st : Traversal)
    (y : string) :
  recorded_once x st -> recorded_once x (visit g include_content depth rt st y).
Proof.
  intros (Hnd & Hincl & Hx & Hnx). unfold visit.
  destruct (mem y (visited st)) eqn:Hy; [repeat split; assumption |].
  apply mem_false_In in Hy.
  assert (Hyx : y <> x) by (intros ->; contradiction).
  assert (Hyr : ~ In y (recorded st)) by (intros H; apply Hy; now apply Hincl).
  destruct (get_concept g y) as [[d |] |].
  - unfold recorded_once, recorded in *. simpl.
    destruct (depth =? 0)%Z.
    + repeat split.
      * now apply listed_dict_append_NoDup.
      * intros z Hz. apply in_app_or in Hz. destruct Hz as [Hz | Hz].
        -- apply listed_dict_append_In in Hz. simpl in Hz.
           destruct Hz as [-> | Hz]; [now left |].
           right. apply Hincl. apply in_or_app. now left.
        -- right. apply Hincl. apply in_or_app. now right.
      * now right.
      * intros Hz. apply in_app_or in Hz. destruct Hz as [Hz | Hz].
        -- apply listed_dict_append_In in Hz. simpl in Hz.
           destruct Hz as [E | Hz]; [congruence |].
           apply Hnx. apply in_or_app. now left.
        -- apply Hnx. apply in_or_app. now right.
    + assert (Hswap : forall d1 d2 : list string,
                 Permutation (d1 ++ d2) (d2 ++ d1))
        by (intros; apply Permutation_app_comm).
      repeat split.
      * eapply Permutation_NoDup; [apply Hswap |].
        apply listed_dict_append_NoDup.
        -- eapply Permutation_NoDup; [apply Hswap | exact Hnd].
        -- intros Hz. apply Hyr. simpl in Hz.
           eapply Permutation_in; [apply Hswap | exact Hz].
      * intros z Hz. apply in_app_or in Hz. destruct Hz as [Hz | Hz].
        -- right. apply Hincl. apply in_or_app. now left.
        -- apply listed_dict_append_In in Hz. simpl in Hz.
           destruct Hz as [-> | Hz]; [now left |].
           right. apply Hincl. apply in_or_app. now right.
      * now right.
      * intros Hz. apply in_app_or in Hz. destruct Hz as [Hz | Hz].
        -- apply Hnx. apply in_or_app. now left.
        -- apply listed_dict_append_In in Hz. simpl in Hz.
           destruct Hz as [E | Hz]; [congruence |].
           apply Hnx. apply in_or_app. now right.
  - unfold recorded_once, recorded in *. simpl. repeat split; try assumption.
    + intros z Hz. right. now apply Hincl.
    + now right.
  - unfold recorded_once, recorded in *. simpl. repeat split; try assumption.
    + intros z Hz. right. now apply Hincl.
    + now right.
Qed.

Lemma explore_recorded_once (rts : list string) (cur : string) (depth : Z)
    (st : Traversal) :
  recorded_once x st ->
  recorded_once x (explore g ix include_content rts cur depth st).
Proof.
  unfold explore. apply fold_left_invariant. intros st1 rt _.
  unfold explore_type. apply fold_left_invariant. intros st2 y _.
  apply visit_recorded_once.
Qed.

End Traversal.

Section Rounds.

Import Query.

Lemma unvisited_add_le (y : string) (seen universe : list string) :
  length (unvisited (y :: seen) universe) <= length (unvisited seen universe).
Proof.
  unfold unvisited. induction universe as [| z l IH]; [apply Nat.le_refl |].
  cbn [filter]. rewrite mem_cons.
  destruct (String.eqb z y), (mem z seen); cbn [negb orb length]; lia.
Qed.

Lemma unvisited_add_lt (y : string) (seen universe : list string) :
  In y universe -> mem y seen = false ->
  length (unvisited (y :: seen) universe) < length (unvisited seen universe).
Proof.
  unfold unvisited. induction universe as [| z l IH]; [intros [] |].
  intros Hin Hy. cbn [filter]. rewrite mem_cons.
  pose proof (unvisited_add_le y seen l) as Hle. unfold unvisited in Hle.
  destruct Hin as [-> | Hin].
  - rewrite String.eqb_refl, Hy. cbn [negb orb length]. lia.
  - specialize (IH Hin Hy).
    destruct (String.eqb z y), (mem z seen); cbn [negb orb length]; lia.
Qed.

Lemma related_in_targets (ix : Indexer.Indexes) (cur rt y : string) :
  In y (Indexer.get_related_concepts ix cur rt) -> In y (index_targets ix).
Proof.
  unfold Indexer.get_related_concepts, index_targets.
  destruct (assoc rt (Indexer.relation_index ix)) as [m |] eqn:Em;
    [| contradiction].
  destruct (assoc cur m) as [l |] eqn:El; [| contradiction].
  intros Hy. apply in_flat_map. exists (rt, m). split; [now apply assoc_In |].
  simpl. apply in_flat_map. exists (cur, l). split; [now apply assoc_In |].
  assumption.
Qed.

Variables (g : NX.DiGraph) (ix : Indexer.Indexes) (include_content : bool).

Lemma visit_rounds_left (depth : Z) (rt : string) (st : Traversal) (y : string) :
  In y (index_targets ix) ->
  rounds_left ix (visit g include_content depth rt st y) <= rounds_left ix st.
Proof.
  intros Hy. unfold visit.
  destruct (mem y (visited st)) eqn:Hm; [apply Nat.le_refl |].
  pose proof (unvisited_add_lt y (visited st) _ Hy Hm) as Hlt.
  unfold rounds_left.
  destruct (get_concept g y) as [[d |] |]; cbn [queue visited].
  - rewrite length_app. cbn [length]. lia.
  - lia.
  - lia.
Qed.

Lemma explore_rounds_left (rts : list string) (cur : string) (depth : Z)
    (st : Traversal) :
  rounds_left ix (explore g ix include_content rts cur depth st)
  <= rounds_left ix st.
Proof.
  unfold explore.
  apply (fold_left_invariant
           (fun st' => rounds_left ix st' <= rounds_left ix st)); [| lia].
  intros st1 rt _ H1. unfold explore_type.
  apply (fold_left_invariant
           (fun st' => rounds_left ix st' <= rounds_left ix st)); [| assumption].
  intros st2 y Hy H2.
  pose proof (visit_rounds_left depth rt st2 y (related_in_targets _ _ _ _ Hy)).
  lia.
Qed.

(** With a round for every entry that can still be queued, the loop runs
    until the queue is empty, and keeps what every round keeps. *)
Lemma traverse_completes (P : Traversal -> Prop) (rts : list string)
    (max_depth : Z) :
  (forall st rest, P st -> P (pop st rest)) ->
  (forall st cur depth, P st ->
                        P (explore g ix include_content rts cur depth st)) ->
  forall fuel st,
    rounds_left ix st <= fuel -> P st ->
    exists st', traverse g ix include_content rts max_depth fuel st = Some st'
                /\ P st' /\ queue st' = [].
Proof.
  intros Hpop Hexp. induction fuel as [| fuel IH]; intros st Hfuel HP.
  - unfold rounds_left in Hfuel. simpl.
    destruct (queue st) as [| q rest] eqn:Hq; [| simpl in Hfuel; lia].
    exists st. auto.
  - simpl. destruct (queue st) as [| [[cur depth] from] rest] eqn:Hq.
    + exists st. auto.
    + assert (Hp : rounds_left ix (pop st rest) <= fuel).
      { unfold rounds_left in *. rewrite Hq in Hfuel. simpl in *. lia. }
      destruct (depth >=? max_depth)%Z.
      * apply IH; [assumption | now apply Hpop].
      * apply IH; [| apply Hexp; now apply Hpop].
        pose proof (explore_rounds_left rts cur depth (pop st rest)). lia.
Qed.

End Rounds.

(** Claim C9.  On every graph and every relation index, cyclic or not,
    [expand_context] returns: the rounds allowed to the loop always empty
    the queue.  In a successful result no concept is listed twice across
    the direct and transitive relation lists, and the focus is not listed
    at all; only the visited set is used for this. *)
Theorem C9_expand_context_terminates_without_repeats
    (g : NX.DiGraph) (ix : Indexer.Indexes) (concept_id : string)
    (relation_types : option (list string)) (max_depth : Z)
    (include_content : bool) :
  exists result,
    Query.expand_context g ix concept_id relation_types max_depth
                         include_content = Some result /\
    match result with
    | Query.ExpandError _ => Query.get_concept g concept_id = None \/
                             Query.get_concept g concept_id = Some None
    | Query.ExpandOk _ direct_relations transitive_relations _ =>
        NoDup (listed direct_relations ++ listed transitive_relations) /\
        ~ In concept_id (listed direct_relations ++ listed transitive_relations)
    end.
Proof.
  unfold Query.expand_context.
  set (rts := match relation_types with
              | Some l => l
              | None => Query.default_relation_types
              end).
  destruct (Query.get_concept g concept_id) as [[focus |] |] eqn:Hfocus.
  - set (st0 := {| Query.visited := [concept_id];
                   Query.direct := Query.empty_lists rts;
                   Query.transitive := Query.empty_lists rts;
                   Query.notes := [];
                   Query.queue := [(concept_id, 0%Z, None)] |}).
    assert (Hempty : listed (Query.empty_lists rts) = []).
    { unfold Query.empty_lists.
      apply (fold_left_invariant (fun d => listed d = [])); [| reflexivity].
      intros d rt _ Hd. clear - Hd. unfold listed in *.
      induction d as [| [k v] d IH]; simpl; [reflexivity |].
      simpl in Hd. apply app_eq_nil in Hd. destruct Hd as [Hv Hd].
      destruct (String.eqb rt k); simpl; [assumption |].
      rewrite Hv. now apply IH. }
    destruct (traverse_completes g ix include_content
                (recorded_once concept_id) rts max_depth) with
      (fuel := Query.rounds ix) (st := st0) as [st [Hst [Hinv _]]].
    + intros st rest H. exact H.
    + intros st cur depth H. now apply explore_recorded_once.
    + unfold rounds_left, Query.rounds, st0. simpl.
      pose proof (filter_length_le
                    (fun y => negb (mem y [concept_id])) (Query.index_targets ix)).
      unfold unvisited. lia.
    + unfold recorded_once, recorded, st0. simpl. rewrite Hempty. simpl.
      repeat split; [constructor | intros z [] | now left | intros []].
    + rewrite Hst. eexists. split; [reflexivity |].
      destruct Hinv as (Hnd & _ & _ & Hnx). split; assumption.
  - eexists. split; [reflexivity |]. now right.
  - eexists. split; [reflexivity |]. now left.
Qed.

Section TraversalSteps.

Import Query.

Variables (g : NX.DiGraph) (ix : Indexer.Indexes) (include_content : bool).
Variables (rts : list string) (max_depth : Z).

Lemma traverse_done (fuel : nat) (st : Traversal) :
  queue st = [] ->
  traverse g ix include_content rts max_depth fuel st = Some st.
Proof. intros Hq. destruct fuel; simpl; now rewrite Hq. Qed.

(** The loop again, with what a round keeps stated for the entry it takes
    off the queue. *)
Lemma traverse_keeps (P : Traversal -> Prop) :
  (forall st cur depth from rest,
      queue st = (cur, depth, from) :: rest -> P st ->
      P (pop st rest) /\
      ((depth >=? max_depth)%Z = false ->
       P (explore g ix include_content rts cur depth (pop st rest)))) ->
  forall fuel st,
    rounds_left ix st <= fuel -> P st ->
    exists st', traverse g ix include_content rts max_depth fuel st = Some st'
                /\ P st'.
Proof.
  intros Hstep. induction fuel as [| fuel IH]; intros st Hfuel HP.
  - unfold rounds_left in Hfuel. simpl.
    destruct (queue st) as [| q rest] eqn:Hq; [| simpl in Hfuel; lia].
    exists st. auto.
  - simpl. destruct (queue st) as [| [[cur depth] from] rest] eqn:Hq.
    + exists st. auto.
    + assert (Hp : rounds_left ix (pop st rest) <= fuel).
      { unfold rounds_left in *. rewrite Hq in Hfuel. simpl in *. lia. }
      destruct (Hstep st cur depth from rest Hq HP) as [H1 H2].
      destruct (depth >=? max_depth)%Z.
      * now apply IH.
      * apply IH; [| now apply H2].
        pose proof (explore_rounds_left g ix include_content rts cur depth
                      (pop st rest)). lia.
Qed.

Lemma visit_deeper_keeps_direct (depth : Z) (rt : string) (st : Traversal)
    (y : string) :
  (depth <> 0)%Z ->
  direct (visit g include_content depth rt st y) = direct st.
Proof.
  intros Hd. unfold visit. destruct (mem y (visited st)); [reflexivity |].
  destruct (get_concept g y) as [[d |] |]; simpl; try reflexivity.
  destruct (Z.eqb_spec depth 0); [contradiction | reflexivity].
Qed.

Lemma visit_first_keeps_transitive (rt : string) (st : Traversal) (y : string) :
  transitive (visit g include_content 0 rt st y) = transitive st.
Proof.
  unfold visit. destruct (mem y (visited st)); [reflexivity |].
  destruct (get_concept g y) as [[d |] |]; reflexivity.
Qed.

Lemma visit_queue_depth (lo depth : Z) (rt : string) (st : Traversal)
    (y : string) :
  (lo <= depth + 1)%Z ->
  Forall (fun q => (lo <= snd (fst q))%Z) (queue st) ->
  Forall (fun q => (lo <= snd (fst q))%Z)
         (queue (visit g include_content depth rt st y)).
Proof.
  intros Hlo Hq. unfold visit. destruct (mem y (visited st)); [assumption |].
  destruct (get_concept g y) as [[d |] |]; simpl; try assumption.
  apply Forall_app. split; [assumption |]. constructor; [assumption | constructor].
Qed.

(** Once every queued entry is at depth one or more, the direct relations
    stay as they are. *)
Lemma traverse_keeps_direct (fuel : nat) (st : Traversal) :
  rounds_left ix st <= fuel ->
  Forall (fun q => (1 <= snd (fst q))%Z) (queue st) ->
  exists st', traverse g ix include_content rts max_depth fuel st = Some st' /\
              direct st' = direct st /\
              (max_depth = 1%Z -> transitive st' = transitive st).
Proof.
  intros Hfuel Hq.
  destruct (traverse_keeps
              (fun st' => direct st' = direct st /\
                          (max_depth = 1%Z -> transitive st' = transitive st) /\
                          Forall (fun q => (1 <= snd (fst q))%Z) (queue st')))
    with (fuel := fuel) (st := st) as [st' [Hst' HP]]; auto.
  - intros st1 cur depth from rest Hq1 (Hd & Ht & Hf).
    rewrite Hq1 in Hf. inversion Hf as [| ? ? Hcur Hrest]; subst. simpl in Hcur.
    split; [simpl; auto |].
    intros Hdepth. unfold explore.
    apply (fold_left_invariant
             (fun s => direct s = direct st /\
                       (max_depth = 1%Z -> transitive s = transitive st) /\
                       Forall (fun q => (1 <= snd (fst q))%Z) (queue s)));
      [| simpl; auto].
    intros s1 rt _ Hs1. unfold explore_type.
    apply (fold_left_invariant
             (fun s => direct s = direct st /\
                       (max_depth = 1%Z -> transitive s = transitive st) /\
                       Forall (fun q => (1 <= snd (fst q))%Z) (queue s)));
      [| assumption].
    intros s2 y _ (Hd2 & Ht2 & Hf2). split; [| split].
    + rewrite visit_deeper_keeps_direct by lia. assumption.
    + intros Hm. subst max_depth. rewrite Z.geb_leb in Hdepth.
      apply Z.leb_gt in Hdepth. lia.
    + apply visit_queue_depth; [lia | assumption].
  - exists st'. tauto.
Qed.

End TraversalSteps.

Section Dictionaries.

Import Query.

Lemma has_key_assoc_set {A : Type} (k k' : string) (v : A)
    (d : list (string * A)) :
  has_key k (assoc_set k' v d) = String.eqb k k' || has_key k d.
Proof.
  unfold has_key. rewrite assoc_assoc_set.
  destruct (String.eqb k k'); reflexivity.
Qed.

Lemma has_key_empty_lists (rts : list string) (k : string) :
  has_key k (empty_lists rts) = mem k rts.
Proof.
  unfold empty_lists.
  assert (H : forall d : list (string * list Summary),
             has_key k (fold_left (fun d rt => assoc_set rt [] d) rts d)
             = has_key k d || mem k rts).
  { induction rts as [| rt l IH]; intros d; simpl.
    - now rewrite orb_false_r.
    - rewrite IH, has_key_assoc_set.
      destruct (String.eqb k rt), (has_key k d); reflexivity. }
  now rewrite H.
Qed.

Lemma listed_empty_lists (rts : list string) : listed (empty_lists rts) = [].
Proof.
  unfold empty_lists.
  apply (fold_left_invariant (fun d => listed d = [])); [| reflexivity].
  intros d rt _ Hd. unfold listed in *.
  induction d as [| [k v] d IH]; simpl; [reflexivity |].
  simpl in Hd. apply app_eq_nil in Hd. destruct Hd as [Hv Hd].
  destruct (String.eqb rt k); simpl; [assumption |].
  rewrite Hv. now apply IH.
Qed.

Lemma listed_under_listed (rt y : string) (d : list (string * list Summary)) :
  In y (listed_under rt d) -> In y (listed d).
Proof.
  unfold listed_under, listed. destruct (assoc rt d) as [l |] eqn:E;
    [| contradiction].
  intros Hy. apply in_flat_map. exists (rt, l). split; [now apply assoc_In |].
  assumption.
Qed.

Lemma listed_under_empty_lists (rts : list string) (rt : string) :
  listed_under rt (empty_lists rts) = [].
Proof.
  destruct (listed_under rt (empty_lists rts)) as [| y l] eqn:E; [reflexivity |].
  assert (H : In y (listed (empty_lists rts))).
  { apply (listed_under_listed rt). rewrite E. now left. }
  rewrite listed_empty_lists in H. contradiction.
Qed.

Lemma has_key_dict_append {A : Type} (k k' : string) (x : A)
    (d : list (string * list A)) :
  has_key k (dict_append k' x d) = has_key k d.
Proof.
  unfold dict_append. destruct (assoc k' d) as [l |] eqn:E; [| reflexivity].
  rewrite has_key_assoc_set.
  destruct (String.eqb_spec k k') as [-> | _]; [| reflexivity].
  unfold has_key. now rewrite E.
Qed.

Lemma listed_under_dict_append (rt k : string) (s : Summary)
    (d : list (string * list Summary)) :
  listed_under rt (dict_append k s d) =
  if has_key k d && String.eqb rt k
  then listed_under rt d ++ [sum_id s]
  else listed_under rt d.
Proof.
  unfold dict_append, listed_under, has_key.
  destruct (assoc k d) as [l |] eqn:E; simpl; [| reflexivity].
  rewrite assoc_assoc_set.
  destruct (String.eqb_spec rt k) as [-> | _]; [| reflexivity].
  rewrite E, map_app. reflexivity.
Qed.

End Dictionaries.

(** ** The first round of the traversal, on a fresh index *)

Section FirstRound.

Import Query.

Variables (g : NX.DiGraph) (include_content : bool).
Variables (rts : list string) (x : string).
Hypothesis Hg : concept_graph g = true.

Lemma concept_graph_well_formed : well_formed g = true.
Proof. unfold concept_graph in Hg. now apply andb_true_iff in Hg. Qed.

Lemma concept_graph_attrs (y : string) :
  NX.has_node g y = true -> exists d, get_concept g y = Some (Some d).
Proof.
  unfold concept_graph in Hg. apply andb_true_iff in Hg. destruct Hg as [_ Ha].
  unfold NX.has_node, get_concept. intros Hy.
  destruct (NX.find_node g y) as [n |] eqn:En; [| discriminate].
  apply find_node_id in En. destruct En as [_ Hin].
  rewrite forallb_forall in Ha. specialize (Ha n Hin).
  destruct (NX.node_attrs n) as [d |]; [now exists d | discriminate].
Qed.

Lemma related_is_concept (cur rt y : string) :
  In y (Indexer.get_related_concepts (Indexer._build_indexes g) cur rt) ->
  exists d, get_concept g y = Some (Some d).
Proof.
  intros Hy. apply fresh_index_spec in Hy; [| apply concept_graph_well_formed].
  destruct Hy as [He _]. apply concept_graph_attrs.
  exact (well_formed_joins g concept_graph_well_formed _ _ _ He).
Qed.

Lemma related_one_type (cur rt rt' y : string) :
  In y (Indexer.get_related_concepts (Indexer._build_indexes g) cur rt) ->
  In y (Indexer.get_related_concepts (Indexer._build_indexes g) cur rt') -> rt = rt'.
Proof.
  intros H1 H2.
  apply fresh_index_spec in H1; [| apply concept_graph_well_formed].
  apply fresh_index_spec in H2; [| apply concept_graph_well_formed].
  destruct H1 as [H1 _], H2 as [H2 _]. congruence.
Qed.

Lemma visit_first_round (T0 : list (string * list Summary)) (rt y : string)
    (st : Traversal) :
  In rt rts -> In y (Indexer.get_related_concepts (Indexer._build_indexes g) x rt) ->
  first_round g rts x T0 st ->
  first_round g rts x T0 (visit g include_content 0 rt st y).
Proof.
  intros Hrt Hy (Hx & Hk & Hsound & Hall & Ht & Hq).
  assert (Hq' : Forall (fun q => (1 <= snd (fst q))%Z)
                       (queue (visit g include_content 0 rt st y)))
    by (apply visit_queue_depth; [lia | assumption]).
  assert (Ht' : transitive (visit g include_content 0 rt st y) = T0)
    by (now rewrite visit_first_keeps_transitive).
  revert Hq' Ht'. unfold visit.
  destruct (mem y (visited st)) eqn:Hm;
    [intros; exact (conj Hx (conj Hk (conj Hsound (conj Hall (conj Ht Hq))))) |].
  apply mem_false_In in Hm.
  destruct (related_is_concept x rt y Hy) as [d Hd]. rewrite Hd.
  change (0 =? 0)%Z with true. cbv iota.
  intros Hq' Ht'. unfold first_round. cbn [visited direct transitive queue].
  assert (Hyx : y <> x) by (intros ->; contradiction).
  assert (Hlu : forall rt' z,
             In z (listed_under rt'
                     (dict_append rt {| sum_id := y;
                                        sum_prefLabel := nd_prefLabel d;
                                        sum_definition := nd_definition d |}
                                  (direct st))) <->
             In z (listed_under rt' (direct st)) \/ (rt' = rt /\ z = y)).
  { intros rt' z. rewrite listed_under_dict_append, (Hk rt Hrt). simpl.
    destruct (String.eqb_spec rt' rt) as [-> | Hne].
    - rewrite in_app_iff. simpl. intuition congruence.
    - intuition congruence. }
  split; [now right |].
  split; [intros rt' Hrt'; rewrite has_key_dict_append; now apply Hk |].
  split.
  { intros rt' z Hz. apply Hlu in Hz. destruct Hz as [Hz | [-> ->]].
    - now apply Hsound.
    - auto. }
  split.
  { intros z [<- | Hz].
    - right. exists rt. apply Hlu. now right.
    - destruct (Hall z Hz) as [-> | [rt' Hrt']]; [now left |].
      right. exists rt'. apply Hlu. now left. }
  split; assumption.
Qed.

End FirstRound.

Section Coverage.

Import Query.

Variables (g : NX.DiGraph) (ix : Indexer.Indexes) (include_content : bool).

Lemma fold_left_covers {A B : Type} (Q : B -> A -> Prop) (f : A -> B -> A)
    (l : list B) :
  (forall a x, In x l -> Q x (f a x)) ->
  (forall a x y, Q x a -> Q x (f a y)) ->
  forall a x, In x l -> Q x (fold_left f l a).
Proof.
  induction l as [| z l IH]; intros Hdo Hkeep a x Hx; simpl; [contradiction |].
  destruct Hx as [-> | Hx].
  - apply (fold_left_invariant (Q x)).
    + intros a' y _. apply Hkeep.
    + apply Hdo. now left.
  - apply IH; [| assumption | assumption].
    intros a' x' Hx'. apply Hdo. now right.
Qed.

Lemma visit_visits (depth : Z) (rt : string) (st : Traversal) (y : string) :
  In y (visited (visit g include_content depth rt st y)).
Proof.
  unfold visit. destruct (mem y (visited st)) eqn:Hm; [now apply mem_In |].
  destruct (get_concept g y) as [[d |] |]; simpl; now left.
Qed.

Lemma visit_grows (depth : Z) (rt : string) (st : Traversal) (y z : string) :
  In z (visited st) -> In z (visited (visit g include_content depth rt st y)).
Proof.
  intros Hz. unfold visit. destruct (mem y (visited st)); [assumption |].
  destruct (get_concept g y) as [[d |] |]; simpl; now right.
Qed.

Lemma explore_type_grows (cur : string) (depth : Z) (st : Traversal)
    (rt z : string) :
  In z (visited st) ->
  In z (visited (explore_type g ix include_content cur depth st rt)).
Proof.
  unfold explore_type. apply (fold_left_invariant (fun s => In z (visited s))).
  intros s y _. apply visit_grows.
Qed.

Lemma explore_covers (rts : list string) (cur : string) (depth : Z)
    (st : Traversal) (rt y : string) :
  In rt rts -> In y (Indexer.get_related_concepts ix cur rt) ->
  In y (visited (explore g ix include_content rts cur depth st)).
Proof.
  intros Hrt Hy. unfold explore.
  apply (fold_left_covers
           (fun rt' s => forall z,
                In z (Indexer.get_related_concepts ix cur rt') ->
                In z (visited s))) with (x := rt); try assumption.
  - intros s rt' _ z Hz. unfold explore_type.
    apply (fold_left_covers (fun z' s' => In z' (visited s'))); try assumption.
    + intros s' z' _. apply visit_visits.
    + intros s' z' y' Hz'. now apply visit_grows.
  - intros s rt' rt'' H z Hz. apply explore_type_grows. now apply H.
Qed.

End Coverage.

Section ExpandContext.

Import Query.

Variables (g : NX.DiGraph) (include_content : bool).
Variables (rts : list string) (x : string).

Lemma traverse_round (ix : Indexer.Indexes) (max_depth : Z) (fuel : nat)
    (st : Traversal) (cur : string) (depth : Z) (from : option string)
    (rest : list (string * Z * option string)) :
  queue st = (cur, depth, from) :: rest ->
  traverse g ix include_content rts max_depth (S fuel) st =
  if (depth >=? max_depth)%Z
  then traverse g ix include_content rts max_depth fuel (pop st rest)
  else traverse g ix include_content rts max_depth fuel
                (explore g ix include_content rts cur depth (pop st rest)).
Proof. intros Hq. simpl. now rewrite Hq. Qed.

Lemma first_round_start (Hg : concept_graph g = true) :
  first_round g rts x (empty_lists rts) (pop (start rts x) []).
Proof.
  unfold first_round, start. cbn [pop visited direct transitive queue].
  split; [now left |].
  split; [intros rt Hrt; rewrite has_key_empty_lists; now apply mem_In |].
  split; [intros rt y Hy; rewrite listed_under_empty_lists in Hy; contradiction |].
  split; [intros y [<- | []]; now left |].
  split; [reflexivity | constructor].
Qed.

Lemma rounds_left_start (ix : Indexer.Indexes) (st : Traversal) :
  rounds_left ix st <= rounds_left ix (pop (start rts x) []) ->
  rounds_left ix st <= length (index_targets ix).
Proof.
  intros H. unfold rounds_left at 2 in H. unfold start in H.
  cbn [pop visited queue length] in H.
  pose proof (filter_length_le (fun y => negb (mem y [x])) (index_targets ix)).
  unfold unvisited in H. lia.
Qed.

End ExpandContext.

(** Claim C3, as amended.  For a concept [x] of a graph whose index has
    been rebuilt: with [max_depth = 0] every direct and transitive list is
    empty; with [max_depth = 1], and for any larger depth too, the direct
    relations under each configured relation type are exactly the
    successors the relation index gives for [x] under that type, other than
    [x] itself, and with [max_depth = 1] the transitive lists are empty; a
    newly visited concept goes to the direct lists when the entry being
    expanded has depth 0 and to the transitive lists at any other depth. *)
Theorem C3_expand_context_by_depth
    (g : NX.DiGraph) (x : string) (relation_types : option (list string))
    (include_content : bool) :
  concept_graph g = true ->
  NX.has_node g x = true ->
  let ix := Indexer._build_indexes g in
  let rts := match relation_types with
             | Some l => l
             | None => Query.default_relation_types
             end in
  (exists focus notes,
      Query.expand_context g ix x relation_types 0 include_content =
      Some (Query.ExpandOk focus (Query.empty_lists rts)
                           (Query.empty_lists rts) notes) /\
      listed (Query.empty_lists rts) = []) /\
  (forall max_depth, (1 <= max_depth)%Z ->
     exists focus dr tr notes,
       Query.expand_context g ix x relation_types max_depth include_content =
       Some (Query.ExpandOk focus dr tr notes) /\
       (forall rt y,
           In y (listed_under rt dr) <->
           In rt rts /\ In y (Indexer.get_related_concepts ix x rt) /\ y <> x) /\
       (max_depth = 1%Z -> tr = Query.empty_lists rts)) /\
  (forall depth rt st y d,
      mem y (Query.visited st) = false ->
      Query.get_concept g y = Some (Some d) ->
      let s := {| Query.sum_id := y;
                  Query.sum_prefLabel := nd_prefLabel d;
                  Query.sum_definition := nd_definition d |} in
      let st' := Query.visit g include_content depth rt st y in
      (depth = 0%Z ->
       Query.direct st' = Query.dict_append rt s (Query.direct st) /\
       Query.transitive st' = Query.transitive st) /\
      (depth <> 0%Z ->
       Query.direct st' = Query.direct st /\
       Query.transitive st' = Query.dict_append rt s (Query.transitive st))).
Proof.
  intros Hg Hx ix rts.
  destruct (concept_graph_attrs g Hg x Hx) as [focus Hfocus].
  split; [| split].
  - unfold Query.expand_context. fold rts. rewrite Hfocus. unfold Query.rounds.
    fold (start rts x).
    rewrite (traverse_round g include_content rts ix 0 _ (start rts x)
               x 0%Z None []) by reflexivity.
    change (0 >=? 0)%Z with true. cbv iota.
    rewrite traverse_done by reflexivity.
    eexists. eexists. split; [reflexivity | apply listed_empty_lists].
  - intros max_depth Hdepth.
    unfold Query.expand_context. fold rts. rewrite Hfocus. unfold Query.rounds.
    fold (start rts x).
    rewrite (traverse_round g include_content rts ix max_depth _ (start rts x)
               x 0%Z None []) by reflexivity.
    replace (0 >=? max_depth)%Z with false
      by (symmetry; rewrite Z.geb_leb; apply Z.leb_gt; lia).
    set (st1 := Query.explore g ix include_content rts x 0
                              (Query.pop (start rts x) [])).
    assert (H1 : first_round g rts x (Query.empty_lists rts) st1).
    { unfold st1, Query.explore.
      apply (fold_left_invariant (first_round g rts x (Query.empty_lists rts)));
        [| now apply first_round_start].
      intros s rt Hrt Hs. unfold Query.explore_type.
      apply (fold_left_invariant (first_round g rts x (Query.empty_lists rts)));
        [| assumption].
      intros s' y Hy Hs'. now apply visit_first_round. }
    destruct H1 as (_ & _ & Hsound & Hall & Ht & Hq).
    destruct (traverse_keeps_direct g ix include_content rts max_depth
                (length (Query.index_targets ix)) st1) as [st' [Hst' [Hd' Ht']]].
    + apply (rounds_left_start rts x). unfold st1.
      apply explore_rounds_left.
    + assumption.
    + rewrite Hst'. do 4 eexists. split; [reflexivity |]. split.
      * intros rt y. rewrite Hd'. split; [apply Hsound |].
        intros (Hrt & Hy & Hyx).
        assert (Hv : In y (Query.visited st1))
          by (unfold st1; now apply explore_covers with (rt := rt)).
        destruct (Hall y Hv) as [E | [rt' Hrt']]; [contradiction |].
        destruct (Hsound rt' y Hrt') as (_ & Hy' & _).
        now rewrite (related_one_type g Hg x rt rt' y Hy Hy').
      * intros Hm. rewrite (Ht' Hm). exact Ht.
  - intros depth rt st y d Hm Hd s st'. unfold st', Query.visit.
    rewrite Hm, Hd. cbn [Query.direct Query.transitive].
    split; intros Hz.
    + subst depth. split; reflexivity.
    + destruct (Z.eqb_spec depth 0); [contradiction |]. split; reflexivity.
Qed.

Lemma C3_expand_context_by_depth_witness :
  let g := Builder.build_graph NX.empty
             [concept "ml" "Machine Learning" [] ["regression"] ["stats"] [];
              concept "regression" "Regression" ["ml"] [] [] [];
              concept "stats" "Statistics" [] [] [] []] in
  exists focus notes,
    Query.expand_context g (Indexer._build_indexes g) "ml" None 0 true =
    Some (Query.ExpandOk focus
            (Query.empty_lists Query.default_relation_types)
            (Query.empty_lists Query.default_relation_types) notes) /\
    listed (Query.empty_lists Query.default_relation_types) = [].
Proof.
  intros g.
  exact (proj1 (C3_expand_context_by_depth g "ml" None true eq_refl eq_refl)).
Defined.

(** The claim as stated fails at a concept that lists itself: the index has
    the concept among its own successors, the traversal never records the
    focus. *)
Lemma C3_counterexample :
  ~ direct_is_successor_set
      (Builder.build_graph NX.empty [concept "x" "X" [] [] ["x"] []])
      "x" ["related"].
Proof.
  intros H.
  destruct (H {| Query.focus_id := "x"; Query.focus_uri := "";
                 Query.focus_prefLabel := "X"; Query.focus_definition := None;
                 Query.focus_file_path := ""; Query.focus_content := None |}
              [("related", [])] [("related", [])] None) as [Hd _].
  - vm_compute. reflexivity.
  - specialize (Hd "related" "x" (or_introl eq_refl)).
    destruct Hd as [_ Hd].
    assert (Hin : In "x" (listed_under "related"
                            [("related", @nil Query.Summary)])).
    { apply Hd. vm_compute. left. reflexivity. }
    vm_compute in Hin. exact Hin.
Qed.

(** ** Malformed arguments *)

Section Malformed.

Import Query.

Lemma malformed_lookup (g0 : NX.DiGraph) (cid rt : string) :
  well_named rt = false ->
  Indexer.get_related_concepts (Indexer._build_indexes g0) cid rt = [].
Proof.
  intros Hrt. rewrite get_related_concepts_lookup, index_lookup_built.
  rewrite filter_none; [reflexivity |].
  intros [[s t] r] _. unfold indexed_under. simpl.
  rewrite has_key_empty_index.
  destruct (String.eqb_spec rt r) as [<- | _].
  - now rewrite Hrt.
  - now rewrite andb_false_r.
Qed.

Lemma explore_malformed (g g0 : NX.DiGraph) (include_content : bool)
    (rts : list string) (cur : string) (depth : Z) (st : Traversal) :
  (forall rt, In rt rts -> well_named rt = false) ->
  explore g (Indexer._build_indexes g0) include_content rts cur depth st = st.
Proof.
  intros Hrts. unfold explore.
  apply (fold_left_invariant (fun s => s = st)); [| reflexivity].
  intros s rt Hrt ->. unfold explore_type.
  now rewrite (malformed_lookup g0 cur rt (Hrts rt Hrt)).
Qed.

End Malformed.

(** Claim C6, as amended.  The query operations have no InvalidArgument
    outcome.  On an index built by the indexer a relation type name outside
    the four known ones gets the empty list from [get_related_concepts];
    and [expand_context] on an existing concept, called with a negative
    depth or with malformed relation type names only, returns an ordinary
    success result in which every direct and transitive list is empty and
    no context note is collected. *)
Theorem C6_malformed_arguments_give_empty_success
    (g g0 : NX.DiGraph) (x : string) (rts : list string) (max_depth : Z)
    (include_content : bool) (focus : NodeData) :
  Query.get_concept g x = Some (Some focus) ->
  let ix := Indexer._build_indexes g0 in
  (forall rt cid, well_named rt = false ->
                  Indexer.get_related_concepts ix cid rt = []) /\
  ((max_depth < 0)%Z \/ (forall rt, In rt rts -> well_named rt = false) ->
   exists f,
     Query.expand_context g ix x (Some rts) max_depth include_content =
     Some (Query.ExpandOk f (Query.empty_lists rts) (Query.empty_lists rts)
                          (if include_content then Some [] else None)) /\
     listed (Query.empty_lists rts) = []).
Proof.
  intros Hfocus ix. split.
  - intros rt cid Hrt. now apply malformed_lookup.
  - intros Hbad. unfold Query.expand_context. rewrite Hfocus.
    unfold Query.rounds. fold (start rts x).
    rewrite (traverse_round g include_content rts ix max_depth _ (start rts x)
               x 0%Z None []) by reflexivity.
    assert (Hrun :
              (if (0 >=? max_depth)%Z
               then Query.traverse g ix include_content rts max_depth
                      (length (Query.index_targets ix))
                      (Query.pop (start rts x) [])
               else Query.traverse g ix include_content rts max_depth
                      (length (Query.index_targets ix))
                      (Query.explore g ix include_content rts x 0
                                     (Query.pop (start rts x) [])))
              = Some (Query.pop (start rts x) [])).
    { destruct (0 >=? max_depth)%Z eqn:Hd.
      - now apply traverse_done.
      - destruct Hbad as [Hneg | Hrts].
        + rewrite Z.geb_leb in Hd. apply Z.leb_gt in Hd. lia.
        + unfold ix. rewrite explore_malformed by assumption.
          now apply traverse_done. }
    rewrite Hrun. cbn [Query.pop Query.direct Query.transitive Query.notes start].
    eexists. split; [reflexivity | apply listed_empty_lists].
Qed.

Lemma C6_malformed_arguments_give_empty_success_witness :
  let g := Builder.build_graph NX.empty
             [concept "a" "A" ["b"] [] [] []; concept "b" "B" [] [] [] []] in
  exists f,
    Query.expand_context g (Indexer._build_indexes g) "a" (Some ["sibling"]) 2
                         true =
    Some (Query.ExpandOk f [("sibling", [])] [("sibling", [])] (Some [])).
Proof.
  intros g.
  destruct (C6_malformed_arguments_give_empty_success
              g g "a" ["sibling"] 2 true (to_dict (concept "a" "A" ["b"] [] [] []))
              eq_refl) as [_ H].
  destruct H as [f [Hf _]].
  - right. intros rt [<- | []]. reflexivity.
  - exists f. exact Hf.
Defined.

(** The claim as stated fails for a negative depth together with an unknown
    relation type name: the call succeeds with empty lists. *)
Lemma C6_counterexample :
  ~ invalid_argument_reported
      (Builder.build_graph NX.empty
         [concept "a" "A" ["b"] [] [] []; concept "b" "B" [] [] [] []])
      (Indexer._build_indexes
         (Builder.build_graph NX.empty
            [concept "a" "A" ["b"] [] [] []; concept "b" "B" [] [] [] []]))
      "a" ["sibling"] (-1) true.
Proof.
  intros H. destruct H as [error He].
  - left. reflexivity.
  - vm_compute in He. discriminate He.
Qed.

Lemma C10_relation_index_lists_have_no_duplicates_witness :
  let g := Builder.build_graph NX.empty
             [concept "a" "A" ["b"; "c"; "b"] [] [] [];
              concept "b" "B" [] [] [] []; concept "c" "C" ["b"] ["a"] [] []] in
  NoDup (Indexer.get_related_concepts
           (Indexer.rebuild_indexes g (Indexer._build_indexes NX.empty))
           "a" "broader").
Proof.
  intros g.
  apply (C10_relation_index_lists_have_no_duplicates g _ "broader" "a").
  reflexivity.
Defined.

(** ** Shortest paths *)

Section ShortestPath.

Import NX.

Variable g : DiGraph.

Lemma adjacent_sym (u v : string) : adjacent g u v = adjacent g v u.
Proof. unfold adjacent. apply orb_comm. Qed.

Lemma adjacent_nodes (u v : string) :
  edges_join_nodes g -> adjacent g u v = true ->
  In u (nodes g) /\ In v (nodes g).
Proof.
  intros Hg. unfold adjacent, has_edge. intros H.
  apply orb_true_iff in H. destruct H as [H | H].
  - destruct (edge_rel g u v) as [r |] eqn:E; [| discriminate].
    split; apply has_node_In;
      [exact (edge_rel_source _ _ _ _ E) | exact (Hg _ _ _ E)].
  - destruct (edge_rel g v u) as [r |] eqn:E; [| discriminate].
    split; apply has_node_In;
      [exact (Hg _ _ _ E) | exact (edge_rel_source _ _ _ _ E)].
Qed.

Lemma linked_snoc (l : list string) (u n : string) :
  linked g (l ++ [u]) -> adjacent g u n = true -> linked g ((l ++ [u]) ++ [n]).
Proof.
  induction l as [| a l IH]; simpl; intros Hl Ha.
  - auto.
  - destruct l as [| b l]; simpl in *.
    + destruct Hl as [Hab _]. auto.
    + destruct Hl as [Hab Hl]. split; [assumption |]. now apply IH.
Qed.

Lemma hd_error_snoc (l : list string) (u n : string) :
  hd_error ((l ++ [u]) ++ [n]) = hd_error (l ++ [u]).
Proof. destruct l; reflexivity. Qed.

Lemma last_nonempty (l : list string) (x d d' : string) :
  last (x :: l) d = last (x :: l) d'.
Proof.
  revert x. induction l as [| y l IH]; intros x; [reflexivity |].
  change (last (y :: l) d = last (y :: l) d'). apply IH.
Qed.

Lemma walk_connected (p : list string) (a b : string) :
  walk g a b p -> connected g a b.
Proof.
  revert a. induction p as [| u p IH]; intros a (Hh & Hl & Hk).
  - discriminate Hh.
  - simpl in Hh. injection Hh as ->.
    destruct p as [| v p].
    + simpl in Hl. subst b. constructor.
    + destruct Hk as [Hav Hk]. apply connected_step with (v := v);
        [assumption |].
      apply IH. repeat split; [| assumption].
      change (last (a :: v :: p) a) with (last (v :: p) a) in Hl.
      rewrite <- Hl. apply last_nonempty.
Qed.

Variables s t : string.

Lemma bfs_sound (fuel : nat) :
  forall unseen queue p,
    paths_from g s queue -> bfs g t fuel unseen queue = Some p -> walk g s t p.
Proof.
  induction fuel as [| fuel IH]; intros unseen queue p Hq Hb; simpl in Hb;
    [discriminate |].
  destruct queue as [| [| u p0] rest]; [discriminate | |].
  - apply (IH unseen rest); [| assumption].
    intros q Hin. apply Hq. now right.
  - destruct (String.eqb_spec u t) as [-> | Hut].
    + injection Hb as <-. destruct (Hq (t :: p0) (or_introl eq_refl)) as [Hh Hl].
      repeat split; try assumption.
      simpl. apply last_last.
    + apply (IH _ _ p) in Hb; [assumption |].
      intros q Hin. apply in_app_or in Hin. destruct Hin as [Hin | Hin].
      * apply Hq. now right.
      * apply in_map_iff in Hin. destruct Hin as [n [<- Hn]].
        apply filter_In in Hn. destruct Hn as [_ Hadj].
        destruct (Hq (u :: p0) (or_introl eq_refl)) as [Hh Hl].
        simpl in *. split.
        -- now rewrite hd_error_snoc.
        -- now apply linked_snoc.
Qed.

Hypothesis Hg : edges_join_nodes g.

Lemma closed_excludes_target (unseen : list string) (u w : string) :
  frontier_closed g t unseen [] ->
  connected g u w -> In u (nodes g) -> ~ In u unseen -> w <> t.
Proof.
  intros Hc Hconn. induction Hconn as [u | u v w Hadj _ IH]; intros Hu Hun.
  - destruct (Hc u Hu Hun) as [[q [[] _]] | [Hne _]]. assumption.
  - destruct (Hc u Hu Hun) as [[q [[] _]] | [_ Hall]].
    apply IH; [| now apply Hall].
    now destruct (adjacent_nodes u v Hg Hadj).
Qed.

Lemma filter_split_length {A : Type} (f : A -> bool) (l : list A) :
  length (filter f l) + length (filter (fun x => negb (f x)) l) = length l.
Proof.
  induction l as [| x l IH]; simpl; [reflexivity |].
  destruct (f x); simpl; lia.
Qed.

Lemma bfs_complete (fuel : nat) :
  forall unseen queue,
    length unseen + length queue <= fuel ->
    frontier_closed g t unseen queue ->
    In s (nodes g) -> ~ In s unseen ->
    bfs g t fuel unseen queue = None -> ~ connected g s t.
Proof.
  induction fuel as [| fuel IH]; intros unseen queue Hfuel Hc Hs Hsu Hb Hconn.
  - destruct queue as [| q rest]; [| simpl in Hfuel; lia].
    now apply (closed_excludes_target unseen s t Hc Hconn Hs Hsu).
  - simpl in Hb. destruct queue as [| [| u p0] rest].
    + now apply (closed_excludes_target unseen s t Hc Hconn Hs Hsu).
    + apply (IH unseen rest); try assumption.
      * simpl in Hfuel. lia.
      * intros w Hw Hwu. destruct (Hc w Hw Hwu) as [[q [Hin Hh]] | Hr];
          [| now right].
        destruct Hin as [<- | Hin]; [discriminate Hh |].
        left. now exists q.
    + destruct (String.eqb_spec u t) as [-> | Hut]; [discriminate |].
      apply (IH _ _) in Hb; try assumption.
      * now apply Hb.
      * rewrite length_app, length_map. simpl in Hfuel.
        pose proof (filter_split_length (adjacent g u) unseen). lia.
      * intros w Hw Hwu.
        destruct (in_dec string_dec w unseen) as [Hin | Hnin].
        -- (* reached in this round *)
           left. exists (w :: u :: p0). split; [| reflexivity].
           apply in_or_app. right. apply in_map_iff. exists w.
           split; [reflexivity |]. apply filter_In. split; [assumption |].
           destruct (adjacent g u w) eqn:E; [reflexivity |].
           exfalso. apply Hwu. apply filter_In. now rewrite E.
        -- destruct (Hc w Hw Hnin) as [[q [Hq Hh]] | [Hne Hall]].
           ++ destruct Hq as [<- | Hq].
              ** simpl in Hh. injection Hh as ->. right. split; [assumption |].
                 intros n Hadj Hn. apply filter_In in Hn.
                 rewrite Hadj in Hn. destruct Hn as [_ Hn]. discriminate.
              ** left. exists q. split; [| assumption].
                 apply in_or_app. now left.
           ++ right. split; [assumption |].
              intros n Hadj Hn. apply filter_In in Hn.
              now apply (Hall n Hadj).
      * intros Hin. apply filter_In in Hin. tauto.
Qed.

End ShortestPath.

Section ConceptPath.

Import NX.

Variable g : DiGraph.
Hypothesis Hg : edges_join_nodes g.

Lemma shortest_path_decides (s t : string) :
  has_node g s = true ->
  (connected g s t ->
   exists p, shortest_path g s t = Some p /\ walk g s t p) /\
  (~ connected g s t -> shortest_path g s t = None).
Proof.
  intros Hs. apply has_node_In in Hs. unfold shortest_path.
  destruct (bfs g t (S (length g))
                (filter (fun n => negb (String.eqb n s)) (nodes g)) [[s]])
    as [p |] eqn:Hb.
  - assert (Hw : walk g s t p).
    { apply (bfs_sound g s t _ _ _ p) in Hb; [assumption |].
      intros q [<- | []]. simpl. auto. }
    split.
    + intros _. now exists p.
    + intros Hn. exfalso. apply Hn. now apply (walk_connected g p).
  - assert (Hn : ~ connected g s t).
    { apply (bfs_complete g s t Hg) in Hb; try assumption.
      - simpl.
        pose proof (filter_length_le (fun n => negb (String.eqb n s)) (nodes g)).
        unfold nodes in *. rewrite length_map in *. lia.
      - intros w Hw Hwu. left. exists [s]. split; [now left |].
        destruct (String.eqb_spec w s) as [-> | Hne]; [reflexivity |].
        exfalso. apply Hwu. apply filter_In. split; [assumption |].
        destruct (String.eqb_spec w s); [contradiction | reflexivity].
      - intros Hin. apply filter_In in Hin. destruct Hin as [_ Hin].
        now rewrite String.eqb_refl in Hin. }
    split; [intros Hc; contradiction | reflexivity].
Qed.

Lemma walk_nodes (p : list string) (a b : string) :
  walk g a b p -> In a (nodes g) -> forall y, In y p -> In y (nodes g).
Proof.
  revert a. induction p as [| u p IH]; intros a (Hh & Hl & Hk) Ha y Hy;
    [contradiction |].
  simpl in Hh. injection Hh as ->.
  destruct Hy as [<- | Hy]; [assumption |].
  destruct p as [| v p]; [contradiction |].
  destruct Hk as [Hav Hk].
  apply (IH v); try assumption.
  - repeat split; [| assumption].
    change (last (a :: v :: p) a) with (last (v :: p) a) in Hl.
    rewrite <- Hl. apply last_nonempty.
  - now destruct (adjacent_nodes g a v Hg Hav).
Qed.

Lemma path_concepts_ids (p : list string) :
  (forall y, In y p -> exists d, Query.get_concept g y = Some (Some d)) ->
  map Query.step_id (Query.path_concepts g p) = p.
Proof.
  unfold Query.path_concepts. induction p as [| y p IH]; intros H;
    [reflexivity |].
  simpl. destruct (H y (or_introl eq_refl)) as [d ->]. simpl. f_equal.
  apply IH. intros z Hz. apply H. now right.
Qed.

End ConceptPath.

(** Claim C4.  [get_concept_path] answers with the not-found error as soon
    as one endpoint is not a node, before any search; with the no-path
    result, a different shape of answer, when both endpoints are nodes that
    no path joins in the undirected projection; and otherwise with a path
    from the first endpoint to the second, whose steps are the summaries of
    its nodes in order and whose [length] is the number of its nodes less
    one, that is the number of its edges. *)
Theorem C4_concept_path_outcomes (g : NX.DiGraph) (a b : string) :
  concept_graph g = true ->
  (NX.has_node g a = false \/ NX.has_node g b = false ->
   exists missing,
     (missing = a \/ missing = b) /\ NX.has_node g missing = false /\
     Query.get_concept_path g a b = Query.PathError (Query.not_found missing)) /\
  (NX.has_node g a = true -> NX.has_node g b = true -> ~ connected g a b ->
   Query.get_concept_path g a b =
   Query.NoPath a b "No path found between concepts") /\
  (NX.has_node g a = true -> NX.has_node g b = true -> connected g a b ->
   exists p,
     Query.get_concept_path g a b =
     Query.PathFound a b (Z.of_nat (length p) - 1) (Query.path_concepts g p) /\
     walk g a b p /\
     map Query.step_id (Query.path_concepts g p) = p).
Proof.
  intros Hcg.
  assert (Hj : edges_join_nodes g)
    by (apply well_formed_joins; now apply concept_graph_well_formed).
  unfold Query.get_concept_path. split; [| split].
  - intros Hmiss. destruct (NX.has_node g a) eqn:Ha; simpl.
    + destruct Hmiss as [Hm | Hb]; [discriminate |]. rewrite Hb. simpl.
      exists b. auto.
    + exists a. auto.
  - intros Ha Hb Hn. rewrite Ha, Hb. simpl.
    destruct (shortest_path_decides g Hj a b Ha) as [_ H].
    now rewrite (H Hn).
  - intros Ha Hb Hc. rewrite Ha, Hb. simpl.
    destruct (shortest_path_decides g Hj a b Ha) as [H _].
    destruct (H Hc) as [p [Hp Hw]]. rewrite Hp. exists p.
    split; [reflexivity |]. split; [assumption |].
    apply path_concepts_ids. intros y Hy.
    apply (concept_graph_attrs g Hcg). apply has_node_In.
    apply (walk_nodes g Hj p a b Hw); [now apply has_node_In | assumption].
Qed.

Lemma C4_concept_path_outcomes_witness :
  let g := Builder.build_graph NX.empty
             [concept "a" "A" ["b"] [] [] []; concept "b" "B" [] [] ["c"] [];
              concept "c" "C" [] [] [] []; concept "d" "D" [] [] [] []] in
  Query.get_concept_path g "a" "d" =
  Query.NoPath "a" "d" "No path found between concepts".
Proof.
  intros g.
  destruct (C4_concept_path_outcomes g "a" "d") as [_ [H _]].
  - reflexivity.
  - apply H; [reflexivity | reflexivity |].
    intros Hc.
    assert (Hreach : forall u w, connected g u w ->
                                 u <> "d" -> w <> "d").
    { intros u w Hconn. induction Hconn as [u | u v w Hadj _ IH];
        [auto |].
      intros Hu. apply IH. intros ->.
      destruct (String.eqb_spec u "a") as [-> | Hna];
        [vm_compute in Hadj; discriminate |].
      destruct (String.eqb_spec u "b") as [-> | Hnb];
        [vm_compute in Hadj; discriminate |].
      destruct (String.eqb_spec u "c") as [-> | Hnc];
        [vm_compute in Hadj; discriminate |].
      unfold NX.adjacent, NX.has_edge in Hadj.
      assert (E1 : NX.edge_rel g u "d" = None).
      { unfold NX.edge_rel, g. simpl.
        destruct (String.eqb_spec u "a"); [contradiction |].
        destruct (String.eqb_spec u "b"); [contradiction |].
        destruct (String.eqb_spec u "c"); [contradiction |].
        destruct (String.eqb_spec u "d"); [contradiction | reflexivity]. }
      rewrite E1 in Hadj. vm_compute in Hadj. discriminate. }
    apply (Hreach "a" "d" Hc); [discriminate | reflexivity].
Defined.

(** ** Statistics of the builder *)

Section Statistics.

Import NX.

Variable g : DiGraph.

Lemma connected_trans (u v w : string) :
  connected g u v -> connected g v w -> connected g u w.
Proof.
  intros Huv. induction Huv as [u | u z v Hadj _ IH]; [auto |].
  intros Hvw. apply connected_step with (v := z); auto.
Qed.

Lemma connected_sym (u v : string) : connected g u v -> connected g v u.
Proof.
  intros Huv. induction Huv as [u | u z v Hadj _ IH]; [constructor |].
  apply (connected_trans v z u IH).
  apply connected_step with (v := u); [| constructor].
  now rewrite adjacent_sym.
Qed.

(** A path found by the search joins its endpoints. *)
Lemma shortest_path_connected (x0 n : string) (p : list string) :
  shortest_path g x0 n = Some p -> connected g x0 n.
Proof.
  intros Hp. unfold shortest_path in Hp.
  apply (walk_connected g p). apply (bfs_sound g x0 n _ _ _ p) in Hp;
    [assumption |].
  intros q [<- | []]. simpl. auto.
Qed.

End Statistics.

(** Away from the null graph the statistics are returned, and the flag
    tells whether every two nodes are joined in the undirected projection. *)
Lemma statistics_of_nonempty_graph (g : NX.DiGraph) :
  edges_join_nodes g -> g <> [] ->
  exists st,
    Builder.get_statistics g = NX.Returns st /\
    Builder.total_concepts st = NX.number_of_nodes g /\
    Builder.total_relations st = NX.number_of_edges g /\
    Builder.density st = NX.density g /\
    (Builder.is_connected st = true <->
     forall u v, In u (NX.nodes g) -> In v (NX.nodes g) -> connected g u v).
Proof.
  intros Hg Hne. destruct g as [| x0 g']; [contradiction |].
  set (g := x0 :: g') in *.
  assert (H0 : NX.has_node g (NX.node_id x0) = true).
  { apply has_node_In. now left. }
  exists {| Builder.total_concepts := NX.number_of_nodes g;
            Builder.total_relations := NX.number_of_edges g;
            Builder.density := NX.density g;
            Builder.is_connected :=
              forallb (fun n => match NX.shortest_path g (NX.node_id x0) n with
                                | Some _ => true
                                | None => false
                                end) (NX.nodes g) |}.
  split; [reflexivity |].
  cbn [Builder.total_concepts Builder.total_relations Builder.density
       Builder.is_connected].
  split; [reflexivity |]. split; [reflexivity |]. split; [reflexivity |].
  rewrite forallb_forall. split.
  - intros Hall u v Hu Hv.
    assert (Hfrom : forall n, In n (NX.nodes g) ->
                              connected g (NX.node_id x0) n).
    { intros n Hn. specialize (Hall n Hn).
      destruct (NX.shortest_path g (NX.node_id x0) n) as [p |] eqn:Hp;
        [| discriminate].
      exact (shortest_path_connected g _ n p Hp). }
    apply connected_trans with (v := NX.node_id x0);
      [apply connected_sym |]; now apply Hfrom.
  - intros Hall n Hn.
    destruct (shortest_path_decides g Hg (NX.node_id x0) n H0) as [H _].
    destruct H as [p [-> _]]; [| reflexivity].
    apply Hall; [now left | assumption].
Qed.

(** Claim C7, at the input where the code departs from it.  On the graph
    without nodes, which is the graph of a new builder and of a build from
    no records, [get_statistics] returns nothing: the connectivity test of
    the graph library raises for the null graph and nothing catches it. *)
Theorem C7_statistics_raise_on_the_empty_graph :
  Builder.get_statistics NX.empty = NX.Raises "NetworkXPointlessConcept" /\
  Builder.get_statistics (Builder.build_graph NX.empty []) =
  NX.Raises "NetworkXPointlessConcept".
Proof. split; reflexivity. Qed.

(** ** Text search *)

Section TextSearch.

Lemma prefix_refl (s : string) : String.prefix s s = true.
Proof.
  induction s as [| c s IH]; simpl; [reflexivity |].
  destruct (ascii_dec c c); [assumption | contradiction].
Qed.

Lemma contains_refl (s : string) : contains s s = true.
Proof.
  destruct s as [| c s]; [reflexivity |].
  cbn [contains]. now rewrite prefix_refl.
Qed.

Lemma alt_scores (query_lower : string) (alts : list string) (sc : Z) :
  fold_left (fun sc alt_label =>
               if contains query_lower (lower alt_label)
               then (sc + 5)%Z else sc) alts sc =
  (sc + 5 * Z.of_nat (alt_hits query_lower alts))%Z.
Proof.
  unfold alt_hits. revert sc. induction alts as [| a alts IH]; intros sc.
  - simpl. lia.
  - cbn [fold_left filter]. rewrite IH.
    destruct (contains query_lower (lower a)); cbn [length]; lia.
Qed.

(** The accumulated score is the sum of its four parts. *)
Lemma score_node_parts (query_lower : string) (d : option NodeData) :
  Indexer.score_node query_lower d = text_score query_lower d.
Proof.
  unfold Indexer.score_node, text_score. cbv zeta. rewrite alt_scores.
  destruct (String.eqb_spec (lower (Indexer.attr_prefLabel d)) query_lower)
    as [E | E].
  - rewrite E, contains_refl.
    destruct (Indexer.attr_definition d) as [def |];
      [destruct (Indexer.nonempty def && contains query_lower (lower def)) |];
      lia.
  - destruct (contains query_lower (lower (Indexer.attr_prefLabel d)));
      (destruct (Indexer.attr_definition d) as [def |];
       [destruct (Indexer.nonempty def && contains query_lower (lower def)) |]);
      lia.
Qed.

Lemma matches_scored (g : NX.DiGraph) (query : string) :
  Indexer.matches g query = scored text_score g query.
Proof.
  unfold Indexer.matches, scored. apply flat_map_ext. intros x. cbv zeta.
  now rewrite score_node_parts.
Qed.

Lemma insert_desc_perm (x : string * Z) (l : list (string * Z)) :
  Permutation (Indexer.insert_desc x l) (x :: l).
Proof.
  induction l as [| y l IH]; simpl; [apply Permutation_refl |].
  destruct (snd x <? snd y)%Z; [| apply Permutation_refl].
  eapply Permutation_trans; [apply perm_skip; exact IH | apply perm_swap].
Qed.

Lemma sort_desc_perm (l : list (string * Z)) :
  Permutation (Indexer.sort_desc l) l.
Proof.
  induction l as [| x l IH]; simpl; [constructor |].
  eapply Permutation_trans; [apply insert_desc_perm | now apply perm_skip].
Qed.

Lemma insert_desc_sorted (x : string * Z) (l : list (string * Z)) :
  Sorted ranks_before l -> Sorted ranks_before (Indexer.insert_desc x l).
Proof.
  induction l as [| y l IH]; intros Hl; simpl.
  - repeat constructor.
  - destruct (snd x <? snd y)%Z eqn:E.
    + inversion Hl as [| ? ? Hs Hh]; subst. constructor; [now apply IH |].
      destruct l as [| z l]; simpl.
      * constructor. unfold ranks_before. apply Z.ltb_lt in E. lia.
      * destruct (snd x <? snd z)%Z.
        -- constructor. now inversion Hh.
        -- constructor. unfold ranks_before. apply Z.ltb_lt in E. lia.
    + constructor; [assumption |]. constructor. unfold ranks_before.
      apply Z.ltb_ge in E. lia.
Qed.

Lemma sort_desc_sorted (l : list (string * Z)) :
  Sorted ranks_before (Indexer.sort_desc l).
Proof.
  induction l as [| x l IH]; simpl; [constructor |].
  now apply insert_desc_sorted.
Qed.

Lemma insert_desc_stable (k : Z) (x : string * Z) (l : list (string * Z)) :
  with_score k (Indexer.insert_desc x l) = with_score k (x :: l).
Proof.
  unfold with_score. induction l as [| y l IH]; [reflexivity |].
  cbn [Indexer.insert_desc]. destruct (snd x <? snd y)%Z eqn:E;
    [| reflexivity].
  cbn [filter] in *. rewrite IH. apply Z.ltb_lt in E.
  destruct (Z.eqb_spec (snd x) k), (Z.eqb_spec (snd y) k); try reflexivity.
  lia.
Qed.

Lemma sort_desc_stable (k : Z) (l : list (string * Z)) :
  with_score k (Indexer.sort_desc l) = with_score k l.
Proof.
  induction l as [| x l IH]; [reflexivity |].
  cbn [Indexer.sort_desc fold_right]. rewrite insert_desc_stable.
  unfold with_score in *. cbn [filter]. fold (Indexer.sort_desc l).
  now rewrite IH.
Qed.

End TextSearch.

Lemma build_two_concepts (i1 i2 l1 l2 : string) :
  i1 <> i2 ->
  Builder.build_graph NX.empty
    [concept i1 l1 [] [] [] []; concept i2 l2 [] [] [] []] =
  [{| NX.node_id := i1;
      NX.node_attrs := Some (to_dict (concept i1 l1 [] [] [] []));
      NX.node_succ := [] |};
   {| NX.node_id := i2;
      NX.node_attrs := Some (to_dict (concept i2 l2 [] [] [] []));
      NX.node_succ := [] |}].
Proof.
  intros Hne. unfold Builder.build_graph, Builder._add_concept_relations,
    Builder._add_concept_node, NX.add_node, NX.has_node, NX.empty.
  cbn [fold_left concept_id concept broader narrower related prerequisite
       NX.find_node app NX.node_id].
  destruct (String.eqb_spec i2 i1) as [E | _]; [congruence | reflexivity].
Qed.

(** Claim C5, as amended.  [search_by_text] scores every node with 10 if
    the lower-cased query occurs in the lower-cased prefLabel, 20 more if
    the two are equal, 5 for each alt-label that contains the query and 3
    if the definition is not empty and contains the query; it keeps the
    nodes of positive score in node order, ranks them by descending score
    with ties in their original order, and returns the ids of the first
    [limit] of them.  With concepts labelled Regression and Logistic
    Regression, in either order, a search for regression with limit 10
    ranks Regression first. *)
Theorem C5_search_by_text_ranking (g : NX.DiGraph) (query : string) (limit : Z) :
  let ms := scored text_score g query in
  Indexer.matches g query = ms /\
  Permutation (Indexer.sort_desc ms) ms /\
  Sorted ranks_before (Indexer.sort_desc ms) /\
  (forall k, with_score k (Indexer.sort_desc ms) = with_score k ms) /\
  ((0 <= limit)%Z ->
   Indexer.search_by_text g query limit =
   firstn (Z.to_nat limit) (map fst (Indexer.sort_desc ms))) /\
  (forall i1 i2, i1 <> i2 ->
     let g1 := Builder.build_graph NX.empty
                 [concept i1 "Regression" [] [] [] [];
                  concept i2 "Logistic Regression" [] [] [] []] in
     let g2 := Builder.build_graph NX.empty
                 [concept i2 "Logistic Regression" [] [] [] [];
                  concept i1 "Regression" [] [] [] []] in
     Indexer.search_by_text g1 "regression" 10 = [i1; i2] /\
     Indexer.search_by_text g2 "regression" 10 = [i1; i2] /\
     map Query.hit_prefLabel
         (Query.sr_results (Query.search_concepts g2 "regression" 10)) =
     ["Regression"; "Logistic Regression"]).
Proof.
  intros ms. split; [apply matches_scored |].
  split; [apply sort_desc_perm |].
  split; [apply sort_desc_sorted |].
  split; [intros k; apply sort_desc_stable |].
  split.
  - intros Hlimit. unfold Indexer.search_by_text, Indexer.slice_to.
    rewrite matches_scored. fold ms.
    replace (0 <=? limit)%Z with true by (symmetry; now apply Z.leb_le).
    symmetry. apply firstn_map.
  - intros i1 i2 Hne g1 g2.
    assert (Hne' : i2 <> i1) by congruence.
    assert (E12 : String.eqb i1 i2 = false) by now apply String.eqb_neq.
    assert (E21 : String.eqb i2 i1 = false) by now apply String.eqb_neq.
    unfold g1, g2. rewrite (build_two_concepts i1 i2 _ _ Hne).
    rewrite (build_two_concepts i2 i1 _ _ Hne').
    split; [reflexivity |]. split; [reflexivity |].
    unfold Query.search_concepts. cbn [Query.sr_results].
    change (Indexer.search_by_text _ "regression" 10) with [i1; i2].
    unfold Query.get_concept. cbn [flat_map NX.find_node NX.node_id].
    rewrite E12, E21, !String.eqb_refl. reflexivity.
Qed.

Lemma C5_search_by_text_ranking_witness :
  let g := Builder.build_graph NX.empty
             [defined_concept "ols" "Ordinary Least Squares"
                              "A linear regression estimator";
              concept "lr" "Logistic Regression" [] [] [] [];
              concept "r" "Regression" [] [] [] []] in
  Indexer.search_by_text g "Regression" 2 = ["r"; "lr"].
Proof.
  intros g.
  destruct (C5_search_by_text_ranking g "Regression" 2) as (_ & _ & _ & _ & H & _).
  rewrite H; [reflexivity | lia].
Defined.

(** The claim as stated fails for the empty query and an empty definition:
    the empty string occurs in the empty definition, the code gives no
    points for it, and the ranking changes. *)
Lemma C5_counterexample :
  ~ search_as_claimed
      (Builder.build_graph NX.empty
         [defined_concept "n1" "a" ""; defined_concept "n2" "b" "x"])
      "" 10.
Proof.
  unfold search_as_claimed. vm_compute. discriminate.
Qed.

(** ** The builder keeps its graph a concept graph *)

Section ConceptGraphs.

Import NX.

Lemma concept_graph_iff (g : DiGraph) :
  concept_graph g = true <-> concept_graph_inv g.
Proof.
  unfold concept_graph, well_formed, concept_graph_inv.
  rewrite !andb_true_iff, nodupb_NoDup, !forallb_forall. split.
  - intros [[Hn Hs] Ha]. split; [assumption |]. intros x Hx.
    specialize (Hs x Hx). specialize (Ha x Hx).
    apply andb_true_iff in Hs. destruct Hs as [Hk Ht].
    apply nodupb_NoDup in Hk. rewrite forallb_forall in Ht.
    repeat split; [assumption | | destruct (node_attrs x); congruence].
    intros k Hk'. apply in_map_iff in Hk'. destruct Hk' as [vr [<- Hvr]].
    now apply Ht.
  - intros [Hn Hx]. repeat split; [assumption | |].
    + intros x Hin. destruct (Hx x Hin) as (Hk & Ht & _).
      apply andb_true_iff. split; [now apply nodupb_NoDup |].
      apply forallb_forall. intros vr Hvr. apply Ht. now apply in_map.
    + intros x Hin. destruct (Hx x Hin) as (_ & _ & Ha).
      destruct (node_attrs x); [reflexivity | contradiction].
Qed.

Lemma nodes_alter (f : Node -> Node) (n : string) (g : DiGraph) :
  (forall x, node_id (f x) = node_id x) ->
  nodes (alter_node f n g) = nodes g.
Proof.
  intros Hf. unfold nodes, alter_node. rewrite map_map. apply map_ext.
  intros x. destruct (String.eqb n (node_id x)); [apply Hf | reflexivity].
Qed.

Lemma inv_alter (f : Node -> Node) (n : string) (g : DiGraph) :
  (forall x, node_id (f x) = node_id x) ->
  concept_graph_inv g ->
  (forall x, In x g -> node_id x = n ->
             NoDup (map fst (node_succ (f x))) /\
             (forall k, In k (map fst (node_succ (f x))) ->
                        has_node g k = true) /\
             node_attrs (f x) <> None) ->
  concept_graph_inv (alter_node f n g).
Proof.
  intros Hf [Hn Hx] Hnew. split; [now rewrite nodes_alter |].
  intros y Hy. unfold alter_node in Hy. apply in_map_iff in Hy.
  destruct Hy as [x [<- Hin]].
  assert (Hsame : forall k, has_node (alter_node f n g) k = has_node g k)
    by (intros k; now apply has_node_alter).
  destruct (String.eqb_spec n (node_id x)) as [E | _].
  - destruct (Hnew x Hin (eq_sym E)) as (H1 & H2 & H3).
    repeat split; [assumption | | assumption].
    intros k Hk. rewrite Hsame. now apply H2.
  - destruct (Hx x Hin) as (H1 & H2 & H3).
    repeat split; [assumption | | assumption].
    intros k Hk. rewrite Hsame. now apply H2.
Qed.

Lemma inv_snoc (g : DiGraph) (n : string) (d : NodeData) :
  concept_graph_inv g -> has_node g n = false ->
  concept_graph_inv
    (g ++ [{| node_id := n; node_attrs := Some d; node_succ := [] |}]).
Proof.
  intros [Hn Hx] Hnew. split.
  - unfold nodes. rewrite map_app. simpl.
    apply (Permutation_NoDup (l := n :: map node_id g)).
    + apply Permutation_cons_append.
    + constructor; [| assumption].
      intros Hin. apply has_node_In in Hin. congruence.
  - assert (Hmono : forall k, has_node g k = true ->
                              has_node (g ++ [{| node_id := n;
                                                 node_attrs := Some d;
                                                 node_succ := [] |}]) k = true).
    { intros k Hk. unfold has_node in *. rewrite find_node_app.
      destruct (find_node g k); [reflexivity | discriminate]. }
    intros y Hy. apply in_app_or in Hy. destruct Hy as [Hy | [<- | []]].
    + destruct (Hx y Hy) as (H1 & H2 & H3).
      repeat split; [assumption | | assumption].
      intros k Hk. apply Hmono. now apply H2.
    + simpl. repeat split; [constructor | intros k [] | discriminate].
Qed.

Lemma inv_add_node (g : DiGraph) (n : string) (d : NodeData) :
  concept_graph_inv g -> concept_graph_inv (add_node g n d).
Proof.
  intros Hg. unfold add_node. destruct (has_node g n) eqn:Hn.
  - apply inv_alter; [reflexivity | assumption |].
    intros x Hx _. destruct Hg as [_ Hall].
    destruct (Hall x Hx) as (H1 & H2 & _). simpl.
    repeat split; [assumption | assumption | discriminate].
  - now apply inv_snoc.
Qed.

Lemma add_edge_existing (g : DiGraph) (u v r : string) :
  has_node g u = true -> has_node g v = true ->
  add_edge g u v r =
  alter_node (fun x => {| node_id := node_id x;
                          node_attrs := node_attrs x;
                          node_succ := assoc_set v r (node_succ x) |}) u g.
Proof.
  intros Hu Hv. unfold add_edge, ensure_node. now rewrite Hu, Hv.
Qed.

Lemma inv_add_edge (g : DiGraph) (u v r : string) :
  has_node g u = true -> has_node g v = true ->
  concept_graph_inv g -> concept_graph_inv (add_edge g u v r).
Proof.
  intros Hu Hv Hg. rewrite add_edge_existing by assumption.
  apply inv_alter; [reflexivity | assumption |].
  intros x Hx _. destruct Hg as [_ Hall].
  destruct (Hall x Hx) as (H1 & H2 & H3). simpl.
  rewrite keys_assoc_set.
  destruct (mem v (map fst (node_succ x))) eqn:Hm.
  - repeat split; assumption.
  - apply mem_false_In in Hm. repeat split; [| | assumption].
    + apply (Permutation_NoDup (l := v :: map fst (node_succ x)));
        [apply Permutation_cons_append | now constructor].
    + intros k Hk. apply in_app_or in Hk.
      destruct Hk as [Hk | [<- | []]]; [now apply H2 | assumption].
Qed.

Lemma keys_assoc_del {A : Type} (n k : string) (d : list (string * A)) :
  In k (map fst (assoc_del n d)) -> k <> n /\ In k (map fst d).
Proof.
  unfold assoc_del. intros Hk. apply in_map_iff in Hk.
  destruct Hk as [kv [<- Hkv]]. apply filter_In in Hkv.
  destruct Hkv as [Hin Hne]. split.
  - intros E. rewrite E, String.eqb_refl in Hne. discriminate.
  - now apply in_map.
Qed.

Lemma inv_remove_edges (es : list (string * string)) (g : DiGraph) :
  concept_graph_inv g -> concept_graph_inv (remove_edges_from g es).
Proof.
  unfold remove_edges_from. revert g.
  induction es as [| e es IH]; intros g Hg; simpl; [assumption |].
  apply IH. unfold remove_edge.
  apply inv_alter; [reflexivity | assumption |].
  intros x Hx _. destruct Hg as [_ Hall].
  destruct (Hall x Hx) as (H1 & H2 & H3). simpl.
  repeat split; [now apply keys_filter_NoDup | | assumption].
  intros k Hk. apply keys_assoc_del in Hk. now apply H2.
Qed.

Lemma inv_remove_node (g : DiGraph) (n : string) :
  concept_graph_inv g -> concept_graph_inv (remove_node g n).
Proof.
  intros [Hn Hall]. unfold remove_node.
  assert (Hnodes :
            nodes (map (fun x => {| node_id := node_id x;
                                    node_attrs := node_attrs x;
                                    node_succ := assoc_del n (node_succ x) |})
                       (filter (fun x => negb (String.eqb n (node_id x))) g))
            = filter (fun k => negb (String.eqb n k)) (nodes g)).
  { unfold nodes. rewrite map_map. simpl.
    clear. induction g as [| x g IH]; [reflexivity |]. simpl.
    destruct (String.eqb n (node_id x)); simpl; now rewrite IH. }
  split.
  - rewrite Hnodes. now apply NoDup_filter.
  - intros y Hy. apply in_map_iff in Hy. destruct Hy as [x [<- Hx]].
    apply filter_In in Hx. destruct Hx as [Hx _].
    destruct (Hall x Hx) as (H1 & H2 & H3). simpl.
    repeat split; [now apply keys_filter_NoDup | | assumption].
    intros k Hk. apply keys_assoc_del in Hk. destruct Hk as [Hne Hk].
    apply has_node_In. rewrite Hnodes. apply filter_In.
    split; [apply has_node_In; now apply H2 |].
    destruct (String.eqb_spec n k); [congruence | reflexivity].
Qed.

End ConceptGraphs.

Section BuilderKeepsConceptGraphs.

Import NX.

Variable cid : string.

Lemma inv_loop (body : DiGraph -> string -> DiGraph) :
  (forall g b m, has_node g cid = true ->
                 has_node (body g b) m = has_node g m) ->
  (forall g b, has_node g cid = true -> concept_graph_inv g ->
               concept_graph_inv (body g b)) ->
  forall ids g, has_node g cid = true -> concept_graph_inv g ->
                concept_graph_inv (fold_left body ids g).
Proof.
  intros Hn Hb ids. induction ids as [| b ids IH]; intros g Hc Hg; simpl;
    [assumption |].
  apply IH; [now rewrite Hn | now apply Hb].
Qed.

Lemma inv_add_broader (g : DiGraph) (b : string) :
  has_node g cid = true -> concept_graph_inv g ->
  concept_graph_inv (Builder.add_broader cid g b).
Proof.
  intros Hc Hg. unfold Builder.add_broader.
  destruct (has_node g b) eqn:Hb; [| assumption].
  apply inv_add_edge; try (rewrite has_node_add_edge_old; assumption).
  now apply inv_add_edge.
Qed.

Lemma inv_add_narrower (g : DiGraph) (b : string) :
  has_node g cid = true -> concept_graph_inv g ->
  concept_graph_inv (Builder.add_narrower cid g b).
Proof.
  intros Hc Hg. unfold Builder.add_narrower.
  destruct (has_node g b) eqn:Hb; [| assumption].
  destruct (negb (has_edge g cid b)).
  - destruct (negb (has_edge _ b cid)); [| now apply inv_add_edge].
    apply inv_add_edge; try (rewrite has_node_add_edge_old; assumption).
    now apply inv_add_edge.
  - destruct (negb (has_edge g b cid)); [| assumption].
    now apply inv_add_edge.
Qed.

Lemma inv_add_related (g : DiGraph) (b : string) :
  has_node g cid = true -> concept_graph_inv g ->
  concept_graph_inv (Builder.add_related cid g b).
Proof.
  intros Hc Hg. unfold Builder.add_related.
  destruct (has_node g b) eqn:Hb; [| assumption].
  apply inv_add_edge; try (rewrite has_node_add_edge_old; assumption).
  now apply inv_add_edge.
Qed.

Lemma inv_add_prerequisite (g : DiGraph) (b : string) :
  has_node g cid = true -> concept_graph_inv g ->
  concept_graph_inv (Builder.add_prerequisite cid g b).
Proof.
  intros Hc Hg. unfold Builder.add_prerequisite.
  destruct (has_node g b) eqn:Hb; [| assumption].
  now apply inv_add_edge.
Qed.

End BuilderKeepsConceptGraphs.

Lemma inv_relations (g : NX.DiGraph) (c : SKOSConcept) :
  NX.has_node g (concept_id c) = true -> concept_graph_inv g ->
  concept_graph_inv (Builder._add_concept_relations g c).
Proof.
  intros Hc Hg. unfold Builder._add_concept_relations.
  set (x := concept_id c) in *.
  assert (H1 : NX.has_node (fold_left (Builder.add_broader x) (broader c) g) x
               = true).
  { now rewrite (has_node_loop x _ (has_node_add_broader x)). }
  assert (H2 : NX.has_node (fold_left (Builder.add_narrower x) (narrower c)
                 (fold_left (Builder.add_broader x) (broader c) g)) x = true).
  { now rewrite (has_node_loop x _ (has_node_add_narrower x)). }
  assert (H3 : NX.has_node (fold_left (Builder.add_related x) (related c)
                 (fold_left (Builder.add_narrower x) (narrower c)
                    (fold_left (Builder.add_broader x) (broader c) g))) x
               = true).
  { now rewrite (has_node_loop x _ (has_node_add_related x)). }
  apply (inv_loop x _ (has_node_add_prerequisite x) (inv_add_prerequisite x));
    [assumption |].
  apply (inv_loop x _ (has_node_add_related x) (inv_add_related x));
    [assumption |].
  apply (inv_loop x _ (has_node_add_narrower x) (inv_add_narrower x));
    [assumption |].
  now apply (inv_loop x _ (has_node_add_broader x) (inv_add_broader x)).
Qed.

(** Every graph the builder can hold is a concept graph: the graph of a
    new builder is one, and [build_graph], [update_concept] and
    [remove_concept] keep it one. *)
Lemma builder_keeps_concept_graph :
  concept_graph NX.empty = true /\
  forall g, concept_graph g = true ->
            (forall concepts,
                concept_graph (Builder.build_graph g concepts) = true) /\
            (forall c, concept_graph (Builder.update_concept g c) = true) /\
            (forall cid, concept_graph (Builder.remove_concept g cid) = true).
Proof.
  split; [reflexivity |]. intros g Hg. apply concept_graph_iff in Hg.
  split; [| split].
  - intros concepts. apply concept_graph_iff. unfold Builder.build_graph.
    assert (Hids : forall R, In R concepts ->
               NX.has_node (fold_left Builder._add_concept_node concepts g)
                           (concept_id R) = true).
    { intros R HR. rewrite has_node_add_nodes.
      replace (mem (concept_id R) (map concept_id concepts)) with true;
        [apply orb_true_r |].
      symmetry. apply mem_In. now apply in_map. }
    assert (H1 : concept_graph_inv
                   (fold_left Builder._add_concept_node concepts g)).
    { clear Hids. revert g Hg.
      induction concepts as [| c l IH]; intros g Hg; simpl; [assumption |].
      apply IH. now apply inv_add_node. }
    revert H1 Hids.
    generalize (fold_left Builder._add_concept_node concepts g) as g1.
    induction concepts as [| c l IH]; intros g1 H1 Hids; simpl; [assumption |].
    apply IH.
    + apply inv_relations; [apply Hids; now left | assumption].
    + intros R HR. rewrite has_node_relations by (apply Hids; now left).
      apply Hids. now right.
  - intros c. apply concept_graph_iff. rewrite update_concept_cleared.
    apply inv_relations; [apply has_node_cleared_self |].
    unfold cleared, Builder._add_concept_node. apply inv_add_node.
    destruct (NX.has_node g (concept_id c)); [| assumption].
    now apply inv_remove_edges.
  - intros cid. apply concept_graph_iff. unfold Builder.remove_concept.
    destruct (NX.has_node g cid); [| assumption].
    now apply inv_remove_node.
Qed.

(** * Further properties of the builder *)

Section BuildAttributes.

Import NX.

Lemma find_over_app {A : Type} (f : A -> bool) (l1 l2 : list A) :
  find f (l1 ++ l2) =
  match find f l1 with Some x => Some x | None => find f l2 end.
Proof.
  induction l1 as [| x l1 IH]; [reflexivity |].
  simpl. destruct (f x); [reflexivity | apply IH].
Qed.

Lemma attrs_add_nodes (rs : list SKOSConcept) (g : DiGraph) (m : string) :
  Builder.get_concept (fold_left Builder._add_concept_node rs g) m =
  match find (fun c => String.eqb (concept_id c) m) (rev rs) with
  | Some c => Some (Some (to_dict c))
  | None => Builder.get_concept g m
  end.
Proof.
  revert g. induction rs as [| c rs IH]; intros g; [reflexivity |].
  cbn [fold_left rev]. rewrite IH, find_over_app.
  destruct (find (fun c0 => String.eqb (concept_id c0) m) (rev rs));
    [reflexivity |].
  unfold Builder._add_concept_node. rewrite attrs_add_node. cbn [find].
  rewrite (String.eqb_sym (concept_id c) m).
  destruct (String.eqb m (concept_id c)); reflexivity.
Qed.

Lemma attrs_add_relations (rs : list SKOSConcept) (g : DiGraph) (m : string) :
  (forall R, In R rs -> has_node g (concept_id R) = true) ->
  Builder.get_concept (fold_left Builder._add_concept_relations rs g) m =
  Builder.get_concept g m.
Proof.
  revert g. induction rs as [| c rs IH]; intros g Hids; [reflexivity |].
  cbn [fold_left]. rewrite IH.
  - apply attrs_relations. apply Hids. now left.
  - intros R HR. rewrite has_node_relations by (apply Hids; now left).
    apply Hids. now right.
Qed.

Lemma ids_are_nodes (rs : list SKOSConcept) (g : DiGraph) (R : SKOSConcept) :
  In R rs ->
  has_node (fold_left Builder._add_concept_node rs g) (concept_id R) = true.
Proof.
  intros HR. rewrite has_node_add_nodes.
  replace (mem (concept_id R) (map concept_id rs)) with true;
    [apply orb_true_r |].
  symmetry. apply mem_In. now apply in_map.
Qed.

End BuildAttributes.

(** X1.  After [build_graph] the nodes are those of the graph before and
    the ids of the records, and [get_concept] returns for an id the
    dictionary of the last record of the batch that has this id (records
    with one id overwrite each other); the attributes of a node no record
    names are as before. *)
Theorem build_graph_last_record_wins
    (g : NX.DiGraph) (concepts : list SKOSConcept) (m : string) :
  NX.has_node (Builder.build_graph g concepts) m =
  NX.has_node g m || mem m (map concept_id concepts) /\
  Builder.get_concept (Builder.build_graph g concepts) m =
  match find (fun c => String.eqb (concept_id c) m) (rev concepts) with
  | Some c => Some (Some (to_dict c))
  | None => Builder.get_concept g m
  end.
Proof.
  split; [apply has_node_build |].
  unfold Builder.build_graph. rewrite attrs_add_relations.
  - apply attrs_add_nodes.
  - intros R HR. now apply ids_are_nodes.
Qed.

Section BuildWithoutRelations.

Import NX.

Lemma relations_of_none (g : DiGraph) (c : SKOSConcept) :
  references c = [] -> Builder._add_concept_relations g c = g.
Proof.
  unfold references. intros H.
  apply app_eq_nil in H. destruct H as [Hb H].
  apply app_eq_nil in H. destruct H as [Hn H].
  apply app_eq_nil in H. destruct H as [Hr Hp].
  unfold Builder._add_concept_relations. now rewrite Hb, Hn, Hr, Hp.
Qed.

Lemma add_fresh_nodes (rs : list SKOSConcept) (g : DiGraph) :
  NoDup (map concept_id rs) ->
  (forall c, In c rs -> has_node g (concept_id c) = false) ->
  fold_left Builder._add_concept_node rs g =
  g ++ map (fun c => {| node_id := concept_id c;
                        node_attrs := Some (to_dict c);
                        node_succ := [] |}) rs.
Proof.
  revert g. induction rs as [| c rs IH]; intros g Hnd Hfresh.
  - simpl. now rewrite app_nil_r.
  - cbn [fold_left map]. inversion Hnd as [| ? ? Hnot Hrest]; subst.
    unfold Builder._add_concept_node at 2. unfold add_node.
    rewrite (Hfresh c (or_introl eq_refl)).
    rewrite IH; [now rewrite <- app_assoc | assumption |].
    intros c' Hc'. unfold has_node. rewrite find_node_app.
    specialize (Hfresh c' (or_intror Hc')). unfold has_node in Hfresh.
    destruct (find_node g (concept_id c')); [discriminate |]. simpl.
    destruct (String.eqb_spec (concept_id c') (concept_id c)) as [E | _];
      [| reflexivity].
    exfalso. apply Hnot. rewrite <- E. now apply in_map.
Qed.

End BuildWithoutRelations.

(** X2.  Built on an empty graph from records with pairwise different ids
    that declare no relation, the graph has one node per record, in the
    order of the records and with the record's dictionary, and no edge. *)
Theorem build_graph_without_relations (concepts : list SKOSConcept) :
  NoDup (map concept_id concepts) ->
  (forall c, In c concepts -> references c = []) ->
  Builder.build_graph NX.empty concepts =
  map (fun c => {| NX.node_id := concept_id c;
                   NX.node_attrs := Some (to_dict c);
                   NX.node_succ := [] |}) concepts /\
  NX.nodes (Builder.build_graph NX.empty concepts) = map concept_id concepts /\
  NX.number_of_nodes (Builder.build_graph NX.empty concepts) = length concepts /\
  NX.number_of_edges (Builder.build_graph NX.empty concepts) = 0.
Proof.
  intros Hnd Hnone.
  assert (E : Builder.build_graph NX.empty concepts =
              map (fun c => {| NX.node_id := concept_id c;
                               NX.node_attrs := Some (to_dict c);
                               NX.node_succ := [] |}) concepts).
  { unfold Builder.build_graph.
    rewrite (add_fresh_nodes concepts NX.empty Hnd) by reflexivity.
    cbn [NX.empty app].
    generalize (map (fun c => {| NX.node_id := concept_id c;
                                 NX.node_attrs := Some (to_dict c);
                                 NX.node_succ := [] |}) concepts) as g1.
    revert Hnone. clear. induction concepts as [| c l IH]; intros Hnone g1;
      [reflexivity |].
    cbn [fold_left]. rewrite relations_of_none by (apply Hnone; now left).
    apply IH. intros c' Hc'. apply Hnone. now right. }
  rewrite E. repeat split.
  - unfold NX.nodes. rewrite map_map. reflexivity.
  - unfold NX.number_of_nodes. apply length_map.
  - unfold NX.number_of_edges, NX.edges. clear.
    induction concepts as [| c l IH]; [reflexivity | exact IH].
Qed.

Lemma build_graph_without_relations_witness :
  NX.number_of_edges
    (Builder.build_graph NX.empty
       [concept "a" "A" [] [] [] []; concept "b" "B" [] [] [] []]) = 0.
Proof.
  destruct (build_graph_without_relations
              [concept "a" "A" [] [] [] []; concept "b" "B" [] [] [] []])
    as (_ & _ & _ & H).
  - repeat constructor; simpl; intuition discriminate.
  - intros c [<- | [<- | []]]; reflexivity.
  - exact H.
Defined.

Section DeclaredEdges.

Import NX.

Lemma after_relations_keeps (c : SKOSConcept) (hn : string -> bool)
    (u v : string) (prev : option string) :
  prev <> None -> after_relations c hn u v prev <> None.
Proof.
  intros Hp. destruct prev as [p |]; [| contradiction].
  unfold after_relations, after_prerequisite, after_related, after_narrower,
    after_broader.
  repeat match goal with
         | |- context [if ?b then _ else _] => destruct b
         end; discriminate.
Qed.

Lemma after_relations_forward (c : SKOSConcept) (hn : string -> bool)
    (y : string) (prev : option string) :
  hn y = true -> In y (references c) ->
  after_relations c hn (concept_id c) y prev <> None.
Proof.
  intros Hy Hin. unfold references in Hin.
  rewrite !in_app_iff, <- !mem_In in Hin.
  unfold after_relations, after_prerequisite, after_related, after_narrower,
    after_broader.
  rewrite String.eqb_refl, Hy. rewrite ?andb_true_r. cbn [andb].
  destruct (mem y (prerequisite c)); [discriminate |].
  destruct (mem y (related c)).
  { destruct (String.eqb y (concept_id c) && mem (concept_id c) (related c) &&
              hn (concept_id c)); discriminate. }
  destruct (mem y (broader c)).
  { repeat match goal with
           | |- context [if ?b then _ else _] => destruct b
           end; discriminate. }
  destruct (mem y (narrower c)).
  { repeat match goal with
           | |- context [if ?b then _ else _] => destruct b
           | |- context [match ?p with Some _ => _ | None => _ end] =>
               destruct p
           end; discriminate. }
  exfalso. intuition discriminate.
Qed.

Lemma after_relations_backward (c : SKOSConcept) (hn : string -> bool)
    (y : string) (prev : option string) :
  hn y = true -> hn (concept_id c) = true ->
  In y (broader c ++ narrower c ++ related c) ->
  after_relations c hn y (concept_id c) prev <> None.
Proof.
  intros Hy Hc Hin. rewrite !in_app_iff, <- !mem_In in Hin.
  unfold after_relations, after_prerequisite, after_related, after_narrower,
    after_broader.
  rewrite String.eqb_refl, Hy, Hc. rewrite ?andb_true_r. cbn [andb].
  destruct (String.eqb_spec y (concept_id c)) as [E | _].
  - subst y. cbn [andb].
    destruct (mem (concept_id c) (prerequisite c)); [discriminate |].
    destruct (mem (concept_id c) (related c)); [discriminate |].
    destruct (mem (concept_id c) (broader c)); [discriminate |].
    destruct (mem (concept_id c) (narrower c));
      [destruct prev; discriminate |].
    exfalso. intuition discriminate.
  - cbn [andb].
    destruct (mem y (related c)); [discriminate |].
    destruct (mem y (broader c)); [discriminate |].
    destruct (mem y (narrower c)); [destruct prev; discriminate |].
    exfalso. intuition discriminate.
Qed.

Lemma has_edge_kept_all (rs : list SKOSConcept) (g : DiGraph) (u v : string) :
  (forall R, In R rs -> has_node g (concept_id R) = true) ->
  has_edge g u v = true ->
  has_edge (fold_left Builder._add_concept_relations rs g) u v = true.
Proof.
  revert g. induction rs as [| c rs IH]; intros g Hids He; [assumption |].
  cbn [fold_left]. apply IH.
  - intros R HR. rewrite has_node_relations by (apply Hids; now left).
    apply Hids. now right.
  - unfold has_edge in *. rewrite edge_rel_relations by (apply Hids; now left).
    destruct (edge_rel g u v) as [p |] eqn:E; [| discriminate].
    destruct (after_relations c (has_node g) u v (Some p)) eqn:Ea;
      [reflexivity |].
    exfalso. revert Ea. apply after_relations_keeps. discriminate.
Qed.

End DeclaredEdges.

(** X3.  After [build_graph] every declared relation whose target is a
    node is present as an edge from the declaring concept to the target,
    whatever its final type, and for broader, narrower and related
    declarations there is an edge back as well: later records can change
    the type of an edge but never remove it. *)
Theorem build_graph_declared_edges_exist
    (g : NX.DiGraph) (concepts : list SKOSConcept) (R : SKOSConcept) (y : string) :
  In R concepts ->
  NX.has_node (Builder.build_graph g concepts) y = true ->
  (In y (references R) ->
   NX.has_edge (Builder.build_graph g concepts) (concept_id R) y = true) /\
  (In y (broader R ++ narrower R ++ related R) ->
   NX.has_edge (Builder.build_graph g concepts) y (concept_id R) = true).
Proof.
  intros HR Hy. rewrite has_node_build in Hy.
  destruct (in_split _ _ HR) as [l1 [l2 Hsplit]].
  unfold Builder.build_graph.
  set (g1 := fold_left Builder._add_concept_node concepts g).
  assert (Hids : forall R', In R' concepts ->
                            NX.has_node g1 (concept_id R') = true)
    by (intros R' HR'; now apply ids_are_nodes).
  assert (Hy1 : NX.has_node g1 y = true)
    by (unfold g1; now rewrite has_node_add_nodes).
  rewrite Hsplit at 1 2. rewrite !fold_left_app. cbn [fold_left].
  set (g2 := fold_left Builder._add_concept_relations l1 g1).
  assert (H2 : forall m, NX.has_node g2 m = NX.has_node g1 m).
  { apply has_node_add_relations. intros R' HR'. apply Hids.
    rewrite Hsplit. apply in_or_app. now left. }
  assert (HR2 : NX.has_node g2 (concept_id R) = true)
    by (rewrite H2; now apply Hids).
  assert (Hl2 : forall R', In R' l2 ->
              NX.has_node (Builder._add_concept_relations g2 R) (concept_id R')
              = true).
  { intros R' HR'. rewrite has_node_relations by assumption. rewrite H2.
    apply Hids. rewrite Hsplit. apply in_or_app. right. now right. }
  split; intros Hin; apply has_edge_kept_all; try assumption;
    unfold NX.has_edge; rewrite edge_rel_relations by assumption.
  - destruct (after_relations R (NX.has_node g2) (concept_id R) y
                (NX.edge_rel g2 (concept_id R) y)) eqn:Ea; [reflexivity |].
    exfalso. revert Ea. apply after_relations_forward; [| assumption].
    now rewrite H2.
  - destruct (after_relations R (NX.has_node g2) y (concept_id R)
                (NX.edge_rel g2 y (concept_id R))) eqn:Ea; [reflexivity |].
    exfalso. revert Ea. apply after_relations_backward; try assumption.
    now rewrite H2.
Qed.

Lemma build_graph_declared_edges_exist_witness :
  let rs := [concept "a" "A" ["b"] [] ["b"] ["c"];
             concept "b" "B" ["a"] [] [] []; concept "c" "C" [] [] [] []] in
  NX.has_edge (Builder.build_graph NX.empty rs) "a" "c" = true.
Proof.
  intros rs.
  destruct (build_graph_declared_edges_exist NX.empty rs
              (concept "a" "A" ["b"] [] ["b"] ["c"]) "c") as [H _].
  - left. reflexivity.
  - reflexivity.
  - apply H. simpl. right. right. left. reflexivity.
Defined.

Section Removal.

Import NX.

Lemma find_node_remove (g : DiGraph) (n m : string) :
  find_node (remove_node g n) m =
  if String.eqb m n then None
  else match find_node g m with
       | Some x => Some {| node_id := node_id x;
                           node_attrs := node_attrs x;
                           node_succ := assoc_del n (node_succ x) |}
       | None => None
       end.
Proof.
  unfold remove_node. induction g as [| x g IH]; simpl.
  - destruct (String.eqb m n); reflexivity.
  - destruct (String.eqb_spec n (node_id x)) as [E | E]; simpl.
    + rewrite IH. destruct (String.eqb_spec m n) as [Emn | Hm]; [reflexivity |].
      destruct (String.eqb_spec m (node_id x)); [congruence | reflexivity].
    + destruct (String.eqb_spec m (node_id x)) as [Emx | Hm].
      * destruct (String.eqb_spec m n); [congruence | reflexivity].
      * apply IH.
Qed.

Lemma has_node_remove (g : DiGraph) (n m : string) :
  has_node (remove_node g n) m = negb (String.eqb m n) && has_node g m.
Proof.
  unfold has_node. rewrite find_node_remove.
  destruct (String.eqb m n); [reflexivity |].
  destruct (find_node g m); reflexivity.
Qed.

Lemma attrs_remove (g : DiGraph) (n m : string) :
  Builder.get_concept (remove_node g n) m =
  if String.eqb m n then None else Builder.get_concept g m.
Proof.
  unfold Builder.get_concept. rewrite find_node_remove.
  destruct (String.eqb m n); [reflexivity |].
  destruct (find_node g m); reflexivity.
Qed.

Lemma edge_rel_remove (g : DiGraph) (n u v : string) :
  edge_rel (remove_node g n) u v =
  if String.eqb u n || String.eqb v n then None else edge_rel g u v.
Proof.
  unfold edge_rel. rewrite find_node_remove.
  destruct (String.eqb u n); [reflexivity |]. simpl.
  destruct (find_node g u) as [x |]; simpl.
  - apply assoc_assoc_del.
  - destruct (String.eqb v n); reflexivity.
Qed.

End Removal.

(** X4.  [remove_concept] takes the concept out of the graph together with
    every edge that starts or ends at it, and leaves every other node, its
    attributes (its stored relation lists among them) and every other edge
    as they were; for an id that is no node the graph is returned
    unchanged. *)
Theorem remove_concept_removes_node_and_incident_edges
    (g : NX.DiGraph) (cid : string) :
  well_formed g = true ->
  let g' := Builder.remove_concept g cid in
  Builder.get_concept g' cid = None /\
  (forall u, NX.edge_rel g' u cid = None /\ NX.edge_rel g' cid u = None) /\
  (forall m, m <> cid ->
             NX.has_node g' m = NX.has_node g m /\
             Builder.get_concept g' m = Builder.get_concept g m) /\
  (forall u v, u <> cid -> v <> cid -> NX.edge_rel g' u v = NX.edge_rel g u v) /\
  (NX.has_node g cid = false -> g' = g).
Proof.
  intros Hwf g'. apply well_formed_joins in Hwf. unfold g', Builder.remove_concept.
  destruct (NX.has_node g cid) eqn:Hc.
  - split; [| split; [| split; [| split]]].
    + now rewrite attrs_remove, String.eqb_refl.
    + intros u. rewrite !edge_rel_remove, String.eqb_refl, orb_true_r.
      split; reflexivity.
    + intros m Hm. rewrite has_node_remove, attrs_remove.
      destruct (String.eqb_spec m cid); [contradiction |]. split; reflexivity.
    + intros u v Hu Hv. rewrite edge_rel_remove.
      destruct (String.eqb_spec u cid); [contradiction |].
      destruct (String.eqb_spec v cid); [contradiction | reflexivity].
    + discriminate.
  - split; [| split; [| split; [| split]]].
    + unfold Builder.get_concept. unfold NX.has_node in Hc.
      destruct (NX.find_node g cid); [discriminate | reflexivity].
    + now apply no_edge_without_node.
    + intros m _. split; reflexivity.
    + reflexivity.
    + reflexivity.
Qed.

Lemma remove_concept_removes_node_and_incident_edges_witness :
  let g := Builder.build_graph NX.empty
             [concept "a" "A" ["b"] [] [] []; concept "b" "B" [] [] ["c"] [];
              concept "c" "C" [] [] [] []] in
  NX.edge_rel (Builder.remove_concept g "b") "a" "b" = None /\
  NX.edge_rel (Builder.remove_concept g "b") "b" "c" = None.
Proof.
  intros g.
  destruct (remove_concept_removes_node_and_incident_edges g "b")
    as (_ & H & _).
  - reflexivity.
  - split; [exact (proj1 (H "a")) | exact (proj2 (H "c"))].
Defined.

Section UpsertAgain.

Import NX.

Lemma attrs_update (g : DiGraph) (c : SKOSConcept) (m : string) :
  Builder.get_concept (Builder.update_concept g c) m =
  if String.eqb m (concept_id c) then Some (Some (to_dict c))
  else Builder.get_concept g m.
Proof.
  rewrite update_concept_cleared.
  rewrite attrs_relations by apply has_node_cleared_self.
  unfold cleared, Builder._add_concept_node. rewrite attrs_add_node.
  destruct (String.eqb m (concept_id c)); [reflexivity |].
  destruct (has_node g (concept_id c)); [apply attrs_remove_edges | reflexivity].
Qed.

Lemma after_relations_same_nodes (c : SKOSConcept) (hn hn' : string -> bool)
    (u v : string) (prev : option string) :
  (forall m, hn m = hn' m) ->
  after_relations c hn u v prev = after_relations c hn' u v prev.
Proof.
  intros H. unfold after_relations, after_prerequisite, after_related,
    after_narrower, after_broader. now rewrite !H.
Qed.

Lemma after_relations_away (c : SKOSConcept) (hn : string -> bool)
    (u v : string) (prev : option string) :
  u <> concept_id c -> v <> concept_id c ->
  after_relations c hn u v prev = prev.
Proof.
  intros Hu Hv. unfold after_relations, after_prerequisite, after_related,
    after_narrower, after_broader.
  destruct (String.eqb_spec u (concept_id c)); [contradiction |].
  destruct (String.eqb_spec v (concept_id c)); [contradiction |].
  simpl. destruct prev; reflexivity.
Qed.

End UpsertAgain.

(** X5.  Upserting the same record twice is the same as upserting it once:
    the second [update_concept] leaves every node, every attribute
    dictionary and every edge as the first one made them. *)
Theorem update_concept_twice (g : NX.DiGraph) (c : SKOSConcept) :
  well_formed g = true ->
  let g1 := Builder.update_concept g c in
  let g2 := Builder.update_concept g1 c in
  (forall m, NX.has_node g2 m = NX.has_node g1 m) /\
  (forall m, Builder.get_concept g2 m = Builder.get_concept g1 m) /\
  (forall u v, NX.edge_rel g2 u v = NX.edge_rel g1 u v).
Proof.
  intros Hwf g1 g2. apply well_formed_joins in Hwf.
  assert (Hn : forall m, NX.has_node g2 m = NX.has_node g1 m).
  { intros m. unfold g2, g1. rewrite !has_node_update.
    destruct (NX.has_node g m), (String.eqb m (concept_id c)); reflexivity. }
  split; [assumption |]. split.
  - intros m. unfold g2, g1. rewrite !attrs_update.
    destruct (String.eqb m (concept_id c)); reflexivity.
  - intros u v.
    assert (E1 : NX.edge_rel g1 u v =
                 after_relations c (NX.has_node g1) u v
                   (if String.eqb u (concept_id c) || String.eqb v (concept_id c)
                    then None else NX.edge_rel g u v))
      by (apply edge_rel_update; assumption).
    unfold g2. rewrite edge_rel_update by (now apply joins_update).
    fold g1. fold g2.
    rewrite (after_relations_same_nodes c _ _ u v _ Hn).
    destruct (String.eqb u (concept_id c) || String.eqb v (concept_id c))
      eqn:Eat.
    + now rewrite E1.
    + apply orb_false_iff in Eat. destruct Eat as [Eu Ev].
      apply String.eqb_neq in Eu, Ev. now apply after_relations_away.
Qed.

Lemma update_concept_twice_witness :
  let g := Builder.build_graph NX.empty
             [concept "a" "A" ["b"] [] [] []; concept "b" "B" [] [] [] []] in
  let c := concept "b" "B2" [] ["a"] ["a"] [] in
  NX.edge_rel (Builder.update_concept (Builder.update_concept g c) c) "a" "b" =
  NX.edge_rel (Builder.update_concept g c) "a" "b".
Proof.
  intros g c.
  destruct (update_concept_twice g c) as (_ & _ & H).
  - reflexivity.
  - exact (H "a" "b").
Defined.

(** X6.  An upsert followed by the removal of the same concept leaves no
    trace of the upsert: the graph has the nodes, attributes and edges that
    removing the concept from the graph before the upsert gives. *)
Theorem update_then_remove (g : NX.DiGraph) (c : SKOSConcept) :
  well_formed g = true ->
  let x := concept_id c in
  let g1 := Builder.remove_concept (Builder.update_concept g c) x in
  let g2 := Builder.remove_concept g x in
  (forall m, NX.has_node g1 m = NX.has_node g2 m) /\
  (forall m, Builder.get_concept g1 m = Builder.get_concept g2 m) /\
  (forall u v, NX.edge_rel g1 u v = NX.edge_rel g2 u v).
Proof.
  intros Hwf x g1 g2. pose proof (well_formed_joins g Hwf) as Hj.
  assert (Hx : NX.has_node (Builder.update_concept g c) x = true).
  { unfold x. rewrite has_node_update, String.eqb_refl. apply orb_true_r. }
  unfold g1, g2, Builder.remove_concept. rewrite Hx.
  destruct (NX.has_node g x) eqn:Hgx.
  - split; [| split].
    + intros m. rewrite !has_node_remove, has_node_update. fold x.
      destruct (String.eqb m x); simpl; [reflexivity | apply orb_false_r].
    + intros m. rewrite !attrs_remove, attrs_update. fold x.
      destruct (String.eqb m x); reflexivity.
    + intros u v. rewrite !edge_rel_remove.
      destruct (String.eqb_spec u x) as [Eu | Eu]; [reflexivity |].
      destruct (String.eqb_spec v x) as [Ev | Ev]; [reflexivity |].
      cbn [orb]. rewrite edge_rel_update by assumption. fold x.
      destruct (String.eqb_spec u x); [contradiction |].
      destruct (String.eqb_spec v x); [contradiction |].
      cbn [orb]. now apply after_relations_away.
  - split; [| split].
    + intros m. rewrite has_node_remove, has_node_update. fold x.
      destruct (String.eqb_spec m x) as [-> | _]; simpl;
        [now rewrite Hgx | apply orb_false_r].
    + intros m. rewrite attrs_remove, attrs_update. fold x.
      destruct (String.eqb_spec m x) as [-> | _]; [| reflexivity].
      unfold Builder.get_concept. unfold NX.has_node in Hgx.
      destruct (NX.find_node g x); [discriminate | reflexivity].
    + intros u v. rewrite edge_rel_remove.
      destruct (String.eqb_spec u x) as [-> | Eu]; simpl.
      { symmetry. apply (no_edge_without_node g x Hj Hgx). }
      destruct (String.eqb_spec v x) as [-> | Ev].
      { symmetry. apply (no_edge_without_node g x Hj Hgx). }
      rewrite edge_rel_update by assumption. fold x.
      destruct (String.eqb_spec u x); [contradiction |].
      destruct (String.eqb_spec v x); [contradiction |].
      cbn [orb]. now apply after_relations_away.
Qed.

Lemma update_then_remove_witness :
  let g := Builder.build_graph NX.empty
             [concept "a" "A" ["b"] [] [] []; concept "b" "B" [] [] [] []] in
  let c := concept "n" "New" ["a"] [] ["b"] [] in
  NX.edge_rel (Builder.remove_concept (Builder.update_concept g c) "n") "a" "b" =
  NX.edge_rel (Builder.remove_concept g "n") "a" "b".
Proof.
  intros g c.
  destruct (update_then_remove g c) as (_ & _ & H).
  - reflexivity.
  - exact (H "a" "b").
Defined.

Lemma builder_keeps_concept_graph_witness :
  concept_graph
    (Builder.remove_concept
       (Builder.update_concept
          (Builder.build_graph NX.empty
             [concept "a" "A" ["b"] [] [] []; concept "b" "B" [] [] ["a"] []])
          (concept "c" "C" [] ["a"] [] ["b"]))
       "a") = true.
Proof.
  destruct builder_keeps_concept_graph as [H0 H].
  destruct (H NX.empty H0) as [H1 _].
  destruct (H _ (H1 [concept "a" "A" ["b"] [] [] [];
                     concept "b" "B" [] [] ["a"] []])) as [_ [H2 _]].
  destruct (H _ (H2 (concept "c" "C" [] ["a"] [] ["b"]))) as [_ [_ H3]].
  exact (H3 "a").
Defined.

(** * Further properties of the index engine *)

Section IndexIsAdjacency.

Import NX.

Lemma indexed_of_node (rt src : string) (x : Node) :
  well_named rt = true ->
  map (fun e => snd (fst e))
      (filter (indexed_under Indexer.empty_relation_index rt src)
              (map (fun vr => (node_id x, fst vr, snd vr)) (node_succ x))) =
  if String.eqb src (node_id x)
  then map fst (filter (fun vr => String.eqb (snd vr) rt) (node_succ x))
  else [].
Proof.
  intros Hrt. induction (node_succ x) as [| [v r] l IH]; simpl.
  - destruct (String.eqb src (node_id x)); reflexivity.
  - unfold indexed_under at 1. cbn [fst snd].
    rewrite has_key_empty_index, (String.eqb_sym r rt).
    destruct (String.eqb_spec rt r) as [E | E].
    + subst r. rewrite Hrt. cbn [andb].
      destruct (String.eqb src (node_id x)); simpl; now rewrite IH.
    + rewrite andb_false_r. cbn [andb]. exact IH.
Qed.

Lemma indexed_of_graph (rt src : string) (g : DiGraph) :
  well_named rt = true -> NoDup (nodes g) ->
  map (fun e => snd (fst e))
      (filter (indexed_under Indexer.empty_relation_index rt src) (edges g)) =
  match find_node g src with
  | Some x => map fst (filter (fun vr => String.eqb (snd vr) rt) (node_succ x))
  | None => []
  end.
Proof.
  intros Hrt. unfold nodes, edges. induction g as [| x g IH]; intros Hnd;
    [reflexivity |].
  inversion Hnd as [| ? ? Hnot Hrest]; subst.
  cbn [flat_map find_node]. rewrite filter_app, map_app, indexed_of_node
    by assumption.
  destruct (String.eqb_spec src (node_id x)) as [E | E].
  - rewrite IH by assumption. subst src.
    assert (Hnone : find_node g (node_id x) = None).
    { destruct (find_node g (node_id x)) as [y |] eqn:Ey; [| reflexivity].
      apply find_node_id in Ey. destruct Ey as [Eid Hin].
      exfalso. apply Hnot. rewrite <- Eid. now apply in_map. }
    rewrite Hnone. apply app_nil_r.
  - now apply IH.
Qed.

End IndexIsAdjacency.

(** X8.  Right after the indexes are built, [get_related_concepts] returns
    for a concept and a known relation type the targets of the concept's
    edges of that type, in the order in which the graph stores them; for a
    concept that is no node it returns the empty list. *)
Theorem fresh_index_is_adjacency
    (g : NX.DiGraph) (concept_id relation_type : string) :
  well_formed g = true -> well_named relation_type = true ->
  Indexer.get_related_concepts (Indexer._build_indexes g)
                               concept_id relation_type =
  match NX.find_node g concept_id with
  | Some x => map fst (filter (fun vr => String.eqb (snd vr) relation_type)
                              (NX.node_succ x))
  | None => []
  end.
Proof.
  intros Hwf Hrt. destruct (well_formed_parts g Hwf) as [Hn _].
  rewrite get_related_concepts_lookup, index_lookup_built.
  now apply indexed_of_graph.
Qed.

Lemma fresh_index_is_adjacency_witness :
  let g := Builder.build_graph NX.empty
             [concept "a" "A" ["b"; "c"] [] ["d"] [];
              concept "b" "B" [] [] [] []; concept "c" "C" [] [] [] [];
              concept "d" "D" [] [] [] []] in
  Indexer.get_related_concepts (Indexer._build_indexes g) "a" "broader" =
  ["b"; "c"].
Proof.
  intros g.
  rewrite (fresh_index_is_adjacency g "a" "broader"); reflexivity.
Defined.

Section LabelIndexes.

Import NX.

(** A dictionary filled entry by entry holds, for a key, the value of the
    last entry with that key. *)
Lemma assoc_filled (entries : list (string * string))
    (d : list (string * string)) (k : string) :
  assoc k (fold_left (fun ix e => assoc_set (fst e) (snd e) ix) entries d) =
  match find (fun e => String.eqb (fst e) k) (rev entries) with
  | Some e => Some (snd e)
  | None => assoc k d
  end.
Proof.
  revert d. induction entries as [| e l IH]; intros d; [reflexivity |].
  cbn [fold_left rev]. rewrite IH, find_over_app.
  destruct (find (fun e0 => String.eqb (fst e0) k) (rev l)); [reflexivity |].
  cbn [find]. rewrite assoc_assoc_set, (String.eqb_sym (fst e) k).
  destruct (String.eqb k (fst e)); reflexivity.
Qed.

Lemma fold_entries {X : Type} (items : X -> list (string * string))
    (l : list X) (d : list (string * string)) :
  fold_left (fun ix x =>
               fold_left (fun ix' e => assoc_set (fst e) (snd e) ix')
                         (items x) ix) l d =
  fold_left (fun ix e => assoc_set (fst e) (snd e) ix) (flat_map items l) d.
Proof.
  revert d. induction l as [| x l IH]; intros d; [reflexivity |].
  cbn [fold_left flat_map]. now rewrite fold_left_app, IH.
Qed.

Lemma find_rev_flat_map {X : Type} (items : X -> list (string * string))
    (owner : X -> string) (k : string) (l : list X) :
  (forall x e, In e (items x) -> snd e = owner x) ->
  match find (fun e => String.eqb (fst e) k) (rev (flat_map items l)) with
  | Some e => Some (snd e)
  | None => None
  end =
  match find (fun x => existsb (fun e => String.eqb (fst e) k) (items x))
             (rev l) with
  | Some x => Some (owner x)
  | None => None
  end.
Proof.
  intros Hown. induction l as [| x l IH] using rev_ind; [reflexivity |].
  rewrite flat_map_app, !rev_app_distr. cbn [flat_map rev app].
  rewrite app_nil_r, find_over_app. cbn [find].
  destruct (find (fun e => String.eqb (fst e) k) (rev (items x))) as [e |] eqn:Ee.
  - apply find_some in Ee. destruct Ee as [Hin Hk]. apply in_rev in Hin.
    replace (existsb (fun e0 => String.eqb (fst e0) k) (items x)) with true.
    + now rewrite (Hown x e Hin).
    + symmetry. apply existsb_exists. now exists e.
  - replace (existsb (fun e0 => String.eqb (fst e0) k) (items x)) with false;
      [exact IH |].
    symmetry. apply Bool.not_true_iff_false. intros Hex.
    apply existsb_exists in Hex. destruct Hex as [e [Hin Hk]].
    apply in_rev in Hin. pose proof (find_none _ _ Ee e Hin) as Hf.
    cbv beta in Hf. congruence.
Qed.

End LabelIndexes.

Section FindByLabel.

Import NX.

Lemma find_same {A : Type} (f f' : A -> bool) (l : list A) :
  (forall x, f x = f' x) -> find f l = find f' l.
Proof.
  intros H. induction l as [| x l IH]; [reflexivity |].
  simpl. rewrite H, IH. reflexivity.
Qed.

Lemma fold_same {A B : Type} (f f' : A -> B -> A) (l : list B) (a : A) :
  (forall a x, f a x = f' a x) -> fold_left f l a = fold_left f' l a.
Proof.
  intros H. revert a. induction l as [| x l IH]; intros a; [reflexivity |].
  simpl. now rewrite H, IH.
Qed.

(** What a node writes into an index, given the keys it provides. *)
Lemma index_of_keys (keys : Node -> list string)
    (step : list (string * string) -> Node -> list (string * string))
    (g : DiGraph) (k : string) :
  (forall ix x,
      step ix x =
      fold_left (fun ix' e => assoc_set (fst e) (snd e) ix')
                (map (fun key => (key, node_id x)) (keys x)) ix) ->
  assoc k (fold_left step g []) =
  option_map node_id (find (fun x => mem k (keys x)) (rev g)).
Proof.
  intros Hstep.
  rewrite (fold_same _ _ g [] Hstep).
  rewrite (fold_entries (fun x => map (fun key => (key, node_id x)) (keys x))).
  rewrite assoc_filled. cbn [assoc].
  rewrite (find_rev_flat_map _ node_id k g).
  - rewrite (find_same _ (fun x => mem k (keys x))).
    + destruct (find (fun x => mem k (keys x)) (rev g)); reflexivity.
    + intros x. unfold mem. induction (keys x) as [| key l IH];
        [reflexivity |].
      cbn [map existsb fst]. rewrite IH, (String.eqb_sym key k). reflexivity.
  - intros x e He. apply in_map_iff in He. destruct He as [key [<- _]].
    reflexivity.
Qed.

End FindByLabel.

(** X9.  After the indexes are built, [find_by_label] compares labels
    without regard to letter case and answers with the last node, in node
    order, whose preferred label is not empty and equals the given one
    (among concepts that share a label the last one wins), or with nothing
    when there is no such node. *)
Theorem find_by_label_last_writer_wins (g : NX.DiGraph) (label : string) :
  Indexer.find_by_label (Indexer._build_indexes g) label =
  option_map NX.node_id
    (find (fun x =>
             Indexer.nonempty (Indexer.attr_prefLabel (NX.node_attrs x)) &&
             String.eqb (lower (Indexer.attr_prefLabel (NX.node_attrs x)))
                        (lower label))
          (rev g)).
Proof.
  unfold Indexer.find_by_label, Indexer._build_indexes.
  cbn [Indexer.label_index].
  rewrite (index_of_keys
             (fun x => if Indexer.nonempty
                            (Indexer.attr_prefLabel (NX.node_attrs x))
                       then [lower (Indexer.attr_prefLabel (NX.node_attrs x))]
                       else [])).
  - f_equal. apply find_same. intros x.
    destruct (Indexer.nonempty (Indexer.attr_prefLabel (NX.node_attrs x)));
      [| reflexivity].
    unfold mem. cbn [existsb andb]. rewrite orb_false_r. apply String.eqb_sym.
  - intros ix x.
    destruct (Indexer.nonempty (Indexer.attr_prefLabel (NX.node_attrs x)));
      reflexivity.
Qed.

(** X10.  After the indexes are built, [find_by_alt_label] answers, without
    regard to letter case, with the last node that has the given text among
    its non-empty alternative labels, or with nothing. *)
Theorem find_by_alt_label_last_writer_wins
    (g : NX.DiGraph) (alt_label : string) :
  Indexer.find_by_alt_label (Indexer._build_indexes g) alt_label =
  option_map NX.node_id
    (find (fun x =>
             existsb (fun a => Indexer.nonempty a &&
                               String.eqb (lower a) (lower alt_label))
                     (Indexer.attr_altLabel (NX.node_attrs x)))
          (rev g)).
Proof.
  unfold Indexer.find_by_alt_label, Indexer._build_indexes.
  cbn [Indexer.alt_label_index].
  rewrite (index_of_keys
             (fun x => map lower
                           (filter Indexer.nonempty
                                   (Indexer.attr_altLabel (NX.node_attrs x))))).
  - f_equal. apply find_same. intros x. unfold mem.
    induction (Indexer.attr_altLabel (NX.node_attrs x)) as [| a l IH];
      [reflexivity |].
    cbn [filter existsb]. destruct (Indexer.nonempty a); cbn [map existsb andb].
    + now rewrite IH, (String.eqb_sym (lower alt_label)).
    + exact IH.
  - intros ix x. generalize ix.
    induction (Indexer.attr_altLabel (NX.node_attrs x)) as [| a l IH];
      intros ix0; [reflexivity |].
    cbn [fold_left filter]. destruct (Indexer.nonempty a); cbn [map fold_left];
      apply IH.
Qed.

(** X11.  After the indexes are built, [find_by_notation] answers with the
    last node whose notation is not empty and is exactly the given text
    (letter case counts), or with nothing. *)
Theorem find_by_notation_last_writer_wins
    (g : NX.DiGraph) (notation : string) :
  Indexer.find_by_notation (Indexer._build_indexes g) notation =
  option_map NX.node_id
    (find (fun x =>
             match Indexer.attr_notation (NX.node_attrs x) with
             | Some n => Indexer.nonempty n && String.eqb n notation
             | None => false
             end)
          (rev g)).
Proof.
  unfold Indexer.find_by_notation, Indexer._build_indexes.
  cbn [Indexer.notation_index].
  rewrite (index_of_keys
             (fun x => match Indexer.attr_notation (NX.node_attrs x) with
                       | Some n => if Indexer.nonempty n then [n] else []
                       | None => []
                       end)).
  - f_equal. apply find_same. intros x.
    destruct (Indexer.attr_notation (NX.node_attrs x)) as [n |];
      [| reflexivity].
    destruct (Indexer.nonempty n); [| reflexivity].
    unfold mem. cbn [existsb andb]. rewrite orb_false_r. apply String.eqb_sym.
  - intros ix x.
    destruct (Indexer.attr_notation (NX.node_attrs x)) as [n |];
      [| reflexivity].
    destruct (Indexer.nonempty n); reflexivity.
Qed.

(** * Further properties of the query engine *)

Section SearchResults.

Lemma matches_ids (g : NX.DiGraph) (query : string) (e : string * Z) :
  In e (Indexer.matches g query) ->
  exists x, In x g /\ NX.node_id x = fst e /\
            snd e = Indexer.score_node (lower query) (NX.node_attrs x) /\
            (0 < snd e)%Z.
Proof.
  unfold Indexer.matches. cbv zeta. rewrite in_flat_map.
  intros [x [Hx He]].
  destruct (0 <? Indexer.score_node (lower query) (NX.node_attrs x))%Z eqn:E;
    [| contradiction].
  destruct He as [<- | []]. exists x. apply Z.ltb_lt in E. auto.
Qed.

Lemma matches_ids_NoDup (g : NX.DiGraph) (query : string) :
  NoDup (NX.nodes g) -> NoDup (map fst (Indexer.matches g query)).
Proof.
  unfold Indexer.matches, NX.nodes. cbv zeta.
  induction g as [| x g IH]; intros Hnd; [constructor |].
  inversion Hnd as [| ? ? Hnot Hrest]; subst. cbn [flat_map].
  destruct (0 <? Indexer.score_node (lower query) (NX.node_attrs x))%Z;
    [| now apply IH].
  cbn [app map fst]. constructor; [| now apply IH].
  intros Hin. apply Hnot. apply in_map_iff in Hin.
  destruct Hin as [e [He Hin]]. apply in_flat_map in Hin.
  destruct Hin as [y [Hy Hin]].
  destruct (0 <? Indexer.score_node (lower query) (NX.node_attrs y))%Z;
    [| contradiction].
  destruct Hin as [<- | []]. simpl in He. rewrite <- He. now apply in_map.
Qed.

Lemma slice_to_firstn {A : Type} (limit : Z) (l : list A) :
  exists n, Indexer.slice_to limit l = firstn n l /\
            ((0 <= limit)%Z -> n = Z.to_nat limit).
Proof.
  unfold Indexer.slice_to. destruct (0 <=? limit)%Z eqn:E.
  - eexists. split; [reflexivity | reflexivity].
  - eexists. split; [reflexivity |]. apply Z.leb_gt in E. lia.
Qed.

Lemma firstn_NoDup {A : Type} (n : nat) (l : list A) :
  NoDup l -> NoDup (firstn n l).
Proof.
  intros H. rewrite <- (firstn_skipn n l) in H.
  now apply NoDup_app_remove_r in H.
Qed.

Lemma firstn_In {A : Type} (n : nat) (l : list A) (x : A) :
  In x (firstn n l) -> In x l.
Proof.
  intros H. rewrite <- (firstn_skipn n l). apply in_or_app. now left.
Qed.

Lemma search_by_text_ids (g : NX.DiGraph) (query : string) (limit : Z)
    (id : string) :
  In id (Indexer.search_by_text g query limit) ->
  exists x, In x g /\ NX.node_id x = id /\
            (0 < Indexer.score_node (lower query) (NX.node_attrs x))%Z.
Proof.
  unfold Indexer.search_by_text.
  destruct (slice_to_firstn limit (Indexer.sort_desc (Indexer.matches g query)))
    as [n [-> _]].
  intros Hid. apply in_map_iff in Hid. destruct Hid as [e [<- He]].
  apply firstn_In in He.
  apply (Permutation_in _ (sort_desc_perm _)) in He.
  destruct (matches_ids g query e He) as [x (Hx & Hid & Hs & Hpos)].
  exists x. rewrite <- Hs. auto.
Qed.

End SearchResults.

(** X12.  On a graph with unique node ids, every id [search_by_text]
    returns is the id of a node that scored more than zero for the query,
    no id is returned twice, and for a limit that is not negative at most
    [limit] ids are returned. *)
Theorem search_by_text_results (g : NX.DiGraph) (query : string) (limit : Z) :
  NoDup (NX.nodes g) ->
  (forall id, In id (Indexer.search_by_text g query limit) ->
              exists x, In x g /\ NX.node_id x = id /\
                        (0 < Indexer.score_node (lower query)
                                                (NX.node_attrs x))%Z) /\
  NoDup (Indexer.search_by_text g query limit) /\
  ((0 <= limit)%Z ->
   length (Indexer.search_by_text g query limit) <= Z.to_nat limit).
Proof.
  intros Hnd. unfold Indexer.search_by_text.
  destruct (slice_to_firstn limit (Indexer.sort_desc (Indexer.matches g query)))
    as [n [-> Hn]].
  split; [| split].
  - intros id Hid. apply in_map_iff in Hid. destruct Hid as [e [<- He]].
    apply firstn_In in He.
    apply (Permutation_in _ (sort_desc_perm _)) in He.
    destruct (matches_ids g query e He) as [x (Hx & Hid & Hs & Hpos)].
    exists x. rewrite <- Hs. auto.
  - rewrite <- firstn_map. apply firstn_NoDup.
    apply (Permutation_NoDup (l := map fst (Indexer.matches g query))).
    + apply Permutation_map. symmetry. apply sort_desc_perm.
    + now apply matches_ids_NoDup.
  - intros Hl. rewrite length_map, length_firstn, (Hn Hl). lia.
Qed.

Lemma search_by_text_results_witness :
  let g := Builder.build_graph NX.empty
             [concept "r" "Regression" [] [] [] [];
              concept "lr" "Logistic Regression" [] [] [] [];
              concept "s" "Statistics" [] [] [] []] in
  length (Indexer.search_by_text g "regression" 1) <= Z.to_nat 1.
Proof.
  intros g.
  destruct (search_by_text_results g "regression" 1) as (_ & _ & H).
  - repeat constructor; simpl; intuition discriminate.
  - apply H. lia.
Defined.

(** X13.  On a concept graph [search_concepts] turns every id of the text
    search into one hit, in the ranked order, each with the prefLabel,
    definition, uri and file path of its node; [count] is the number of
    hits and the query is handed back. *)
Theorem search_concepts_hydrates_in_order
    (g : NX.DiGraph) (query : string) (limit : Z) :
  concept_graph g = true ->
  let r := Query.search_concepts g query limit in
  map Query.hit_id (Query.sr_results r) =
  Indexer.search_by_text g query limit /\
  Query.sr_count r = length (Indexer.search_by_text g query limit) /\
  Query.sr_query r = query /\
  (forall h, In h (Query.sr_results r) ->
             exists d, Query.get_concept g (Query.hit_id h) = Some (Some d) /\
                       Query.hit_prefLabel h = nd_prefLabel d /\
                       Query.hit_definition h = nd_definition d /\
                       Query.hit_uri h = nd_uri d /\
                       Query.hit_file_path h = nd_file_path d).
Proof.
  intros Hg r.
  assert (Hnd : NoDup (NX.nodes g)).
  { apply concept_graph_iff in Hg. now destruct Hg. }
  pose proof (search_by_text_ids g query limit) as Hids.
  assert (Hattrs : forall id, In id (Indexer.search_by_text g query limit) ->
                              exists d, Query.get_concept g id = Some (Some d)).
  { intros id Hid. destruct (Hids id Hid) as [x (Hx & <- & _)].
    apply (concept_graph_attrs g Hg). apply has_node_In.
    unfold NX.nodes. now apply in_map. }
  unfold r, Query.search_concepts. cbv zeta.
  cbn [Query.sr_results Query.sr_count Query.sr_query].
  revert Hattrs.
  generalize (Indexer.search_by_text g query limit) as ids.
  intros ids Hattrs.
  assert (Hmap : map Query.hit_id
                   (flat_map
                      (fun concept_id =>
                         match Query.get_concept g concept_id with
                         | Some (Some concept) =>
                             [{| Query.hit_id := concept_id;
                                 Query.hit_uri := nd_uri concept;
                                 Query.hit_prefLabel := nd_prefLabel concept;
                                 Query.hit_definition := nd_definition concept;
                                 Query.hit_file_path := nd_file_path concept |}]
                         | _ => []
                         end) ids) = ids).
  { induction ids as [| id l IH]; [reflexivity |].
    cbn [flat_map]. destruct (Hattrs id (or_introl eq_refl)) as [d ->].
    cbn [app map Query.hit_id]. f_equal. apply IH.
    intros id' Hid'. apply Hattrs. now right. }
  split; [exact Hmap |]. split.
  - rewrite <- Hmap at 2. now rewrite length_map.
  - split; [reflexivity |].
    intros h Hh. apply in_flat_map in Hh. destruct Hh as [id [Hid Hh]].
    destruct (Query.get_concept g id) as [[d |] |] eqn:Ed; try contradiction.
    destruct Hh as [<- | []]. exists d. cbn. auto.
Qed.

Lemma search_concepts_hydrates_in_order_witness :
  let g := Builder.build_graph NX.empty
             [concept "lr" "Logistic Regression" [] [] [] [];
              concept "r" "Regression" [] [] [] []] in
  map Query.hit_id (Query.sr_results (Query.search_concepts g "regression" 5)) =
  Indexer.search_by_text g "regression" 5.
Proof.
  intros g.
  destruct (search_concepts_hydrates_in_order g "regression" 5) as [H _].
  - reflexivity.
  - exact H.
Defined.

Section ExpandContextResults.

Import Query.

Variables (g : NX.DiGraph) (ix : Indexer.Indexes).
Variables (relation_types : option (list string)) (max_depth : Z).
Variables (include_content : bool) (x : string).

Lemma rounds_enough (rts : list string) :
  rounds_left ix (start rts x) <= rounds ix.
Proof.
  unfold rounds_left, rounds, start. cbn [queue visited length].
  pose proof (filter_length_le (fun y => negb (mem y [x])) (index_targets ix)).
  unfold unvisited. lia.
Qed.

(** What every round keeps holds of the state from which the result of
    [expand_context] is read. *)
Lemma expand_context_keeps (P : Traversal -> Prop) :
  let rts := relation_types_of relation_types in
  P (start rts x) ->
  (forall st cur depth from rest,
      queue st = (cur, depth, from) :: rest -> P st ->
      P (pop st rest) /\
      ((depth >=? max_depth)%Z = false ->
       P (explore g ix include_content rts cur depth (pop st rest)))) ->
  forall f dr tr ns,
    expand_context g ix x relation_types max_depth include_content =
    Some (ExpandOk f dr tr ns) ->
    exists st, P st /\ dr = direct st /\ tr = transitive st /\
               ns = if include_content then Some (notes st) else None.
Proof.
  intros rts H0 Hstep f dr tr ns. unfold expand_context, relation_types_of in *.
  fold rts. destruct (get_concept g x) as [[focus |] |]; try discriminate.
  fold (start rts x).
  destruct (traverse_keeps g ix include_content rts max_depth P Hstep
              (rounds ix) (start rts x) (rounds_enough rts) H0)
    as [st [-> HP]].
  intros [= _ <- <- <-]. now exists st.
Qed.

End ExpandContextResults.

(** ** What a context expansion lists *)

Lemma In_assoc_set {A : Type} (k k' : string) (v v' : A)
    (d : list (string * A)) :
  In (k', v') (assoc_set k v d) -> v' = v \/ In (k', v') d.
Proof.
  induction d as [| [k0 v0] d IH]; simpl.
  - intros [[= _ <-] | []]. now left.
  - destruct (String.eqb k k0); simpl.
    + intros [[= _ <-] | H]; [now left | right; now right].
    + intros [H | H]; [right; now left |].
      destruct (IH H) as [-> | H']; [now left | right; now right].
Qed.

Section ListedConcepts.

Import Query.

Variable g : NX.DiGraph.

Lemma summaries_of_empty_lists (rts : list string) :
  summaries_of g (empty_lists rts).
Proof.
  assert (H : forall k l, In (k, l) (empty_lists rts) -> l = @nil Summary).
  { unfold empty_lists.
    apply (fold_left_invariant
             (fun d : list (string * list Summary) =>
                forall k l, In (k, l) d -> l = [])).
    - intros d rt _ Hd k l Hin. apply In_assoc_set in Hin.
      destruct Hin as [-> | Hin]; [reflexivity | now apply (Hd k)].
    - intros k l []. }
  intros k l s Hin Hs. rewrite (H k l Hin) in Hs. destruct Hs.
Qed.

Lemma summaries_of_dict_append (k : string) (s : Summary)
    (d : list (string * list Summary)) :
  summary_of g s -> summaries_of g d -> summaries_of g (dict_append k s d).
Proof.
  intros Hs Hd. unfold dict_append.
  destruct (assoc k d) as [l |] eqn:E; [| assumption].
  intros k' l' s' Hin Hs'. apply In_assoc_set in Hin.
  destruct Hin as [-> | Hin].
  - apply in_app_or in Hs'. destruct Hs' as [Hs' | [<- | []]]; [| assumption].
    apply (Hd k l s'); [now apply assoc_In | assumption].
  - now apply (Hd k' l' s').
Qed.

Lemma visit_from_the_graph (include_content : bool) (depth : Z) (rt : string)
    (st : Traversal) (y : string) :
  from_the_graph g st -> from_the_graph g (visit g include_content depth rt st y).
Proof.
  intros (Hd & Ht & Hn). unfold visit.
  destruct (mem y (visited st)); [repeat split; assumption |].
  destruct (get_concept g y) as [[d |] |] eqn:E;
    [| repeat split; assumption | repeat split; assumption].
  assert (Hs : summary_of g {| sum_id := y; sum_prefLabel := nd_prefLabel d;
                               sum_definition := nd_definition d |}).
  { exists d. simpl. auto. }
  unfold from_the_graph. cbn [direct transitive notes].
  split; [| split].
  - destruct (depth =? 0)%Z; [now apply summaries_of_dict_append | assumption].
  - destruct (depth =? 0)%Z; [assumption | now apply summaries_of_dict_append].
  - destruct include_content; [| assumption].
    apply Forall_app. split; [assumption |].
    constructor; [| constructor]. exists d. simpl. auto.
Qed.

Lemma explore_from_the_graph (ix : Indexer.Indexes) (include_content : bool)
    (rts : list string) (cur : string) (depth : Z) (st : Traversal) :
  from_the_graph g st ->
  from_the_graph g (explore g ix include_content rts cur depth st).
Proof.
  unfold explore. apply fold_left_invariant. intros st1 rt _.
  unfold explore_type. apply fold_left_invariant. intros st2 y _.
  apply visit_from_the_graph.
Qed.

(** X14. Whatever the relation index says, current or stale, every summary
    in the direct and transitive lists of a context expansion describes a
    concept that is in the graph with its data: the label and the definition
    are those of the node. The same holds of the context notes, with the
    content and the file path. *)
Theorem expand_context_lists_concepts_of_the_graph (ix : Indexer.Indexes)
    (x : string) (relation_types : option (list string)) (max_depth : Z)
    (include_content : bool) (f : Focus)
    (dr tr : list (string * list Summary)) (ns : option (list ContextNote)) :
  expand_context g ix x relation_types max_depth include_content =
  Some (ExpandOk f dr tr ns) ->
  summaries_of g dr /\ summaries_of g tr /\
  forall l, ns = Some l -> Forall (note_of g) l.
Proof.
  intros E.
  assert (H0 : from_the_graph g (start (relation_types_of relation_types) x)).
  { repeat split; try apply summaries_of_empty_lists. constructor. }
  assert (Hstep : forall st cur depth from rest,
             queue st = (cur, depth, from) :: rest -> from_the_graph g st ->
             from_the_graph g (pop st rest) /\
             ((depth >=? max_depth)%Z = false ->
              from_the_graph g
                (explore g ix include_content
                         (relation_types_of relation_types) cur depth
                         (pop st rest)))).
  { intros st cur depth from rest _ (Hd & Ht & Hn). split.
    - repeat split; assumption.
    - intros _. apply explore_from_the_graph. repeat split; assumption. }
  destruct (expand_context_keeps g ix relation_types max_depth include_content
              x (from_the_graph g) H0 Hstep f dr tr ns E)
    as (st & (Hd & Ht & Hn) & -> & -> & ->).
  repeat split; try assumption.
  { 
intros l. destruct include_content; [| discriminate].
    now intros [= <-]. }
Qed.

End ListedConcepts.

Lemma expand_context_lists_concepts_of_the_graph_witness :
  let g := Builder.build_graph NX.empty
             [concept "ml" "Machine Learning" [] ["regression"] ["stats"] [];
              concept "regression" "Regression" ["ml"] ["ols"] [] [];
              concept "ols" "Least Squares" ["regression"] [] [] [];
              concept "stats" "Statistics" [] [] [] []] in
  exists f dr tr ns,
    Query.expand_context g (Indexer._build_indexes g) "ml" None 2 true =
    Some (Query.ExpandOk f dr tr ns) /\
    summaries_of g dr /\ summaries_of g tr /\
    forall l, ns = Some l -> Forall (note_of g) l.
Proof.
  intros g. do 4 eexists.
  refine ((fun E => conj E
             (expand_context_lists_concepts_of_the_graph
                g _ _ _ _ _ _ _ _ _ E)) _).
  vm_compute. reflexivity.
Defined.

(** ** The context notes *)

Section ContextNotes.

Import Query.

Variables (g : NX.DiGraph) (ix : Indexer.Indexes) (rts : list string).

Lemma visit_noted (depth : Z) (rt : string) (st : Traversal) (y : string) :
  In rt rts -> noted rts st -> noted rts (visit g true depth rt st y).
Proof.
  intros Hrt [Hk Hp]. unfold visit.
  destruct (mem y (visited st)); [now split |].
  destruct (get_concept g y) as [[d |] |]; [| now split | now split].
  destruct (Hk rt Hrt) as [Hkd Hkt].
  unfold noted, recorded in *. cbn [direct transitive notes]. split.
  - intros rt' Hrt'. destruct (Hk rt' Hrt') as [H1 H2].
    destruct (depth =? 0)%Z; now rewrite has_key_dict_append.
  - rewrite map_app. cbn [map note_id].
    eapply Permutation_trans;
      [apply Permutation_app_tail; exact Hp |].
    eapply Permutation_trans; [apply Permutation_app_comm |]. simpl.
    destruct (depth =? 0)%Z.
    + apply (Permutation_app_tail (listed (transitive st))
               (l := y :: listed (direct st))).
      symmetry.
      pose proof (listed_dict_append rt
                    {| sum_id := y; sum_prefLabel := nd_prefLabel d;
                       sum_definition := nd_definition d |} (direct st)) as H.
      now rewrite Hkd in H.
    + eapply Permutation_trans; [apply Permutation_middle |].
      apply Permutation_app_head. symmetry.
      pose proof (listed_dict_append rt
                    {| sum_id := y; sum_prefLabel := nd_prefLabel d;
                       sum_definition := nd_definition d |} (transitive st))
        as H.
      now rewrite Hkt in H.
Qed.

Lemma explore_noted (cur : string) (depth : Z) (st : Traversal) :
  noted rts st -> noted rts (explore g ix true rts cur depth st).
Proof.
  unfold explore. apply fold_left_invariant. intros st1 rt Hrt.
  unfold explore_type. apply fold_left_invariant. intros st2 y _.
  now apply visit_noted.
Qed.

Lemma start_noted (x : string) : noted rts (start rts x).
Proof.
  split.
  - intros rt Hrt. cbn [start direct transitive].
    rewrite has_key_empty_lists. apply mem_In in Hrt. now split.
  - unfold recorded. cbn [start direct transitive notes].
    rewrite listed_empty_lists. constructor.
Qed.

End ContextNotes.

(** X15. A context expansion with [include_content] returns one context note
    for each concept of its direct and transitive lists: the ids of the notes
    are the listed ids, up to order. Without [include_content] the result has
    no notes entry. *)
Theorem expand_context_notes_are_the_listed_concepts (g : NX.DiGraph)
    (ix : Indexer.Indexes) (x : string)
    (relation_types : option (list string)) (max_depth : Z)
    (include_content : bool) (f : Query.Focus)
    (dr tr : list (string * list Query.Summary))
    (ns : option (list Query.ContextNote)) :
  Query.expand_context g ix x relation_types max_depth include_content =
  Some (Query.ExpandOk f dr tr ns) ->
  if include_content
  then exists l, ns = Some l /\
                 Permutation (map Query.note_id l) (listed dr ++ listed tr)
  else ns = None.
Proof.
  intros E. destruct include_content.
  - assert (Hstep : forall st cur depth from rest,
               Query.queue st = (cur, depth, from) :: rest ->
               noted (relation_types_of relation_types) st ->
               noted (relation_types_of relation_types) (Query.pop st rest) /\
               ((depth >=? max_depth)%Z = false ->
                noted (relation_types_of relation_types)
                  (Query.explore g ix true (relation_types_of relation_types)
                                 cur depth (Query.pop st rest)))).
    { intros st cur depth from rest _ H. split.
      - exact H.
      - intros _. now apply explore_noted. }
    destruct (expand_context_keeps g ix relation_types max_depth true x
                (noted (relation_types_of relation_types))
                (start_noted _ x) Hstep f dr tr ns E)
      as (st & [_ Hp] & -> & -> & ->).
    exists (Query.notes st). split; [reflexivity | exact Hp].
  - assert (Hstep : forall st cur depth from rest,
               Query.queue st = (cur, depth, from) :: rest -> True ->
               True /\
               ((depth >=? max_depth)%Z = false -> True)) by (intros; auto).
    destruct (expand_context_keeps g ix relation_types max_depth false x
                (fun _ => True) I Hstep f dr tr ns E)
      as (st & _ & _ & _ & ->).
    reflexivity.
Qed.

Lemma expand_context_notes_are_the_listed_concepts_witness :
  let g := Builder.build_graph NX.empty
             [concept "ml" "Machine Learning" [] ["regression"] ["stats"] [];
              concept "regression" "Regression" ["ml"] ["ols"] [] [];
              concept "ols" "Least Squares" ["regression"] [] [] [];
              concept "stats" "Statistics" [] [] [] []] in
  exists f dr tr l,
    Query.expand_context g (Indexer._build_indexes g) "ml" None 2 true =
    Some (Query.ExpandOk f dr tr (Some l)) /\
    Permutation (map Query.note_id l) (listed dr ++ listed tr) /\
    length l = 3.
Proof.
  intros g.
  assert (E : exists f dr tr l,
             Query.expand_context g (Indexer._build_indexes g) "ml" None 2 true
             = Some (Query.ExpandOk f dr tr (Some l)) /\ length l = 3).
  { do 4 eexists. vm_compute. split; reflexivity. }
  destruct E as (f & dr & tr & l & E & Hl).
  exists f, dr, tr, l.
  destruct (expand_context_notes_are_the_listed_concepts _ _ _ _ _ _ _ _ _ _ E)
    as (l' & [= <-] & Hp).
  auto.
Defined.

(** ** How far a context expansion reaches *)

Section DepthBound.

Import Query.

Variables (g : NX.DiGraph) (ix : Indexer.Indexes) (include_content : bool).
Variables (rts : list string) (x : string) (max_depth : Z).

Lemma visit_within_depth (k : nat) (cur rt : string) (st : Traversal)
    (y : string) :
  hops ix rts x k cur -> (Z.of_nat k < max_depth)%Z -> In rt rts ->
  In y (Indexer.get_related_concepts ix cur rt) ->
  within_depth ix rts x max_depth st ->
  within_depth ix rts x max_depth
    (visit g include_content (Z.of_nat k) rt st y).
Proof.
  intros Hcur Hk Hrt Hy (Hq & Hd & Ht). unfold visit.
  destruct (mem y (visited st)); [exact (conj Hq (conj Hd Ht)) |].
  destruct (get_concept g y) as [[d |] |];
    [| exact (conj Hq (conj Hd Ht)) | exact (conj Hq (conj Hd Ht))].
  assert (Hnew : hops ix rts x (S k) y) by (now apply (hops_step _ _ _ k cur y rt)).
  unfold within_depth. cbn [queue direct transitive]. split; [| split].
  - intros c dp from Hin. apply in_app_or in Hin.
    destruct Hin as [Hin | [[= <- <- <-] | []]]; [now apply (Hq c dp from) |].
    exists (S k). split; [lia | assumption].
  - intros z Hz. destruct (Z.eqb_spec (Z.of_nat k) 0) as [E | E];
      [| now apply Hd].
    apply listed_dict_append_In in Hz. cbn [sum_id] in Hz.
    destruct Hz as [-> | Hz]; [| now apply Hd].
    assert (k = 0) by lia. subst k. split; [lia | assumption].
  - intros z Hz. destruct (Z.eqb_spec (Z.of_nat k) 0) as [E | E];
      [now apply Ht |].
    apply listed_dict_append_In in Hz. cbn [sum_id] in Hz.
    destruct Hz as [-> | Hz]; [| now apply Ht].
    exists (S k). split; [lia | split; [lia | assumption]].
Qed.

Lemma explore_within_depth (k : nat) (cur : string) (st : Traversal) :
  hops ix rts x k cur -> (Z.of_nat k < max_depth)%Z ->
  within_depth ix rts x max_depth st ->
  within_depth ix rts x max_depth
    (explore g ix include_content rts cur (Z.of_nat k) st).
Proof.
  intros Hcur Hk. unfold explore. apply fold_left_invariant. intros st1 rt Hrt.
  unfold explore_type. apply fold_left_invariant. intros st2 y Hy.
  now apply (visit_within_depth k cur).
Qed.

Lemma round_within_depth (st : Traversal) (cur : string) (depth : Z)
    (from : option string) (rest : list (string * Z * option string)) :
  queue st = (cur, depth, from) :: rest ->
  within_depth ix rts x max_depth st ->
  within_depth ix rts x max_depth (pop st rest) /\
  ((depth >=? max_depth)%Z = false ->
   within_depth ix rts x max_depth
     (explore g ix include_content rts cur depth (pop st rest))).
Proof.
  intros Hq (Hqueue & Hd & Ht).
  assert (Hpop : within_depth ix rts x max_depth (pop st rest)).
  { split; [| split; assumption]. cbn [pop queue].
    intros c dp fr Hin. apply (Hqueue c dp fr). rewrite Hq. now right. }
  split; [assumption |].
  intros Hlt. destruct (Hqueue cur depth from) as (k & <- & Hcur).
  { rewrite Hq. now left. }
  apply explore_within_depth; try assumption.
  rewrite Z.geb_leb in Hlt. apply Z.leb_gt in Hlt. assumption.
Qed.

Lemma start_within_depth : within_depth ix rts x max_depth (start rts x).
Proof.
  split; [| split]; cbn [start queue direct transitive].
  - intros c dp fr [[= <- <- <-] | []]. exists 0. split; [reflexivity |].
    constructor.
  - rewrite listed_empty_lists. intros y [].
  - rewrite listed_empty_lists. intros y [].
Qed.

End DepthBound.

(** X16. A context expansion reaches no further than [max_depth] steps of the
    relation index: a concept in a direct list is one step from the focus
    (and then [max_depth] is at least 1), a concept in a transitive list is
    at least two and at most [max_depth] steps from it, each step along a
    list of the index under one of the requested relation types. *)
Theorem expand_context_stays_within_depth (g : NX.DiGraph)
    (ix : Indexer.Indexes) (x : string)
    (relation_types : option (list string)) (max_depth : Z)
    (include_content : bool) (f : Query.Focus)
    (dr tr : list (string * list Query.Summary))
    (ns : option (list Query.ContextNote)) :
  Query.expand_context g ix x relation_types max_depth include_content =
  Some (Query.ExpandOk f dr tr ns) ->
  (forall y, In y (listed dr) ->
     (1 <= max_depth)%Z /\
     hops ix (relation_types_of relation_types) x 1 y) /\
  (forall y, In y (listed tr) ->
     exists k, 2 <= k /\ (Z.of_nat k <= max_depth)%Z /\
               hops ix (relation_types_of relation_types) x k y).
Proof.
  intros E.
  destruct (expand_context_keeps g ix relation_types max_depth include_content
              x (within_depth ix (relation_types_of relation_types) x max_depth)
              (start_within_depth ix _ x max_depth)
              (round_within_depth g ix include_content _ x max_depth)
              f dr tr ns E)
    as (st & (_ & Hd & Ht) & -> & -> & _).
  split; assumption.
Qed.

Lemma expand_context_stays_within_depth_witness :
  let g := Builder.build_graph NX.empty
             [concept "ml" "Machine Learning" [] ["regression"] ["stats"] [];
              concept "regression" "Regression" ["ml"] ["ols"] [] [];
              concept "ols" "Least Squares" ["regression"] ["qr"] [] [];
              concept "qr" "QR" ["ols"] [] [] [];
              concept "stats" "Statistics" [] [] [] []] in
  exists f dr tr ns,
    Query.expand_context g (Indexer._build_indexes g) "ml" None 2 false =
    Some (Query.ExpandOk f dr tr ns) /\
    listed tr = ["ols"] /\
    (forall y, In y (listed dr) ->
       (1 <= 2)%Z /\
       hops (Indexer._build_indexes g) Query.default_relation_types "ml" 1 y) /\
    (forall y, In y (listed tr) ->
       exists k, 2 <= k /\ (Z.of_nat k <= 2)%Z /\
                 hops (Indexer._build_indexes g) Query.default_relation_types
                      "ml" k y).
Proof.
  intros g. do 4 eexists.
  refine ((fun E => conj (proj1 E)
             (conj (proj2 E)
                (expand_context_stays_within_depth
                   g _ _ None _ _ _ _ _ _ (proj1 E)))) _).
  vm_compute. split; reflexivity.
Defined.

(** * Properties of the input validation *)

(** X17. The depth check composed with the context expansion, as the
    [expand_context] tool runs them: a negative depth is refused, and
    otherwise the expansion is run to the smaller of the requested and the
    configured depth, so that every concept it lists is at most that many
    index steps from the focus. *)
Theorem validated_depth_bounds_the_expansion
    (settings : Validation.SecuritySettings) (depth : Z)
    (g : NX.DiGraph) (ix : Indexer.Indexes) (x : string)
    (relation_types : option (list string)) (include_content : bool) :
  match Validation.validate_depth settings depth with
  | NX.Raises _ => (depth < 0)%Z
  | NX.Returns d =>
      (0 <= depth)%Z /\
      d = Z.min depth (Validation.max_context_depth settings) /\
      forall f dr tr ns,
        Query.expand_context g ix x relation_types d include_content =
        Some (Query.ExpandOk f dr tr ns) ->
        forall y, In y (listed dr ++ listed tr) ->
          exists k, 1 <= k /\ (Z.of_nat k <= depth)%Z /\
                    (Z.of_nat k <= Validation.max_context_depth settings)%Z /\
                    hops ix (relation_types_of relation_types) x k y
  end.
Proof.
  unfold Validation.validate_depth.
  destruct (depth <? 0)%Z eqn:E0; [now apply Z.ltb_lt in E0 |].
  apply Z.ltb_ge in E0.
  set (m := Validation.max_context_depth settings).
  assert (Hd : exists d, (if (depth >? m)%Z then NX.Returns m
                          else NX.Returns depth) = NX.Returns d /\
                         d = Z.min depth m).
  { destruct (depth >? m)%Z eqn:E1.
    - exists m. split; [reflexivity |]. apply Z.gtb_lt in E1. lia.
    - exists depth. split; [reflexivity |].
      rewrite Z.gtb_ltb in E1. apply Z.ltb_ge in E1. lia. }
  destruct Hd as (d & -> & Hd). split; [assumption | split; [assumption |]].
  intros f dr tr ns E y Hy.
  destruct (expand_context_keeps g ix relation_types d include_content
              x (within_depth ix (relation_types_of relation_types) x d)
              (start_within_depth ix _ x d)
              (round_within_depth g ix include_content _ x d)
              f dr tr ns E)
    as (st & (_ & Hdir & Htr) & -> & -> & _).
  apply in_app_or in Hy. destruct Hy as [Hy | Hy].
  - destruct (Hdir y Hy) as [H1 Hh]. exists 1. repeat split; try lia.
    assumption.
  - destruct (Htr y Hy) as (k & Hk & Hle & Hh). exists k.
    repeat split; try lia. assumption.
Qed.

(** X18. The limit check composed with the search, as the [search_concepts]
    tool runs them: a limit below one is refused, and otherwise the search
    is run with the smaller of the requested and the configured limit; when
    the configured limit is not negative, the search returns at most that
    many hits. *)
Theorem validated_limit_bounds_the_search
    (settings : Validation.SecuritySettings) (limit : Z)
    (g : NX.DiGraph) (query : string) :
  (0 <= Validation.max_results_per_query settings)%Z ->
  match Validation.validate_limit settings limit with
  | NX.Raises _ => (limit < 1)%Z
  | NX.Returns l =>
      (1 <= limit)%Z /\
      l = Z.min limit (Validation.max_results_per_query settings) /\
      (Z.of_nat (Query.sr_count (Query.search_concepts g query l)) <= l)%Z /\
      length (Query.sr_results (Query.search_concepts g query l)) =
      Query.sr_count (Query.search_concepts g query l)
  end.
Proof.
  intros Hmax. unfold Validation.validate_limit.
  destruct (limit <? 1)%Z eqn:E0; [now apply Z.ltb_lt in E0 |].
  apply Z.ltb_ge in E0.
  set (m := Validation.max_results_per_query settings) in *.
  assert (Hl : exists l, (if (limit >? m)%Z then NX.Returns m
                          else NX.Returns limit) = NX.Returns l /\
                         l = Z.min limit m).
  { destruct (limit >? m)%Z eqn:E1.
    - exists m. split; [reflexivity |]. apply Z.gtb_lt in E1. lia.
    - exists limit. split; [reflexivity |].
      rewrite Z.gtb_ltb in E1. apply Z.ltb_ge in E1. lia. }
  destruct Hl as (l & -> & Hl).
  split; [assumption | split; [assumption | split; [| reflexivity]]].
  assert (H0 : (0 <= l)%Z) by lia.
  unfold Query.search_concepts. cbn [Query.sr_count].
  assert (Hlen : forall ids : list string,
             length (flat_map
                       (fun concept_id =>
                          match Query.get_concept g concept_id with
                          | Some (Some concept) =>
                              [{| Query.hit_id := concept_id;
                                  Query.hit_uri := nd_uri concept;
                                  Query.hit_prefLabel := nd_prefLabel concept;
                                  Query.hit_definition := nd_definition concept;
                                  Query.hit_file_path := nd_file_path concept |}]
                          | _ => []
                          end) ids) <= length ids).
  { induction ids as [| id ids IH]; simpl; [lia |].
    rewrite length_app.
    destruct (Query.get_concept g id) as [[c |] |]; simpl; lia. }
  specialize (Hlen (Indexer.search_by_text g query l)).
  assert (Hids : length (Indexer.search_by_text g query l) <= Z.to_nat l).
  { unfold Indexer.search_by_text. rewrite length_map.
    destruct (slice_to_firstn l (Indexer.sort_desc (Indexer.matches g query)))
      as [n [-> Hn]].
    rewrite (Hn H0). rewrite length_firstn. lia. }
  lia.
Qed.

Lemma validated_limit_bounds_the_search_witness :
  let g := Builder.build_graph NX.empty
             [concept "ml" "Machine Learning" [] [] [] [];
              concept "dl" "Deep Learning" ["ml"] [] [] []] in
  (0 <= 100)%Z /\
  Validation.validate_limit Validation.default_settings 500 = NX.Returns 100%Z
  /\ (Z.of_nat (Query.sr_count (Query.search_concepts g "learning" 100))
      <= 100)%Z.
Proof.
  intros g.
  pose proof (validated_limit_bounds_the_search
                Validation.default_settings 500 g "learning"
                ltac:(vm_compute; discriminate)) as H.
  change (Validation.validate_limit Validation.default_settings 500)
    with (NX.Returns (A := Z) 100%Z) in H.
  destruct H as (_ & _ & Hc & _).
  split; [lia | split; [reflexivity | exact Hc]].
Defined.

Section Texts.

Lemma string_length_app (s t : string) :
  String.length (s ++ t)%string = String.length s + String.length t.
Proof. induction s as [| c s IH]; simpl; [reflexivity | now rewrite IH]. Qed.

Lemma substring_length (n : nat) (s : string) :
  String.length (String.substring 0 n s) = Nat.min n (String.length s).
Proof.
  revert n. induction s as [| c s IH]; intros [| n]; simpl; try reflexivity.
  now rewrite IH.
Qed.

Lemma substring_prefix (n : nat) (s : string) :
  String.prefix (String.substring 0 n s) s = true.
Proof.
  revert n. induction s as [| c s IH]; intros [| n]; simpl; try reflexivity.
  destruct (ascii_dec c c); [apply IH | contradiction].
Qed.

End Texts.

(** X19. With a content limit that is not negative, [truncate_content]
    returns a content within the limit as it is; of a longer content it keeps
    the first [max_concept_content_length] characters and appends the
    truncation mark, so that the result is 28 characters longer than the
    limit. *)
Theorem truncate_content_keeps_a_prefix
    (settings : Validation.SecuritySettings) (content : string) :
  let max_length := Validation.max_concept_content_length settings in
  (0 <= max_length)%Z ->
  ((Z.of_nat (String.length content) <= max_length)%Z ->
   Validation.truncate_content settings content = content) /\
  ((max_length < Z.of_nat (String.length content))%Z ->
   exists kept,
     Validation.truncate_content settings content =
     (kept ++ Validation.truncation_mark)%string /\
     Z.of_nat (String.length kept) = max_length /\
     String.prefix kept content = true /\
     Z.of_nat (String.length (Validation.truncate_content settings content)) =
     (max_length + 28)%Z).
Proof.
  intros max_length Hmax. unfold Validation.truncate_content. fold max_length.
  split.
  - intros Hle.
    destruct (Z.of_nat (String.length content) >? max_length)%Z eqn:E;
      [| reflexivity].
    apply Z.gtb_lt in E. lia.
  - intros Hlt.
    destruct (Z.of_nat (String.length content) >? max_length)%Z eqn:E.
    2: { rewrite Z.gtb_ltb in E. apply Z.ltb_ge in E. lia. }
    unfold Validation.string_slice_to.
    destruct (0 <=? max_length)%Z eqn:E0; [| apply Z.leb_gt in E0; lia].
    exists (String.substring 0 (Z.to_nat max_length) content).
    assert (Hlen : String.length
                     (String.substring 0 (Z.to_nat max_length) content) =
                   Z.to_nat max_length).
    { rewrite substring_length. lia. }
    split; [reflexivity | split; [lia | split; [apply substring_prefix |]]].
    rewrite string_length_app, Hlen.
    change (String.length Validation.truncation_mark) with 28. lia.
Qed.

Lemma truncate_content_keeps_a_prefix_witness :
  let settings :=
    {| Validation.max_query_length := 1000;
       Validation.max_context_depth := 3;
       Validation.max_results_per_query := 100;
       Validation.max_concept_content_length := 5 |} in
  Validation.truncate_content settings "hello" = "hello" /\
  exists kept,
    Validation.truncate_content settings "hello world" =
    (kept ++ Validation.truncation_mark)%string /\
    Z.of_nat (String.length kept) = 5%Z /\
    String.prefix kept "hello world" = true /\
    Z.of_nat (String.length
                (Validation.truncate_content settings "hello world")) = 33%Z.
Proof.
  intros settings. split.
  - apply (proj1 (truncate_content_keeps_a_prefix settings "hello"
                    ltac:(vm_compute; discriminate))).
    vm_compute. discriminate.
  - apply (proj2 (truncate_content_keeps_a_prefix settings "hello world"
                    ltac:(vm_compute; discriminate))).
    vm_compute. reflexivity.
Defined.

(** ** Concept ids that pass the check *)

Section ConceptIds.

Import Validation.

Lemma contains_first (c : ascii) (q s : string) :
  contains (String c q) s = true -> In c (list_ascii_of_string s).
Proof.
  induction s as [| d s IH]; cbn [contains String.prefix list_ascii_of_string].
  - discriminate.
  - destruct (ascii_dec c d) as [-> | Hcd].
    + intros _. now left.
    + simpl. intros H. right. now apply IH.
Qed.

Lemma chars_lower (s : string) :
  list_ascii_of_string (lower s) = map lower_ascii (list_ascii_of_string s).
Proof. induction s as [| c s IH]; simpl; [reflexivity | now rewrite IH]. Qed.

Lemma lower_ascii_id_char (c : ascii) :
  id_char c = true ->
  id_char (lower_ascii c) = true /\ lower_ascii (lower_ascii c) = lower_ascii c.
Proof.
  destruct c as [[] [] [] [] [] [] [] []]; vm_compute;
    intros H; try discriminate H; split; reflexivity.
Qed.

Lemma lower_ascii_not_path (c : ascii) :
  id_char c = true \/ c = newline ->
  lower_ascii c <> "."%char /\ lower_ascii c <> "~"%char /\
  lower_ascii c <> "/"%char.
Proof.
  destruct c as [[] [] [] [] [] [] [] []]; vm_compute;
    intros [H | H]; try discriminate H; repeat split; discriminate.
Qed.

Lemma id_char_not_newline (c : ascii) :
  id_char c = true -> Ascii.eqb c newline = false.
Proof.
  destruct c as [[] [] [] [] [] [] [] []]; vm_compute;
    intros H; try discriminate H; reflexivity.
Qed.

Lemma matches_id_step (c : ascii) (rest : string) :
  id_char c = true -> matches_id rest = true ->
  matches_id (String c rest) = true.
Proof.
  intros Hc Hr. cbn [matches_id]. rewrite Hc. cbn [andb].
  destruct rest as [| c' [| c'' rest']]; [reflexivity | | exact Hr].
  rewrite Hr. apply orb_true_r.
Qed.

Lemma matches_id_chars (s : string) :
  matches_id s = true ->
  forall c, In c (list_ascii_of_string s) -> id_char c = true \/ c = newline.
Proof.
  induction s as [| c rest IH]; [discriminate |].
  cbn [matches_id]. intros H. apply andb_prop in H. destruct H as [Hc H].
  intros d [<- | Hd]; [now left |].
  destruct rest as [| c' [| c'' rest']].
  - destruct Hd.
  - apply orb_prop in H. destruct H as [H | H].
    + apply Ascii.eqb_eq in H. destruct Hd as [<- | []]. now right.
    + now apply IH.
  - now apply IH.
Qed.

Lemma no_path_traversal (s : string) :
  (forall c, In c (list_ascii_of_string s) ->
             id_char c = true \/ c = newline) ->
  existsb (fun text => contains text (lower s)) path_traversal_texts = false.
Proof.
  intros Hs.
  assert (H' : forall c q, (c = "."%char \/ c = "~"%char \/ c = "/"%char) ->
                 contains (String c q) (lower s) = false).
  { intros c q Hc. destruct (contains (String c q) (lower s)) eqn:E;
      [| reflexivity].
    apply contains_first in E. rewrite chars_lower in E.
    apply in_map_iff in E. destruct E as [d [Hd Hin]].
    destruct (lower_ascii_not_path d (Hs d Hin)) as (H1 & H2 & H3).
    destruct Hc as [-> | [-> | ->]]; contradiction. }
  unfold path_traversal_texts. cbn [existsb].
  rewrite !H' by auto. reflexivity.
Qed.

Lemma matches_id_shape (s : string) :
  matches_id s = true <->
  exists body, id_text body /\
               (s = body \/ s = (body ++ final_newline)%string).
Proof.
  split.
  - induction s as [| c rest IH]; [discriminate |].
    cbn [matches_id]. intros H. apply andb_prop in H. destruct H as [Hc H].
    assert (Hrec : matches_id rest = true ->
              exists body, id_text body /\
                (String c rest = body \/
                 String c rest = (body ++ final_newline)%string)).
    { intros Hr. destruct (IH Hr) as (body & [Hne Hall] & Hs).
      exists (String c body). split.
      - split; [discriminate |]. cbn [string_forall]. now rewrite Hc, Hall.
      - destruct Hs as [-> | ->]; [now left | now right]. }
    destruct rest as [| c' [| c'' rest']].
    + exists (String c EmptyString). split.
      * split; [discriminate |]. cbn [string_forall]. now rewrite Hc.
      * now left.
    + apply orb_prop in H. destruct H as [H | H]; [| now apply Hrec].
      apply Ascii.eqb_eq in H. subst c'.
      exists (String c EmptyString). split.
      * split; [discriminate |]. cbn [string_forall]. now rewrite Hc.
      * now right.
    + now apply Hrec.
  - intros (body & [Hne Hall] & Hs). revert s Hs.
    induction body as [| c body IH]; [contradiction |].
    cbn [string_forall] in Hall. apply andb_prop in Hall.
    destruct Hall as [Hc Hall]. intros s Hs.
    destruct body as [| c' body'].
    + destruct Hs as [-> | ->]; cbn [matches_id String.append final_newline];
        rewrite Hc; [reflexivity |].
      now rewrite Ascii.eqb_refl.
    + assert (Hb : String c' body' <> EmptyString) by discriminate.
      destruct Hs as [-> | ->].
      * apply matches_id_step; [assumption |].
        apply (IH Hb Hall). now left.
      * change ((String c (String c' body') ++ final_newline)%string)
          with (String c (String c' body' ++ final_newline)%string).
        apply matches_id_step; [assumption |].
        apply (IH Hb Hall). now right.
Qed.

Lemma matches_id_lower (s : string) :
  matches_id s = true -> matches_id (lower s) = true.
Proof.
  induction s as [| c rest IH]; [discriminate |].
  cbn [matches_id]. intros H. apply andb_prop in H. destruct H as [Hc H].
  cbn [lower].
  destruct rest as [| c' [| c'' rest']].
  - cbn [lower matches_id]. now rewrite (proj1 (lower_ascii_id_char c Hc)).
  - apply orb_prop in H. destruct H as [H | H].
    + apply Ascii.eqb_eq in H. subst c'. cbn [lower matches_id].
      rewrite (proj1 (lower_ascii_id_char c Hc)).
      change (lower_ascii newline) with newline.
      now rewrite Ascii.eqb_refl.
    + apply matches_id_step; [apply (lower_ascii_id_char c Hc) | now apply IH].
  - apply matches_id_step; [apply (lower_ascii_id_char c Hc) | now apply IH].
Qed.

Lemma lower_lower (s : string) :
  (forall c, In c (list_ascii_of_string s) ->
             id_char c = true \/ c = newline) ->
  lower (lower s) = lower s.
Proof.
  induction s as [| c s IH]; [reflexivity |]. intros H. cbn [lower].
  rewrite IH by (intros d Hd; apply H; now right).
  f_equal. destruct (H c (or_introl eq_refl)) as [Hc | ->].
  - apply (lower_ascii_id_char c Hc).
  - reflexivity.
Qed.

Lemma sanitize_concept_id_returns (s r : string) :
  sanitize_concept_id s = NX.Returns r <->
  matches_id s = true /\ r = lower s.
Proof.
  unfold sanitize_concept_id. split.
  - destruct (existsb _ path_traversal_texts); [discriminate |].
    destruct (matches_id s); [| discriminate].
    intros [= <-]. now split.
  - intros [Hm ->].
    rewrite (no_path_traversal s (matches_id_chars s Hm)), Hm. reflexivity.
Qed.

End ConceptIds.

(** X20. [sanitize_concept_id] accepts exactly the texts made of one or
    more characters of [[a-zA-Z0-9_-]], and the same texts followed by one
    final newline; what it returns is the text in lower case. The search for
    path traversal patterns refuses nothing that the character check would
    let through. *)
Theorem sanitize_concept_id_accepts (s r : string) :
  Validation.sanitize_concept_id s = NX.Returns r <->
  (exists body, id_text body /\
                (s = body \/ s = (body ++ final_newline)%string)) /\
  r = lower s.
Proof.
  rewrite sanitize_concept_id_returns, matches_id_shape. reflexivity.
Qed.

(** X21. An accepted concept id is accepted again and not changed the
    second time. *)
Theorem sanitize_concept_id_idempotent (s r : string) :
  Validation.sanitize_concept_id s = NX.Returns r ->
  Validation.sanitize_concept_id r = NX.Returns r.
Proof.
  intros H. apply sanitize_concept_id_returns in H. destruct H as [Hm ->].
  apply sanitize_concept_id_returns. split.
  - now apply matches_id_lower.
  - symmetry. apply lower_lower. now apply matches_id_chars.
Qed.

Lemma sanitize_concept_id_idempotent_witness :
  Validation.sanitize_concept_id "Machine-Learning_2" =
  NX.Returns "machine-learning_2" /\
  Validation.sanitize_concept_id "machine-learning_2" =
  NX.Returns "machine-learning_2".
Proof.
  assert (E : Validation.sanitize_concept_id "Machine-Learning_2" =
              NX.Returns "machine-learning_2") by (vm_compute; reflexivity).
  split; [exact E |].
  exact (sanitize_concept_id_idempotent _ _ E).
Defined.

(** * Properties of the extraction *)

Section GeneratedIds.

Import Validation Extractor.

Lemma wikilink_id_cons (c : ascii) (w : string) :
  _wikilink_to_concept_id (String c w) =
  String (id_of_char c) (_wikilink_to_concept_id w).
Proof. reflexivity. Qed.

Lemma title_char_id (c : ascii) :
  title_char c = true ->
  id_char (id_of_char c) = true /\ lower_ascii (id_of_char c) = id_of_char c.
Proof.
  destruct c as [[] [] [] [] [] [] [] []]; vm_compute;
    intros H; try discriminate H; split; reflexivity.
Qed.

Lemma other_char_id (c : ascii) :
  title_char c = false -> c <> newline ->
  id_char (id_of_char c) = false /\ id_of_char c <> newline.
Proof.
  destruct c as [[] [] [] [] [] [] [] []]; vm_compute;
    intros H Hn; try discriminate H; try (exfalso; apply Hn; reflexivity);
    (split; [reflexivity | discriminate]).
Qed.

Lemma id_of_char_shaped (c : ascii) :
  ascii_range c = true ->
  id_shaped (id_of_char c) = true /\ id_of_char (id_of_char c) = id_of_char c.
Proof.
  destruct c as [[] [] [] [] [] [] [] []]; vm_compute;
    intros H; try discriminate H; split; reflexivity.
Qed.

Lemma wikilink_id_chars (w : string) :
  list_ascii_of_string (_wikilink_to_concept_id w) =
  map id_of_char (list_ascii_of_string w).
Proof.
  induction w as [| c w IH]; [reflexivity |].
  rewrite wikilink_id_cons. cbn [list_ascii_of_string map]. now rewrite IH.
Qed.

Lemma wikilink_id_of_title (w : string) :
  string_forall title_char w = true ->
  string_forall id_char (_wikilink_to_concept_id w) = true /\
  lower (_wikilink_to_concept_id w) = _wikilink_to_concept_id w.
Proof.
  induction w as [| c w IH]; [now split |].
  cbn [string_forall]. intros H. apply andb_prop in H. destruct H as [Hc H].
  rewrite wikilink_id_cons. cbn [string_forall lower].
  destruct (IH H) as [H1 H2]. destruct (title_char_id c Hc) as [H3 H4].
  rewrite H1, H2, H3, H4. now split.
Qed.

End GeneratedIds.

(** X22. The id made from a note title or a file stem that is not empty and
    consists of letters, digits, underscores, hyphens and spaces passes
    [sanitize_concept_id], and passes it unchanged: the concept can be asked
    for by the id under which the graph has it. *)
Theorem generated_id_passes_the_check (title : string) :
  title <> EmptyString -> string_forall title_char title = true ->
  Validation.sanitize_concept_id (Extractor._wikilink_to_concept_id title) =
  NX.Returns (Extractor._wikilink_to_concept_id title) /\
  Extractor._generate_concept_id title =
  Extractor._wikilink_to_concept_id title.
Proof.
  intros Hne Hall. split; [| reflexivity].
  destruct (wikilink_id_of_title title Hall) as [Hid Hlow].
  apply sanitize_concept_id_returns. split; [| now symmetry].
  apply matches_id_shape. exists (Extractor._wikilink_to_concept_id title).
  split; [| now left]. split; [| assumption].
  destruct title as [| c w]; [contradiction |].
  rewrite wikilink_id_cons. discriminate.
Qed.

Lemma generated_id_passes_the_check_witness :
  Validation.sanitize_concept_id
    (Extractor._wikilink_to_concept_id "Machine Learning-2") =
  NX.Returns "machine_learning_2" /\
  Extractor._generate_concept_id "Machine Learning-2" = "machine_learning_2".
Proof.
  exact (generated_id_passes_the_check "Machine Learning-2"
           ltac:(discriminate) ltac:(vm_compute; reflexivity)).
Defined.

(** X23. The id made from a title or stem that has an ASCII character other
    than a letter, a digit, an underscore, a hyphen, a space or a newline (a
    dot, a plus sign, a bracket, ...) is refused by [sanitize_concept_id]:
    the graph has the concept under an id that the check never lets
    through. *)
Theorem generated_id_with_other_character_is_refused
    (title : string) (c : ascii) :
  In c (list_ascii_of_string title) -> ascii_range c = true ->
  title_char c = false -> c <> Validation.newline ->
  exists message,
    Validation.sanitize_concept_id (Extractor._generate_concept_id title) =
    NX.Raises message.
Proof.
  intros Hin _ Hc Hn.
  change (Extractor._generate_concept_id title)
    with (Extractor._wikilink_to_concept_id title).
  destruct (Validation.sanitize_concept_id
              (Extractor._wikilink_to_concept_id title)) as [r | message] eqn:E;
    [| now exists message].
  apply sanitize_concept_id_returns in E. destruct E as [Hm _].
  exfalso.
  destruct (other_char_id c Hc Hn) as [H1 H2].
  destruct (matches_id_chars _ Hm (id_of_char c)) as [H | H].
  - rewrite wikilink_id_chars. now apply in_map.
  - congruence.
  - contradiction.
Qed.

Lemma generated_id_with_other_character_is_refused_witness :
  exists message,
    Validation.sanitize_concept_id (Extractor._generate_concept_id "Node.js") =
    NX.Raises message.
Proof.
  apply (generated_id_with_other_character_is_refused "Node.js" "."%char).
  - simpl. tauto.
  - reflexivity.
  - reflexivity.
  - discriminate.
Defined.

(** X24. On a title in the ASCII range the generated id has no space, no
    hyphen and no capital letter, and making an id from the id gives the id
    again. *)
Theorem generated_id_is_a_normal_form (title : string) :
  string_forall ascii_range title = true ->
  string_forall id_shaped (Extractor._wikilink_to_concept_id title) = true /\
  Extractor._wikilink_to_concept_id (Extractor._wikilink_to_concept_id title) =
  Extractor._wikilink_to_concept_id title.
Proof.
  induction title as [| c w IH]; [now split |].
  cbn [string_forall]. intros H. apply andb_prop in H. destruct H as [Hc H].
  rewrite !wikilink_id_cons. cbn [string_forall].
  destruct (IH H) as [H1 H2]. destruct (id_of_char_shaped c Hc) as [H3 H4].
  rewrite H1, H2, H3, H4. now split.
Qed.

Lemma generated_id_is_a_normal_form_witness :
  string_forall id_shaped
    (Extractor._wikilink_to_concept_id "Gradient Descent - SGD") = true /\
  Extractor._wikilink_to_concept_id
    (Extractor._wikilink_to_concept_id "Gradient Descent - SGD") =
  Extractor._wikilink_to_concept_id "Gradient Descent - SGD".
Proof.
  exact (generated_id_is_a_normal_form "Gradient Descent - SGD"
           ltac:(vm_compute; reflexivity)).
Defined.

Section NormalizedKeys.

Context {A : Type}.

Lemma normalized_lookup (metadata d : list (string * A)) (k : string) :
  assoc k (fold_left
             (fun normalized kv =>
                assoc_set (Parser.normalized_key (fst kv)) (snd kv) normalized)
             metadata d) =
  match deciding_entry k metadata with
  | Some kv => Some (snd kv)
  | None => assoc k d
  end.
Proof.
  unfold deciding_entry. revert d.
  induction metadata as [| kv l IH]; intros d; [reflexivity |].
  cbn [fold_left rev]. rewrite IH, find_over_app.
  destruct (find (fun kv0 => String.eqb (Parser.normalized_key (fst kv0)) k)
                 (rev l)); [reflexivity |].
  cbn [find]. rewrite assoc_assoc_set.
  rewrite (String.eqb_sym (Parser.normalized_key (fst kv)) k).
  destruct (String.eqb k (Parser.normalized_key (fst kv))); reflexivity.
Qed.

End NormalizedKeys.

(** X25. What [_normalize_skos_keys] has under a key is the value of the
    last entry of the frontmatter whose key, with a leading [skos:] removed,
    is that key: when the frontmatter has both [skos:prefLabel] and
    [prefLabel], the later of the two decides, and a key that no entry
    normalizes to is absent. *)
Theorem normalize_skos_keys_last_entry_wins {A : Type}
    (metadata : list (string * A)) (k : string) :
  assoc k (Parser._normalize_skos_keys metadata) =
  option_map snd (deciding_entry k metadata).
Proof.
  unfold Parser._normalize_skos_keys. rewrite normalized_lookup.
  destruct (deciding_entry k metadata); reflexivity.
Qed.

(** * Further properties of the statistics and of concept paths *)

(** X26. For a graph built from at least one record the builder's
    statistics are returned: the counts are those of the graph, there is at
    least one concept, [is_connected] tells whether every two of the
    records' concepts are joined by relations taken in either direction, and
    the query engine's statistics report the same two counts. *)
Theorem statistics_of_a_built_graph (concepts : list SKOSConcept) :
  concepts <> [] ->
  let g := Builder.build_graph NX.empty concepts in
  exists st,
    Builder.get_statistics g = NX.Returns st /\
    Builder.total_concepts st = NX.number_of_nodes g /\
    Builder.total_relations st = NX.number_of_edges g /\
    Builder.density st = NX.density g /\
    1 <= Builder.total_concepts st /\
    (Builder.is_connected st = true <->
     forall a b, In a (map concept_id concepts) ->
                 In b (map concept_id concepts) -> connected g a b) /\
    Query.get_statistics g =
    {| Query.total_concepts := Builder.total_concepts st;
       Query.total_relations := Builder.total_relations st |}.
Proof.
  intros Hne g.
  assert (Hnodes : forall m, In m (NX.nodes g) <->
                             In m (map concept_id concepts)).
  { intros m. rewrite <- has_node_In. unfold g. rewrite has_node_build.
    cbn [NX.has_node NX.empty NX.find_node find orb]. apply mem_In. }
  assert (Hj : edges_join_nodes g).
  { apply joins_build. intros u v r H. discriminate H. }
  assert (Hg : g <> []).
  { destruct concepts as [| c cs]; [contradiction |].
    assert (H : In (concept_id c) (NX.nodes g)).
    { apply Hnodes. now left. }
    intros E. rewrite E in H. destruct H. }
  destruct (statistics_of_nonempty_graph g Hj Hg)
    as (st & Hst & Hn & He & Hd & Hc).
  exists st. repeat split; try assumption.
  - rewrite Hn. unfold NX.number_of_nodes.
    destruct g; [contradiction | simpl; lia].
  - intros H a b Ha Hb. apply Hc; try assumption; now apply Hnodes.
  - intros H. apply Hc. intros u v Hu Hv. apply H; now apply Hnodes.
  - unfold Query.get_statistics. now rewrite Hn, He.
Qed.

Lemma statistics_of_a_built_graph_witness :
  let concepts :=
    [concept "ml" "Machine Learning" [] ["dl"] [] [];
     concept "dl" "Deep Learning" [] [] [] [];
     concept "art" "Art" [] [] [] []] in
  let g := Builder.build_graph NX.empty concepts in
  exists st,
    Builder.get_statistics g = NX.Returns st /\
    Builder.total_concepts st = 3 /\
    Builder.is_connected st = false /\
    ~ (forall a b, In a (map concept_id concepts) ->
                   In b (map concept_id concepts) -> connected g a b).
Proof.
  intros concepts g.
  destruct (statistics_of_a_built_graph concepts ltac:(discriminate))
    as (st & Hst & Hn & _ & _ & _ & Hc & _).
  fold g in Hst, Hn, Hc.
  exists st. split; [exact Hst |].
  assert (E : Builder.get_statistics g =
              NX.Returns {| Builder.total_concepts := 3;
                            Builder.total_relations := 2;
                            Builder.density := (2%Z, 6%Z);
                            Builder.is_connected := false |})
    by (vm_compute; reflexivity).
  rewrite E in Hst. injection Hst as <-.
  split; [reflexivity | split; [reflexivity |]].
  intros H. apply Hc in H. discriminate H.
Defined.

Section PathsBetweenConcepts.

Variable g : NX.DiGraph.
Hypothesis Hcg : concept_graph g = true.

Lemma concept_graph_joins : edges_join_nodes g.
Proof. apply well_formed_joins. now apply concept_graph_well_formed. Qed.

Lemma path_found_iff_connected (a b : string) :
  NX.has_node g a = true -> NX.has_node g b = true ->
  (exists n p, Query.get_concept_path g a b = Query.PathFound a b n p) <->
  connected g a b.
Proof.
  intros Ha Hb. unfold Query.get_concept_path. rewrite Ha, Hb. cbn [negb].
  split.
  - intros (n & p & H).
    destruct (NX.shortest_path g a b) as [q |] eqn:Hq; [| discriminate].
    now apply (shortest_path_connected g a b q).
  - intros Hc.
    destruct (shortest_path_decides g concept_graph_joins a b Ha) as [H _].
    destruct (H Hc) as [q [-> _]]. eauto.
Qed.

Lemma path_found_walk (a b : string) (n : Z) (p : list Query.PathStep) :
  Query.get_concept_path g a b = Query.PathFound a b n p ->
  exists q, NX.shortest_path g a b = Some q /\ walk g a b q /\
            n = (Z.of_nat (length q) - 1)%Z /\ map Query.step_id p = q.
Proof.
  unfold Query.get_concept_path.
  destruct (NX.has_node g a) eqn:Ha; [| discriminate]. cbn [negb].
  destruct (NX.has_node g b) eqn:Hb; [| discriminate]. cbn [negb].
  destruct (NX.shortest_path g a b) as [q |] eqn:Hq; [| discriminate].
  intros [= <- <-]. exists q.
  destruct (shortest_path_decides g concept_graph_joins a b Ha) as [H _].
  destruct (H (shortest_path_connected g a b q Hq)) as [q' [Hq' Hw]].
  rewrite Hq in Hq'. injection Hq' as <-.
  repeat split; try apply Hw.
  apply path_concepts_ids. intros y Hy.
  apply (concept_graph_attrs g Hcg). apply has_node_In.
  apply (walk_nodes g concept_graph_joins q a b Hw);
    [now apply has_node_In | assumption].
Qed.

Lemma shortest_path_self (a : string) : NX.shortest_path g a a = Some [a].
Proof.
  unfold NX.shortest_path. cbn [NX.bfs]. now rewrite String.eqb_refl.
Qed.

End PathsBetweenConcepts.

(** X27. Between two concepts of a concept graph a path is found in one
    direction exactly when one is found in the other, since relations are
    followed both ways. A path that is found has one step per node, its
    [length] is one less than the number of its steps, and the length is zero
    exactly when the two concepts are the same. *)
Theorem concept_path_both_ways (g : NX.DiGraph) (a b : string) :
  concept_graph g = true ->
  NX.has_node g a = true -> NX.has_node g b = true ->
  ((exists n p, Query.get_concept_path g a b = Query.PathFound a b n p) <->
   (exists n p, Query.get_concept_path g b a = Query.PathFound b a n p)) /\
  (forall n p,
      Query.get_concept_path g a b = Query.PathFound a b n p ->
      Z.of_nat (length p) = (n + 1)%Z /\ (0 <= n)%Z /\
      (n = 0%Z <-> a = b) /\
      hd_error (map Query.step_id p) = Some a /\
      last (map Query.step_id p) a = b).
Proof.
  intros Hcg Ha Hb. split.
  - rewrite (path_found_iff_connected g Hcg a b Ha Hb).
    rewrite (path_found_iff_connected g Hcg b a Hb Ha).
    split; apply connected_sym.
  - intros n p H.
    destruct (path_found_walk g Hcg a b n p H)
      as (q & Hq & (Hh & Hl & Hk) & -> & Hp).
    rewrite Hp. rewrite <- (length_map Query.step_id p), Hp.
    destruct q as [| u q']; [discriminate Hh |].
    cbn [hd_error] in Hh. injection Hh as ->.
    cbn [length hd_error].
    split; [lia | split; [lia | split; [| split; [reflexivity | exact Hl]]]].
    split.
    + intros Hn. destruct q' as [| v q'']; [exact Hl |].
      cbn [length] in Hn. lia.
    + intros Hab. rewrite <- Hab, (shortest_path_self g a) in Hq.
      injection Hq as <-. reflexivity.
Qed.

Lemma concept_path_both_ways_witness :
  let g := Builder.build_graph NX.empty
             [concept "a" "A" ["b"] [] [] []; concept "b" "B" [] [] ["c"] [];
              concept "c" "C" [] [] [] []; concept "d" "D" [] [] [] []] in
  (exists n p, Query.get_concept_path g "c" "a" = Query.PathFound "c" "a" n p)
  /\ exists n p, Query.get_concept_path g "a" "c" = Query.PathFound "a" "c" n p.
Proof.
  intros g.
  assert (E : exists n p, Query.get_concept_path g "a" "c" =
                          Query.PathFound "a" "c" n p).
  { do 2 eexists. vm_compute. reflexivity. }
  split; [| exact E].
  apply (proj1 (concept_path_both_ways g "a" "c" eq_refl eq_refl eq_refl)).
  exact E.
Defined.

(** ** The shape of a context expansion *)

Section ExpansionKeys.

Import Query.

Variables (g : NX.DiGraph) (ix : Indexer.Indexes) (include_content : bool).
Variable rts : list string.

Lemma visit_keyed_by (depth : Z) (rt : string) (st : Traversal) (y : string) :
  keyed_by rts st -> keyed_by rts (visit g include_content depth rt st y).
Proof.
  intros Hk. unfold visit.
  destruct (mem y (visited st)); [assumption |].
  destruct (get_concept g y) as [[d |] |]; [| exact Hk | exact Hk].
  intros k. destruct (Hk k) as [H1 H2]. cbn [direct transitive].
  destruct (depth =? 0)%Z; rewrite ?has_key_dict_append; now split.
Qed.

Lemma explore_keyed_by (cur : string) (depth : Z) (st : Traversal) :
  keyed_by rts st ->
  keyed_by rts (explore g ix include_content rts cur depth st).
Proof.
  unfold explore. apply fold_left_invariant. intros st1 rt _.
  unfold explore_type. apply fold_left_invariant. intros st2 y _.
  apply visit_keyed_by.
Qed.

Lemma start_keyed_by (x : string) : keyed_by rts (start rts x).
Proof.
  intros k. cbn [start direct transitive].
  rewrite has_key_empty_lists. now split.
Qed.

End ExpansionKeys.

(** X28. The direct and the transitive dictionary of a context expansion
    have an entry, possibly an empty list, for each requested relation type
    and for nothing else; without a request the types are [broader],
    [narrower] and [related]. *)
Theorem expand_context_lists_are_keyed_by_the_relation_types
    (g : NX.DiGraph) (ix : Indexer.Indexes) (x : string)
    (relation_types : option (list string)) (max_depth : Z)
    (include_content : bool) (f : Query.Focus)
    (dr tr : list (string * list Query.Summary))
    (ns : option (list Query.ContextNote)) :
  Query.expand_context g ix x relation_types max_depth include_content =
  Some (Query.ExpandOk f dr tr ns) ->
  forall k,
    has_key k dr = mem k (relation_types_of relation_types) /\
    has_key k tr = mem k (relation_types_of relation_types).
Proof.
  intros E.
  assert (Hstep : forall st cur depth from rest,
             Query.queue st = (cur, depth, from) :: rest ->
             keyed_by (relation_types_of relation_types) st ->
             keyed_by (relation_types_of relation_types) (Query.pop st rest) /\
             ((depth >=? max_depth)%Z = false ->
              keyed_by (relation_types_of relation_types)
                (Query.explore g ix include_content
                               (relation_types_of relation_types) cur depth
                               (Query.pop st rest)))).
  { intros st cur depth from rest _ H. split; [exact H |].
    intros _. now apply explore_keyed_by. }
  destruct (expand_context_keeps g ix relation_types max_depth include_content
              x (keyed_by (relation_types_of relation_types))
              (start_keyed_by _ x) Hstep f dr tr ns E)
    as (st & Hk & -> & -> & _).
  exact Hk.
Qed.

Lemma expand_context_lists_are_keyed_by_the_relation_types_witness :
  let g := Builder.build_graph NX.empty
             [concept "ml" "Machine Learning" [] ["regression"] ["stats"] [];
              concept "regression" "Regression" ["ml"] [] [] [];
              concept "stats" "Statistics" [] [] [] []] in
  exists f dr tr ns,
    Query.expand_context g (Indexer._build_indexes g) "ml"
                         (Some ["narrower"; "prerequisite"]) 1 false =
    Some (Query.ExpandOk f dr tr ns) /\
    map fst dr = ["narrower"; "prerequisite"] /\
    forall k,
      has_key k dr = mem k ["narrower"; "prerequisite"] /\
      has_key k tr = mem k ["narrower"; "prerequisite"].
Proof.
  intros g. do 4 eexists.
  refine ((fun E => conj (proj1 E)
             (conj (proj2 E)
                (expand_context_lists_are_keyed_by_the_relation_types
                   g _ _ (Some ["narrower"; "prerequisite"]) _ _ _ _ _ _
                   (proj1 E)))) _).
  vm_compute. split; reflexivity.
Defined.
